(** * Chat With Cat: the query dispatch engine of [js/background.js]

    A shallow embedding of the background service worker: the retry
    controller ([retryWithBackoff]), the response cache ([responseCache]
    with its [CACHE_EXPIRY] test), the debouncer ([debounce]), the delivery
    loop ([sendResponseToContent]) and the dispatch body wrapped by
    [fetchAIResponse].

    JavaScript numbers that the code only uses as integers (timestamps,
    retry counters, the back-off delays [1000 * 2^k]) are modelled in [Z];
    the delivery delay is multiplied by [1.5] and is modelled in [Q].  The
    browser (clock, timers, storage, network, tabs) is an abstract [World]
    that every effectful call threads through. *)

From Stdlib Require Import ZArith QArith Qround List Lia.
From stdpp Require Import gmap strings list.
From Equations Require Import Equations.

Local Open Scope Z_scope.

(** ** Configuration constants (background.js, lines 15-20) *)

Definition CACHE_EXPIRY : Z := 30 * 60 * 1000.
Definition DEBOUNCE_DELAY : Z := 300.
Definition MAX_RETRIES : Z := 3.
Definition INITIAL_RETRY_DELAY : Z := 1000.

(** ** Retry controller *)

Module Retry.

(** Ghost log of what one run of the loop did: every invocation of the
    wrapped operation and every back-off wait, in program order. *)
Inductive retry_event : Type :=
| Attempt
| Sleep (ms : Z).

Definition attempts (log : list retry_event) : nat :=
  length (List.filter (λ ev, match ev with Attempt => true | Sleep _ => false end) log).

Definition sleeps (log : list retry_event) : list Z :=
  omap (λ ev, match ev with Attempt => None | Sleep ms => Some ms end) log.

Section RetryController.
(** [W] is whatever state the operation and the timer act on, [E] the
    type of thrown values and [A] the type of results. *)
Context {W E A : Type}.

(** [await new Promise(resolve => setTimeout(resolve, delay))] *)
Variable sleep : Z → W → W.

Definition log_events (evs : list retry_event)
    (r : (E + A) * W * list retry_event) : (E + A) * W * list retry_event :=
  let '(x, w, log) := r in (x, w, evs ++ log).

(** The [while (true)] loop of [retryWithBackoff], entered with the
    current value of the local [retries]. *)
Equations? retry_loop (fn : W → (E + A) * W) (maxRetries initialDelay retries : Z)
    (w : W) : (E + A) * W * list retry_event
    by wf (Z.to_nat (maxRetries - retries)) lt :=
  retry_loop fn maxRetries initialDelay retries w with fn w => {
    | (inr v, w1) => (inr v, w1, [Attempt]);
    | (inl error, w1) with Z_ge_dec retries maxRetries => {
        | left _ => (inl error, w1, [Attempt]);
        | right _ =>
            let delay := initialDelay * 2 ^ retries in
            log_events [Attempt; Sleep delay]
              (retry_loop fn maxRetries initialDelay (retries + 1) (sleep delay w1)) } }.
Proof. lia. Qed.

Definition retryWithBackoff (fn : W → (E + A) * W) (maxRetries initialDelay : Z)
    (w : W) : (E + A) * W * list retry_event :=
  retry_loop fn maxRetries initialDelay 0 w.

(** The state in which the [k]-th invocation (counted from 0) of an
    operation starts, when every earlier invocation was followed by the
    back-off wait. *)
Fixpoint attempt_state (fn : W → (E + A) * W) (initialDelay : Z) (k : nat) (w : W) : W :=
  match k with
  | O => w
  | S k' =>
      sleep (initialDelay * 2 ^ Z.of_nat k')
            (snd (fn (attempt_state fn initialDelay k' w)))
  end.

Definition fails_at (fn : W → (E + A) * W) (w : W) : Prop :=
  ∃ e, fst (fn w) = inl e.

Definition succeeds_at (fn : W → (E + A) * W) (w : W) : Prop :=
  ∃ v, fst (fn w) = inr v.
End RetryController.

End Retry.

(** ** Data model *)

(** A thrown JavaScript [Error] object. *)
Record JsError : Type := mkJsError {
  name : string;
  message : string
}.

(** [new Error(msg)] *)
Definition Error (msg : string) : JsError := mkJsError "Error" msg.

(** The error V8 raises for [apiProviders[activeProvider].fetchResponse]
    when [apiProviders[activeProvider]] is [undefined]. *)
Definition TypeError_fetchResponse : JsError :=
  mkJsError "TypeError" "Cannot read properties of undefined (reading 'fetchResponse')".

(** The error V8 raises for the call
    [apiProviders[activeProvider].fetchResponse(text, config)] when
    [apiProviders[activeProvider]] is a value without [fetchResponse]. *)
Definition TypeError_not_a_function : JsError :=
  mkJsError "TypeError" "apiProviders[activeProvider].fetchResponse is not a function".

(** The names that every plain object ([apiProviders], and the
    [apiConfig] read from the store) inherits from [Object.prototype].
    The value found under each of them is a function or, for
    [__proto__], the prototype itself: a truthy value that has none of
    the members [fetchResponse], [selectedModel] and [apiKey]. *)
Definition Object_prototype : list string :=
  [ "constructor"; "__defineGetter__"; "__defineSetter__"; "hasOwnProperty";
    "__lookupGetter__"; "__lookupSetter__"; "isPrototypeOf"; "propertyIsEnumerable";
    "toString"; "valueOf"; "__proto__"; "toLocaleString" ].

(** [o[id]] is an inherited member for an [id] that [o] does not hold
    itself. *)
Definition inherited (id : string) : bool := bool_decide (id ∈ Object_prototype).

(** The own keys of the [apiProviders] object literal. *)
Inductive Provider : Type :=
| gemini
| openrouter
| groq.

Definition apiProviders (id : string) : option Provider :=
  if decide (id = "gemini") then Some gemini
  else if decide (id = "openrouter") then Some openrouter
  else if decide (id = "groq") then Some groq
  else None.

(** One entry of the stored [apiConfig] object.  A field that is absent
    ([undefined]) is [None]. *)
Record ProviderConfig : Type := mkProviderConfig {
  apiKey : option string;
  selectedModel : option string
}.

(** The result of [chrome.storage.local.get(['apiConfig', 'activeProvider'])].
    [apiConfig] is modelled by its own properties. *)
Record Storage : Type := mkStorage {
  apiConfig : option (gmap string ProviderConfig);
  activeProvider : option string
}.

(** JavaScript truthiness of a value that is a string or [undefined]:
    the string itself when it is non-empty. *)
Definition truthy (v : option string) : option string :=
  match v with
  | Some s => if decide (s = "") then None else Some s
  | None => None
  end.

(** A value of the [responseCache] map: [{ data, timestamp }]. *)
Record CacheEntry : Type := mkCacheEntry {
  data : string;
  timestamp : Z
}.

(** ** Response cache *)

(** [`${text}-${activeProvider}-${config.selectedModel}`] (line 324) *)
Definition cacheKey (text activeProvider selectedModel : string) : string :=
  text +:+ "-" +:+ activeProvider +:+ "-" +:+ selectedModel.

(** The read of lines 325-326 at time [t = Date.now()]:
    [responseCache.get(key)] guarded by
    [cachedResponse && Date.now() - cachedResponse.timestamp < CACHE_EXPIRY]. *)
Definition cache_get (t : Z) (key : string) (cache : gmap string CacheEntry) : option string :=
  match cache !! key with
  | Some cachedResponse =>
      if t - timestamp cachedResponse <? CACHE_EXPIRY then Some (data cachedResponse) else None
  | None => None
  end.

(** The write of lines 342-345 at time [t = Date.now()]:
    [responseCache.set(key, { data: v, timestamp: Date.now() })]. *)
Definition cache_put (t : Z) (key v : string) (cache : gmap string CacheEntry)
    : gmap string CacheEntry :=
  <[key := mkCacheEntry v t]> cache.

(** ** The browser *)

(** What the service worker observes of its environment.  [tabs_get] and
    [tabs_sendMessage] answer [true] when their callback runs with
    [chrome.runtime.lastError] unset. *)
Class Browser : Type := {
  World : Type;
  now : World → Z;
  sleep : Q → World → World;
  storage_get : World → Storage;
  fetchResponse : Provider → string → ProviderConfig → World → (JsError + string) * World;
  tabs_get : Z → World → bool * World;
  tabs_sendMessage : Z → string → World → bool * World
}.

Inductive console_level : Type :=
| console_log
| console_warn
| console_error.

(** Observable actions of the worker, in program order. *)
Inductive event : Type :=
| EvStorageGet
| EvFetch (provider : Provider) (text : string) (config : ProviderConfig)
| EvSleep (ms : Z)
| EvConsole (level : console_level) (msg : string)
| EvTabsGet (tabId : Z)
| EvSendMessage (tabId : Z) (response : string)
| EvSetTimeout (delay : Q).

Definition is_fetch (ev : event) : bool :=
  match ev with EvFetch _ _ _ => true | _ => false end.

(** Number of adapter invocations (outbound requests) in a trace. *)
Definition fetch_count (tr : list event) : nat := length (List.filter is_fetch tr).

(** The messages handed to [chrome.tabs.sendMessage], in order. *)
Definition sent_messages (tr : list event) : list (Z * string) :=
  omap (λ ev, match ev with EvSendMessage tab r => Some (tab, r) | _ => None end) tr.

(** The delays handed to [setTimeout] by the delivery loop, in order. *)
Definition timeouts (tr : list event) : list Q :=
  omap (λ ev, match ev with EvSetTimeout d => Some d | _ => None end) tr.

(** The events of [sendResponseToContent]: tab lookups, sends, timers and
    console output. *)
Definition is_delivery_event (ev : event) : bool :=
  match ev with
  | EvTabsGet _ | EvSendMessage _ _ | EvSetTimeout _ | EvConsole _ _ => true
  | _ => false
  end.

(** What one delivery may add to the trace: delivery events only, every
    message carrying the text that was handed over, at most [retries + 1]
    sends and [retries] timers. *)
Definition delivery_bounds (responseText : string) (tabId : Z) (retries : Z)
    (tr : list event) : Prop :=
  Forall (λ ev, is_delivery_event ev = true) tr
  ∧ Forall (λ m, m = (tabId, responseText)) (sent_messages tr)
  ∧ Z.of_nat (length (sent_messages tr)) ≤ Z.max retries 0 + 1
  ∧ Z.of_nat (length (timeouts tr)) ≤ Z.max retries 0.

Section Engine.
Context `{Browser}.

(** Module-level state of the worker together with its environment. *)
Record State : Type := mkState {
  world : World;
  responseCache : gmap string CacheEntry;
  trace : list event
}.

Definition set_world (w : World) (st : State) : State :=
  mkState w (responseCache st) (trace st).

Definition set_cache (c : gmap string CacheEntry) (st : State) : State :=
  mkState (world st) c (trace st).

Definition emit (evs : list event) (st : State) : State :=
  mkState (world st) (responseCache st) (trace st ++ evs).

(** *** Delivery to the content script *)

(** [sendResponseToContent(responseText, tabId, retries, delay)] with
    its callbacks run in sequence; the timer of line 126 is the wait
    [sleep delay].  Console messages are recorded by their fixed text
    (the interpolated delay and counter of line 125 are left out). *)
Equations? sendResponseToContent (responseText : string) (tabId : Z) (retries : Z)
    (delay : Q) (st : State) : State by wf (Z.to_nat retries) lt :=
  sendResponseToContent responseText tabId retries delay st
    with tabs_get tabId (world st) => {
    | (false, w1) =>
        emit [EvTabsGet tabId; EvConsole console_error "Tab no longer exists:"] (set_world w1 st);
    | (true, w1) with tabs_sendMessage tabId responseText w1 => {
        | (true, w2) =>
            emit [EvTabsGet tabId; EvSendMessage tabId responseText] (set_world w2 st);
        | (false, w2) with Z_gt_dec retries 0 => {
            | left _ =>
                sendResponseToContent responseText tabId (retries - 1) (delay * (3 # 2))
                  (set_world (sleep delay w2)
                     (emit [EvTabsGet tabId; EvSendMessage tabId responseText;
                            EvConsole console_warn "Error sending response to content script:";
                            EvConsole console_log "Retrying message sending";
                            EvSetTimeout delay] st));
            | right _ =>
                emit [EvTabsGet tabId; EvSendMessage tabId responseText;
                      EvConsole console_warn "Error sending response to content script:";
                      EvConsole console_error "Failed to send message after multiple attempts"]
                  (set_world w2 st) } } }.
Proof. lia. Qed.

(** The default parameters [retries = 3, delay = 500]. *)
Definition sendResponseToContent_default (responseText : string) (tabId : Z)
    (st : State) : State :=
  sendResponseToContent responseText tabId 3 500 st.

(** What a delivery of [responseText] to the tab [tabId], started in the
    world [w], adds to the trace: it always looks the tab up; when the
    tab is gone it sends nothing; when the tab is there it sends the
    text to that tab, and when the content script takes that first
    message nothing else follows. *)
Definition delivered (responseText : string) (tabId : Z) (w : World)
    (tr : list event) : Prop :=
  (∃ rest, tr = EvTabsGet tabId :: rest)
  ∧ (fst (tabs_get tabId w) = false →
     tr = [EvTabsGet tabId; EvConsole console_error "Tab no longer exists:"])
  ∧ (fst (tabs_get tabId w) = true →
     ∃ rest, tr = EvTabsGet tabId :: EvSendMessage tabId responseText :: rest)
  ∧ (fst (tabs_get tabId w) = true →
     fst (tabs_sendMessage tabId responseText (snd (tabs_get tabId w))) = true →
     tr = [EvTabsGet tabId; EvSendMessage tabId responseText]).

(** *** The async dispatch body *)

(** An async computation: it either throws or returns, and changes the
    state. *)
Definition M (A : Type) : Type := State → (JsError + A) * State.

Definition ret {A} (x : A) : M A := λ st, (inr x, st).

Definition bind {A B} (m : M A) (k : A → M B) : M B :=
  λ st, match m st with
        | (inr x, st1) => k x st1
        | (inl e, st1) => (inl e, st1)
        end.

Definition throw {A} (e : JsError) : M A := λ st, (inl e, st).

(** [try { body } catch (error) { handler(error) }] as the whole body of
    a function whose result is discarded. *)
Definition try_catch (body : M unit) (handler : JsError → State → State) : State → State :=
  λ st, match body st with
        | (inr _, st1) => st1
        | (inl e, st1) => handler e st1
        end.

Definition act (f : State → State) : M unit := λ st, (inr tt, f st).

Definition console (level : console_level) (msg : string) : M unit :=
  act (emit [EvConsole level msg]).

Definition chrome_storage_local_get : M Storage :=
  λ st, (inr (storage_get (world st)), emit [EvStorageGet] st).

Definition Date_now : M Z := λ st, (inr (now (world st)), st).

Definition responseCache_get (t : Z) (key : string) : M (option string) :=
  λ st, (inr (cache_get t key (responseCache st)), st).

Definition responseCache_set (t : Z) (key v : string) : M unit :=
  act (λ st, set_cache (cache_put t key v (responseCache st)) st).

(** The back-off wait of the retry controller, on the worker state. *)
Definition sleep_state (ms : Z) (st : State) : State :=
  emit [EvSleep ms] (set_world (sleep (inject_Z ms) (world st)) st).

(** [() => apiProviders[activeProvider].fetchResponse(text, config)] *)
Definition call_provider (activeProvider text : string) (config : ProviderConfig) : M string :=
  λ st, match apiProviders activeProvider with
        | Some p =>
            let '(r, w1) := fetchResponse p text config (world st) in
            (r, emit [EvFetch p text config] (set_world w1 st))
        | None =>
            if inherited activeProvider
            then (inl TypeError_not_a_function, st)
            else (inl TypeError_fetchResponse, st)
        end.

Definition retryWithBackoff {A} (fn : M A) (maxRetries initialDelay : Z) : M A :=
  λ st, fst (Retry.retryWithBackoff sleep_state fn maxRetries initialDelay st).

#[local] Instance M_ret : MRet M := @ret.
#[local] Instance M_bind : MBind M := λ A B k m, bind m k.

(** The part of the body after the cache miss (lines 332-348). *)
Definition fetch_and_cache (text : string) (tabId : Z) (activeProvider : string)
    (config : ProviderConfig) (model key : string) : M unit :=
  console console_log
    ("Making API request to " +:+ activeProvider +:+ " using model " +:+ model);;
  responseText ← retryWithBackoff (call_provider activeProvider text config)
                   MAX_RETRIES INITIAL_RETRY_DELAY;
  t ← Date_now;
  responseCache_set t key responseText;;
  act (sendResponseToContent_default responseText tabId).

(** The [try] block of the function passed to [debounce] (lines 304-348). *)
Definition fetchAIResponse_try (text : string) (tabId : Z) : M unit :=
  storage ← chrome_storage_local_get;
  match apiConfig storage, truthy (activeProvider storage) with
  | Some configs, Some provider =>
      match configs !! provider with
      | Some config =>
          match truthy (selectedModel config) with
          | Some model =>
              match truthy (apiKey config) with
              | Some _ =>
                  let key := cacheKey text provider model in
                  t ← Date_now;
                  c ← responseCache_get t key;
                  match c with
                  | Some cached =>
                      console console_log "Cache hit, returning cached response";;
                      act (sendResponseToContent_default cached tabId)
                  | None => fetch_and_cache text tabId provider config model key
                  end
              | None =>
                  throw (Error "API key not found. Please set up your API key in the extension settings.")
              end
          | None =>
              throw (Error "No model selected. Please configure a model in the extension settings.")
          end
      | None =>
          (* [apiConfig[activeProvider]] is an inherited member: truthy,
             and its [selectedModel] is [undefined] *)
          if inherited provider
          then throw (Error "No model selected. Please configure a model in the extension settings.")
          else throw (Error "AI provider not configured. Please set up the extension first.")
      end
  | _, _ => throw (Error "AI provider not configured. Please set up the extension first.")
  end.

(** The [catch] block (lines 350-353). *)
Definition fetchAIResponse_catch (tabId : Z) (e : JsError) (st : State) : State :=
  sendResponseToContent_default ("Error: " +:+ message e) tabId
    (emit [EvConsole console_error "Error fetching from AI provider:"] st).

(** The async function that [fetchAIResponse] debounces: one dispatch. *)
Definition fetchAIResponse_body (text : string) (tabId : Z) : State → State :=
  try_catch (fetchAIResponse_try text tabId) (fetchAIResponse_catch tabId).
End Engine.

(** ** Debouncer *)

Module Debounce.

Section Debounce.
(** [Args] is the argument tuple of the debounced function. *)
Context {Args : Type}.

(** A pending [setTimeout(later, wait)]: its handle, the earliest time
    at which it may fire, and the [args] captured by [later]. *)
Record timer : Type := mkTimer {
  timer_id : nat;
  fire_at : Z;
  timer_args : Args
}.

(** The timer table of the event loop, in creation order, the closure
    variable [timeout], and the calls of [func] made so far. *)
Record loop : Type := mkLoop {
  next_id : nat;
  timers : list timer;
  timeout : option nat;
  executed : list Args
}.

Definition init : loop := mkLoop 0 [] None [].

Definition remove_timer (id : nat) (ts : list timer) : list timer :=
  List.filter (λ tm, negb (Nat.eqb (timer_id tm) id)) ts.

(** [clearTimeout(timeout)]; [clearTimeout(undefined)] does nothing. *)
Definition clearTimeout (id : option nat) (ts : list timer) : list timer :=
  match id with
  | Some i => remove_timer i ts
  | None => ts
  end.

(** [executedFunction(...args)] called at time [t]. *)
Definition executedFunction (wait : Z) (t : Z) (args : Args) (st : loop) : loop :=
  let id := next_id st in
  mkLoop (S id)
         (clearTimeout (timeout st) (timers st) ++ [mkTimer id (t + wait) args])
         (Some id)
         (executed st).

(** [later()]: [clearTimeout(timeout); func(...args)]. *)
Definition later (args : Args) (st : loop) : loop :=
  mkLoop (next_id st)
         (clearTimeout (timeout st) (timers st))
         (timeout st)
         (executed st ++ [args]).

(** The timer the event loop runs next at time [t]: the due timer with
    the earliest deadline, the oldest one among equals. *)
Fixpoint next_due (t : Z) (ts : list timer) : option timer :=
  match ts with
  | [] => None
  | tm :: rest =>
      match next_due t rest with
      | Some tm' =>
          if (fire_at tm <=? t) && (fire_at tm <=? fire_at tm') then Some tm else Some tm'
      | None => if fire_at tm <=? t then Some tm else None
      end
  end.

(** The event loop takes a due timer off the table and runs [later]. *)
Definition fire (tm : timer) (st : loop) : loop :=
  later (timer_args tm)
        (mkLoop (next_id st) (remove_timer (timer_id tm) (timers st))
                (timeout st) (executed st)).

Fixpoint run_timers (fuel : nat) (t : Z) (st : loop) : loop :=
  match fuel with
  | O => st
  | S fuel' =>
      match next_due t (timers st) with
      | Some tm => run_timers fuel' t (fire tm st)
      | None => st
      end
  end.

(** The event loop reaches time [t] and runs every timer that is due.
    Each firing removes a timer, so the table's length is enough fuel. *)
Definition tick (t : Z) (st : loop) : loop :=
  run_timers (length (timers st)) t st.

(** What happens to the debounced function: it is called at a time, or
    the event loop gets to run timers at a time.  A timer never fires
    before its deadline, and may fire late. *)
Inductive input : Type :=
| Call (t : Z) (args : Args)
| Tick (t : Z).

Definition step (wait : Z) (st : loop) (i : input) : loop :=
  match i with
  | Call t args => executedFunction wait t args st
  | Tick t => tick t st
  end.

Definition run (wait : Z) (ins : list input) (st : loop) : loop :=
  fold_left (step wait) ins st.

(** The last call of a schedule, if any. *)
Fixpoint last_call (ins : list input) : option (Z * Args) :=
  match ins with
  | [] => None
  | Call t args :: rest =>
      match last_call rest with
      | Some c => Some c
      | None => Some (t, args)
      end
  | Tick _ :: rest => last_call rest
  end.

(** A schedule that starts no earlier than [prev], in which time never
    runs backwards and every call arrives less than [wait] after the
    call before it ([prev_call] is the time of the latest call so far). *)
Fixpoint rapid (wait : Z) (prev : Z) (prev_call : option Z) (ins : list input) : bool :=
  match ins with
  | [] => true
  | Call t _ :: rest =>
      (prev <=? t)
      && match prev_call with Some tc => t <? tc + wait | None => true end
      && rapid wait t (Some t) rest
  | Tick t :: rest => (prev <=? t) && rapid wait t prev_call rest
  end.

(** States of a burst: nothing scheduled and nothing run yet; exactly
    one timer scheduled, for the call made at [t] with [args], and
    nothing run yet; [func] run once with [args] and nothing scheduled. *)
Definition idle (st : loop) : Prop :=
  executed st = [] ∧ timers st = [].

Definition pending (wait : Z) (st : loop) (t : Z) (args : Args) : Prop :=
  executed st = []
  ∧ ∃ id, timers st = [mkTimer id (t + wait) args] ∧ timeout st = Some id.

Definition fired (st : loop) (args : Args) : Prop :=
  executed st = [args] ∧ timers st = [].
End Debounce.

Arguments timer : clear implicits.
Arguments loop : clear implicits.
Arguments input : clear implicits.

End Debounce.

(** [fetchAIResponse = debounce(async (text, tabId) => ..., DEBOUNCE_DELAY)]:
    a call at time [t], on the worker's single debounce closure. *)
Definition fetchAIResponse (t : Z) (text : string) (tabId : Z)
    (st : Debounce.loop (string * Z)) : Debounce.loop (string * Z) :=
  Debounce.executedFunction DEBOUNCE_DELAY t (text, tabId) st.


(** ** Configuration states *)

Definition stored_config (s : Storage) (p : string) : option ProviderConfig :=
  match apiConfig s with
  | Some configs => configs !! p
  | None => None
  end.

(** The store names provider [p], holds [config] for it, and [config]
    has the non-empty model [model] and a non-empty API key. *)
Definition configured_with (s : Storage) (p : string) (config : ProviderConfig)
    (model : string) : Prop :=
  truthy (activeProvider s) = Some p
  ∧ stored_config s p = Some config
  ∧ truthy (selectedModel config) = Some model
  ∧ is_Some (truthy (apiKey config)).

(** The store holds no active provider, or no entry for the active
    provider, or an entry whose model is empty, or one whose API key is
    empty. *)
Definition config_incomplete (s : Storage) : Prop :=
  truthy (activeProvider s) = None
  ∨ (∃ p, truthy (activeProvider s) = Some p ∧ stored_config s p = None)
  ∨ (∃ p config, truthy (activeProvider s) = Some p ∧ stored_config s p = Some config
       ∧ truthy (selectedModel config) = None)
  ∨ (∃ p config, truthy (activeProvider s) = Some p ∧ stored_config s p = Some config
       ∧ truthy (apiKey config) = None).

(** The three messages of the configuration checks (lines 309, 316, 320). *)
Definition config_messages : list string :=
  [ "AI provider not configured. Please set up the extension first.";
    "No model selected. Please configure a model in the extension settings.";
    "API key not found. Please set up your API key in the extension settings." ].

(** ** Sample browsers

    Small closed environments on which the statements below are
    exercised: the world is the clock, the store is a function of it, every
    adapter call gives the same reply and every tab operation the same
    answer. *)

Module Sample.

Definition browser (storage : Z → Storage) (reply : JsError + string)
    (tab_open send_ok : bool) : Browser :=
  {| World := Z;
     now := λ w, w;
     sleep := λ d w, w + Qceiling d;
     storage_get := storage;
     fetchResponse := λ _ _ _ w, (reply, w + 1);
     tabs_get := λ _ w, (tab_open, w);
     tabs_sendMessage := λ _ _ w, (send_ok, w) |}.

Definition config : ProviderConfig := mkProviderConfig (Some "sk-123") (Some "llama3").

Definition configured : Storage :=
  mkStorage (Some {[ "groq" := config ]}) (Some "groq").

Definition unconfigured : Storage := mkStorage None None.

Definition start (B : Browser) (w : @World B) : @State B := mkState w ∅ [].

(** No configuration at all; the tab is open and listening. *)
Definition fresh_install : Browser := browser (λ _, unconfigured) (inr "unused") true true.

(** The store names the provider ["constructor"] and holds no entry for
    it; the tab is open and listening. *)
Definition misnamed : Browser :=
  browser (λ _, mkStorage (Some ∅) (Some "constructor")) (inr "unused") true true.

(** Configured, and the provider answers every request. *)
Definition answering : Browser := browser (λ _, configured) (inr "Hi there") true true.

(** Configured, and the provider rejects every request. *)
Definition rejecting : Browser :=
  browser (λ _, configured) (inl (Error "Invalid API Key")) true true.

(** The tab is open but no content script takes the message. *)
Definition deaf_tab : Browser := browser (λ _, unconfigured) (inr "unused") true false.

(** The tab has been closed. *)
Definition closed_tab : Browser := browser (λ _, unconfigured) (inr "unused") false true.

(** A store whose selected model changes at time 100. *)
Definition remodelled (w : Z) : Storage :=
  if w <? 100
  then mkStorage (Some {[ "groq" := mkProviderConfig (Some "sk-123") (Some "m") ]})
                 (Some "groq")
  else mkStorage (Some {[ "groq" := mkProviderConfig (Some "sk-123") (Some "groq-m") ]})
                 (Some "groq").

(** The provider answers, and the selected model changes at time 100. *)
Definition remodelling : Browser := browser remodelled (inr "About a-groq") true true.

(** Operations for the retry controller on a call counter: one that
    fails at every call and one that fails at its first [k] calls. *)
Definition no_sleep (ms : Z) (n : nat) : nat := n.

Definition failing (n : nat) : (string + string) * nat := (inl "boom", S n).

Definition flaky (k : nat) (n : nat) : (string + string) * nat :=
  (if (n <? k)%nat then inl "boom" else inr "ok", S n).

End Sample.

(** * Further definitions *)

From Stdlib Require Import Qpower Ascii.
From stdpp Require Import pretty.

Local Open Scope Z_scope.

(** ** Retry controller: the shape of a run *)

Module RetryLog.

(** The log of a run that starts with attempt number [k] and has [n]
    failed attempts before its last one: each failed attempt [i] is
    followed by the wait [initialDelay * 2^i].  The code computes this
    product in double precision; it is the exact integer as long as it
    stays below [2^53]. *)
Definition rounds (initialDelay : Z) (k n : nat) : list Retry.retry_event :=
  flat_map (λ i, [Retry.Attempt; Retry.Sleep (initialDelay * 2 ^ Z.of_nat i)]) (seq k n)
  ++ [Retry.Attempt].

(** The waits [initialDelay * 2^i] for [i = k, ..., k + n - 1]. *)
Definition waits (initialDelay : Z) (k n : nat) : list Z :=
  map (λ i, initialDelay * 2 ^ Z.of_nat i) (seq k n).

Definition total (l : list Z) : Z := foldr Z.add 0 l.

End RetryLog.

(** ** Delivery: the shape of a run *)

Module DeliveryLog.

(** The delay of the timer set after the [k]-th failed send, when the
    first delay is [delay]: line 127 multiplies it by 1.5 each time.
    The code multiplies in double precision; the product is this exact
    value as long as it needs no more than 53 bits, as it does for the
    timers of the default call ([500], [750], [1125]). *)
Fixpoint backoff (delay : Q) (k : nat) : Q :=
  match k with
  | O => delay
  | S k' => backoff (delay * (3 # 2)) k'
  end.

(** What one failed send that is retried adds to the trace. *)
Definition failed_attempt (responseText : string) (tabId : Z) (delay : Q) : list event :=
  [EvTabsGet tabId; EvSendMessage tabId responseText;
   EvConsole console_warn "Error sending response to content script:";
   EvConsole console_log "Retrying message sending";
   EvSetTimeout delay].

Fixpoint failed_attempts (responseText : string) (tabId : Z) (delay : Q) (k : nat)
    : list event :=
  match k with
  | O => []
  | S k' =>
      failed_attempt responseText tabId delay
      ++ failed_attempts responseText tabId (delay * (3 # 2)) k'
  end.

(** The three ways in which a delivery ends. *)
Inductive ending : Type :=
| TabGone
| Sent
| GaveUp.

Definition end_events (responseText : string) (tabId : Z) (e : ending) : list event :=
  match e with
  | TabGone => [EvTabsGet tabId; EvConsole console_error "Tab no longer exists:"]
  | Sent => [EvTabsGet tabId; EvSendMessage tabId responseText]
  | GaveUp =>
      [EvTabsGet tabId; EvSendMessage tabId responseText;
       EvConsole console_warn "Error sending response to content script:";
       EvConsole console_error "Failed to send message after multiple attempts"]
  end.

Definition Qtotal (l : list Q) : Q := foldr Qplus 0%Q l.

Section DeliveryStates.
Context `{Browser}.

(** The tab exists and the send to it fails. *)
Definition send_fails (responseText : string) (tabId : Z) (st : State) : Prop :=
  fst (tabs_get tabId (world st)) = true
  ∧ fst (tabs_sendMessage tabId responseText (snd (tabs_get tabId (world st)))) = false.

(** The tab exists and the send to it succeeds. *)
Definition send_succeeds (responseText : string) (tabId : Z) (st : State) : Prop :=
  fst (tabs_get tabId (world st)) = true
  ∧ fst (tabs_sendMessage tabId responseText (snd (tabs_get tabId (world st)))) = true.

(** The state in which the [k]-th attempt (counted from 0) starts, when
    every earlier attempt was a failed send followed by its wait. *)
Fixpoint state_before (responseText : string) (tabId : Z) (delay : Q) (k : nat)
    (st : State) : State :=
  match k with
  | O => st
  | S k' =>
      state_before responseText tabId (delay * (3 # 2)) k'
        (set_world
           (sleep delay
              (snd (tabs_sendMessage tabId responseText (snd (tabs_get tabId (world st))))))
           (emit (failed_attempt responseText tabId delay) st))
  end.
End DeliveryStates.

End DeliveryLog.

(** ** Dispatch: the shape of a run *)

Module DispatchLog.

(** What one invocation of
    [() => apiProviders[activeProvider].fetchResponse(text, config)] adds
    to the trace: the adapter call, or nothing when [apiProviders] holds
    no adapter under the name and the invocation throws. *)
Definition attempt_events (activeProvider text : string) (config : ProviderConfig)
    : list event :=
  match apiProviders activeProvider with
  | Some a => [EvFetch a text config]
  | None => []
  end.

(** The error that the invocation throws when [apiProviders] holds no
    adapter under the name: the call of the [fetchResponse] that an
    inherited member does not have, or the property access on
    [undefined]. *)
Definition missing_adapter (activeProvider : string) : JsError :=
  if inherited activeProvider then TypeError_not_a_function else TypeError_fetchResponse.

(** The first [n] invocations, each followed by its back-off wait. *)
Definition rounds (activeProvider text : string) (config : ProviderConfig) (n : nat)
    : list event :=
  flat_map (λ i, attempt_events activeProvider text config
                 ++ [EvSleep (INITIAL_RETRY_DELAY * 2 ^ Z.of_nat i)]) (seq 0 n).

(** The back-off waits of the retry controller in a trace. *)
Definition slept (tr : list event) : list Z :=
  omap (λ ev, match ev with EvSleep ms => Some ms | _ => None end) tr.

(** The four ways in which a dispatch reaches its delivery. *)
Inductive path : Type :=
| ConfigError
| CacheHit
| Fetched
| FetchFailed.

End DispatchLog.

(** ** More sample browsers *)

Module Sample2.

(** The store names a provider for which [apiProviders] has no adapter. *)
Definition foreign_config : ProviderConfig := mkProviderConfig (Some "sk-999") (Some "gpt").

Definition foreign_store : Storage :=
  mkStorage (Some {[ "openai" := foreign_config ]}) (Some "openai").

Definition foreign : Browser :=
  Sample.browser (λ _, foreign_store) (inr "never asked") true true.

(** The store names, and holds an entry for, a provider whose name is
    that of a member every object inherits. *)
Definition inherited_store : Storage :=
  mkStorage (Some {[ "toString" := foreign_config ]}) (Some "toString").

Definition inheriting : Browser :=
  Sample.browser (λ _, inherited_store) (inr "never asked") true true.

End Sample2.

(** ** Cache keys without ambiguity *)

(** The string contains no ["-"], the separator of [cacheKey]. *)
Fixpoint dash_free (s : string) : bool :=
  match s with
  | EmptyString => true
  | String c s' => negb (Ascii.eqb c "-"%char) && dash_free s'
  end.

(** ** Debouncer: any schedule *)

Module DebounceLog.

Section DebounceLog.
Context {Args : Type}.

(** The argument tuples of the calls of a schedule, in order. *)
Definition call_args (ins : list (Debounce.input Args)) : list Args :=
  omap (λ i, match i with Debounce.Call _ a => Some a | Debounce.Tick _ => None end) ins.

(** At most one timer is in the table; when there is one, [timeout]
    holds its handle and it carries the arguments of the latest call,
    which has not run yet: the runs so far are a subsequence of the
    calls before it. *)
Definition single_timer (st : Debounce.loop Args) (cs : list Args) : Prop :=
  (Debounce.timers st = [] ∧ Debounce.executed st `sublist_of` cs)
  ∨ (∃ tm cs',
       Debounce.timers st = [tm]
       ∧ Debounce.timeout st = Some (Debounce.timer_id tm)
       ∧ cs = cs' ++ [Debounce.timer_args tm]
       ∧ Debounce.executed st `sublist_of` cs').

(** The same event loop with earlier runs [xs] on record. *)
Definition prepend (xs : list Args) (st : Debounce.loop Args) : Debounce.loop Args :=
  Debounce.mkLoop (Debounce.next_id st) (Debounce.timers st) (Debounce.timeout st)
                  (xs ++ Debounce.executed st).

(** A burst [ins] that is over at time [T]: time never goes back, every
    call after the first comes less than [wait] after the one before,
    there is a call, and the event loop runs at [T], at least [wait] after
    the last call. *)
Definition settled (wait : Z) (b : list (Debounce.input Args) * Z) : Prop :=
  ∃ t0 tN aN,
    Debounce.rapid wait t0 None (fst b ++ [Debounce.Tick (snd b)]) = true
    ∧ Debounce.last_call (fst b) = Some (tN, aN)
    ∧ tN + wait ≤ snd b.

Definition schedule (bs : list (list (Debounce.input Args) * Z))
    : list (Debounce.input Args) :=
  flat_map (λ b, fst b ++ [Debounce.Tick (snd b)]) bs.

(** The arguments of the last call of each burst. *)
Definition results (bs : list (list (Debounce.input Args) * Z)) : list Args :=
  omap (λ b, snd <$> Debounce.last_call (fst b)) bs.
End DebounceLog.

End DebounceLog.

(** ** The context-menu listener (background.js, lines 361-375) *)

Module ContextMenu.

(** The fields of [info] that the listener reads. *)
Record OnClickData : Type := mkOnClickData {
  menuItemId : string;
  selectionText : option string
}.

(** The messages [{ action: "processSelection", text }] sent so far, each
    with the tab it was sent to, and the debounce closure of
    [fetchAIResponse]. *)
Record worker : Type := mkWorker {
  posted : list (Z * string);
  debouncer : Debounce.loop (string * Z)
}.

Definition init_worker : worker := mkWorker [] Debounce.init.

(** The listener, run at time [t] for a click in tab [tabId]. *)
Definition onClicked (t : Z) (info : OnClickData) (tabId : Z) (wk : worker) : worker :=
  if decide (menuItemId info = "askAI") then
    match truthy (selectionText info) with
    | Some text =>
        mkWorker (posted wk ++ [(tabId, text)])
                 (fetchAIResponse t text tabId (debouncer wk))
    | None => wk
    end
  else wk.

(** What happens to the worker: a click, or the event loop running the
    timers that are due. *)
Inductive happening : Type :=
| Click (t : Z) (info : OnClickData) (tabId : Z)
| Elapse (t : Z).

Definition handle (wk : worker) (h : happening) : worker :=
  match h with
  | Click t info tabId => onClicked t info tabId wk
  | Elapse t => mkWorker (posted wk) (Debounce.tick t (debouncer wk))
  end.

Definition run (hs : list happening) : worker := fold_left handle hs init_worker.

(** The selection of a click on the extension's own menu item, when it
    is not empty. *)
Definition accepted (info : OnClickData) : option string :=
  if decide (menuItemId info = "askAI") then truthy (selectionText info) else None.

(** The calls of the debounced function that a history makes. *)
Definition to_inputs (hs : list happening) : list (Debounce.input (string * Z)) :=
  omap (λ h, match h with
             | Click t info tabId =>
                 match accepted info with
                 | Some text => Some (Debounce.Call t (text, tabId))
                 | None => None
                 end
             | Elapse t => Some (Debounce.Tick t)
             end) hs.

(** The tabs that were told to show the loading state, with the text. *)
Definition loading (hs : list happening) : list (Z * string) :=
  omap (λ h, match h with
             | Click t info tabId =>
                 match accepted info with
                 | Some text => Some (tabId, text)
                 | None => None
                 end
             | Elapse t => None
             end) hs.

End ContextMenu.

(** ** The settings page (setup.js) *)

Module Setup.

(** The three inputs of the page: the provider [<select>], the API key
    and the model name. *)
Record form : Type := mkForm {
  provider_select : string;
  api_key_input : string;
  model_input : string
}.

(** [showStatus(message, type)] *)
Record status : Type := mkStatus {
  status_message : string;
  status_type : string
}.

(** What assigning [v] to the [value] of an [<input>] leaves in it. *)
Definition input_value (v : option string) : string :=
  match v with
  | Some s => s
  | None => "undefined"
  end.

Section Setup.
(** [String.prototype.trim] *)
Variable trim : string → string.

(** The click handler of the save button (lines 86-122), on the stored
    data: the status it shows and what the store holds afterwards. *)
Definition save (f : form) (data : Storage) : status * Storage :=
  let provider := provider_select f in
  let apiKey := trim (api_key_input f) in
  let selectedModel := trim (model_input f) in
  if decide (provider = "") then (mkStatus "Please select a provider" "error", data)
  else if decide (apiKey = "") then (mkStatus "Please enter an API key" "error", data)
  else if decide (selectedModel = "") then
    (mkStatus "Please enter a model name" "error", data)
  else
    let apiConfig := default ∅ (apiConfig data) in
    (mkStatus "Configuration saved successfully!" "success",
     mkStorage
       (Some (<[provider := mkProviderConfig (Some apiKey) (Some selectedModel)]> apiConfig))
       (Some provider)).
End Setup.

(** [loadProviderConfig(provider)] (lines 69-80): the values it puts in
    the API key and model inputs. *)
Definition loadProviderConfig (provider : string) (data : Storage) : string * string :=
  match stored_config data provider with
  | Some c => (input_value (apiKey c), input_value (selectedModel c))
  | None => ("", "")
  end.

(** A [trim] for sample runs: it removes spaces at the front. *)
Fixpoint trim_front (s : string) : string :=
  match s with
  | String c s' => if Ascii.eqb c " "%char then trim_front s' else s
  | EmptyString => EmptyString
  end.

End Setup.

(** ** Provider adapters (background.js, lines 145-293) *)

Module Adapter.

(** *** JavaScript values read from a response *)

(** A number as [JSON.parse] yields it. *)
Inductive number : Type :=
| Finite (q : Q)
| Infinite (negative : bool).

(** A value as [JSON.parse] yields it.  The members of an object are
    listed in the order of the document; of two members with one name the
    later one counts. *)
#[warnings="-register-all"]
Inductive json : Type :=
| JNull
| JBool (b : bool)
| JNum (n : number)
| JStr (s : string)
| JArr (items : list json)
| JObj (members : list (string * json)).

(** A JavaScript value that may be [undefined]. *)
Abbreviation value := (option json).

Definition member (k : string) (ms : list (string * json)) : value :=
  fold_left (λ found kv, if decide (fst kv = k) then Some (snd kv) else found) ms None.

(** [v.k] for a value [v] that is neither [null] nor [undefined], and a
    name [k] that no prototype defines (the names read below are
    [error], [message], [type], [candidates], [content], [parts], [text]
    and [choices]). *)
Definition get (k : string) (v : json) : value :=
  match v with
  | JObj ms => member k ms
  | _ => None
  end.

(** [v[0]] for a value [v] that is neither [null] nor [undefined]. *)
Definition at0 (v : json) : value :=
  match v with
  | JArr (x :: _) => Some x
  | JObj ms => member "0" ms
  | JStr (String c _) => Some (JStr (String c EmptyString))
  | _ => None
  end.

(** Optional chaining: [o?.k] is [opt (get k) o], [o?.[0]] is [opt at0 o]. *)
Definition opt (f : json → value) (o : value) : value :=
  match o with
  | None | Some JNull => None
  | Some v => f v
  end.

Definition truthy (o : value) : bool :=
  match o with
  | None | Some JNull => false
  | Some (JBool b) => b
  | Some (JNum (Finite q)) => negb (Qeq_bool q 0)
  | Some (JNum (Infinite _)) => true
  | Some (JStr s) => if decide (s = "") then false else true
  | Some (JArr _) | Some (JObj _) => true
  end.

(** *** Strings *)

(** [hay.includes(needle)] *)
Fixpoint includes (needle hay : string) : bool :=
  String.prefix needle hay
  || match hay with
     | String _ hay' => includes needle hay'
     | EmptyString => false
     end.

(** [s.split(sep)] for a separator that is not empty: [cur] is the piece
    being read and [skip] the number of characters of a separator still
    to pass over. *)
Fixpoint split_go (sep : string) (skip : nat) (cur : string) (s : string) : list string :=
  match s with
  | EmptyString => [cur]
  | String c s' =>
      match skip with
      | S k => split_go sep k cur s'
      | O =>
          if String.prefix sep s
          then cur :: split_go sep (String.length sep - 1) "" s'
          else split_go sep 0 (cur +:+ String c "") s'
      end
  end.

Definition split (sep s : string) : list string := split_go sep 0 "" s.

(** A string or [undefined] inside a template literal. *)
Definition interpolate (o : option string) : string :=
  match o with
  | Some s => s
  | None => "undefined"
  end.

(** *** Errors raised by the engine (V8 wording) *)

Definition TypeError (msg : string) : JsError := mkJsError "TypeError" msg.

Definition not_a_function (expr : string) : JsError :=
  TypeError (expr +:+ " is not a function").

Definition cannot_read (base name : string) : JsError :=
  TypeError ("Cannot read properties of " +:+ base +:+ " (reading '" +:+ name +:+ "')").

(** *** The network *)

Record request : Type := mkRequest {
  url : string;
  method : string;
  headers : list (string * string);
  body : json
}.

(** A response: its status, and what [response.json()] settles to. *)
Record response : Type := mkResponse {
  status : N;
  parsed : JsError + json
}.

(** [response.ok] *)
Definition ok (r : response) : bool := (200 <=? status r)%N && (status r <=? 299)%N.

Definition user_message (text : string) : json :=
  JObj [("role", JStr "user"); ("content", JStr text)].

(** A member whose value is a string or [undefined]; [JSON.stringify]
    leaves out a member that is [undefined]. *)
Definition string_member (k : string) (o : option string) : list (string * json) :=
  match o with
  | Some s => [(k, JStr s)]
  | None => []
  end.

(** The string has no character [c]. *)
Fixpoint free_of (c : ascii) (s : string) : bool :=
  match s with
  | EmptyString => true
  | String c' s' => negb (Ascii.eqb c' c) && free_of c s'
  end.

Definition key_hint : string := ". Please check your API key in the extension settings.".
Definition model_hint : string := ". Please verify the model name in the extension settings.".
Definition format_error : JsError := Error "Unexpected API response format".

Section Adapters.
(** The state of the network, [fetch], and [String(v)] for a value that
    is not a string. *)
Context {World : Type}.
Variable fetch : request → World → (JsError + response) * World.
Variable to_String : json → string.

(** [String(v)], also the string that [v + s] starts with and the
    message of [new Error(v)]. *)
Definition String_ (v : json) : string :=
  match v with
  | JStr s => s
  | _ => to_String v
  end.

(** [v.includes(needle)] for a truthy value [v] held by the variable
    [errorMessage]. *)
Definition call_includes (v : json) (needle : string) : JsError + bool :=
  match v with
  | JStr s => inr (includes needle s)
  | JArr items =>
      inr (existsb (λ x, match x with
                         | JStr s => if decide (s = needle) then true else false
                         | _ => false
                         end) items)
  | _ => inl (not_a_function "errorMessage.includes")
  end.

(** [errorData.error.message.split('refer to ')[1]] *)
Definition call_split (o : value) : JsError + option string :=
  match o with
  | None => inl (cannot_read "undefined" "split")
  | Some JNull => inl (cannot_read "null" "split")
  | Some (JStr s) => inr (split "refer to " s !! 1%nat)
  | Some _ => inl (not_a_function "errorData.error.message.split")
  end.

(** [await response.json().catch(() => null)] *)
Definition json_or_null (r : response) : json :=
  match parsed r with
  | inr v => v
  | inl _ => JNull
  end.

(** [errorData?.error] and [errorData?.error?.message] *)
Definition error_of (r : response) : value := opt (get "error") (Some (json_or_null r)).
Definition error_message_of (r : response) : value := opt (get "message") (error_of r).

(** [errorData && errorData.error] *)
Definition and_error (errorData : json) : value :=
  if truthy (Some errorData) then get "error" errorData else Some errorData.

Definition http_error (r : response) : string := "HTTP error! status: " +:+ pretty (status r).

(** **** Google Gemini (lines 147-186) *)

Definition gemini_request (text : string) (config : ProviderConfig) : request :=
  mkRequest
    ("https://generativelanguage.googleapis.com/v1beta/models/"
     +:+ interpolate (selectedModel config) +:+ ":generateContent"
     +:+ "?key=" +:+ interpolate (apiKey config))
    "POST"
    [("Content-Type", "application/json")]
    (JObj [("contents", JArr [JObj [("parts", JArr [JObj [("text", JStr text)]])]]);
           ("generationConfig",
            JObj [("temperature", JNum (Finite (7 # 10)));
                  ("maxOutputTokens", JNum (Finite 2048));
                  ("topP", JNum (Finite 1));
                  ("topK", JNum (Finite 32))])]).

(** The [if (!response.ok)] block. *)
Definition gemini_failure (r : response) : JsError :=
  match error_message_of r with
  | Some v =>
      if truthy (Some v) then
        match call_includes v "API key not valid" with
        | inl e => e
        | inr true => Error (String_ v +:+ key_hint)
        | inr false =>
            match call_includes v "Model not found" with
            | inl e => e
            | inr true => Error (String_ v +:+ model_hint)
            | inr false => Error (String_ v)
            end
        end
      else Error (http_error r)
  | None => Error (http_error r)
  end.

(** What follows [const data = await response.json()]. *)
Definition gemini_answer (data : json) : JsError + json :=
  match data with
  | JNull => inl (cannot_read "null" "candidates")
  | _ =>
      let text :=
        opt (get "text") (opt at0 (opt (get "parts") (opt (get "content")
          (opt at0 (get "candidates" data))))) in
      match text with
      | Some v => if truthy text then inr v else inl format_error
      | None => inl format_error
      end
  end.

Definition gemini_fetchResponse (text : string) (config : ProviderConfig) (w : World)
    : (JsError + json) * World :=
  match fetch (gemini_request text config) w with
  | (inl e, w1) => (inl e, w1)
  | (inr r, w1) =>
      if ok r then
        match parsed r with
        | inl e => (inl e, w1)
        | inr data => (gemini_answer data, w1)
        end
      else (inl (gemini_failure r), w1)
  end.

(** **** OpenRouter (lines 189-230) *)

Definition chat_request (endpoint : string) (extra_headers : list (string * string))
    (extra_members : list (string * json)) (text : string) (config : ProviderConfig)
    : request :=
  mkRequest endpoint "POST"
    ([("Authorization", "Bearer " +:+ interpolate (apiKey config));
      ("Content-Type", "application/json")] ++ extra_headers)
    (JObj (string_member "model" (selectedModel config)
           ++ [("messages", JArr [user_message text]);
            ("temperature", JNum (Finite (7 # 10)));
            ("max_tokens", JNum (Finite 2048))] ++ extra_members)).

Definition openrouter_request (text : string) (config : ProviderConfig) : request :=
  chat_request "https://openrouter.ai/api/v1/chat/completions"
    [("HTTP-Referer", "https://github.com/extension")]
    [("stream", JBool false)] text config.

Definition openrouter_failure (r : response) : JsError :=
  match error_message_of r with
  | Some v =>
      if truthy (Some v) then
        if decide (status r = 401%N) then Error (String_ v +:+ key_hint)
        else if decide (status r = 404%N) then Error (String_ v +:+ model_hint)
        else Error (String_ v)
      else Error (http_error r)
  | None => Error (http_error r)
  end.

(** [data.choices?.[0]?.message?.content], checked and returned. *)
Definition chat_answer (data : json) : JsError + json :=
  match data with
  | JNull => inl (cannot_read "null" "choices")
  | _ =>
      let content :=
        opt (get "content") (opt (get "message") (opt at0 (get "choices" data))) in
      match content with
      | Some v => if truthy content then inr v else inl format_error
      | None => inl format_error
      end
  end.

Definition openrouter_fetchResponse (text : string) (config : ProviderConfig) (w : World)
    : (JsError + json) * World :=
  match fetch (openrouter_request text config) w with
  | (inl e, w1) => (inl e, w1)
  | (inr r, w1) =>
      if ok r then
        match parsed r with
        | inl e => (inl e, w1)
        | inr data => (chat_answer data, w1)
        end
      else (inl (openrouter_failure r), w1)
  end.

(** **** GROQ (lines 233-292) *)

Definition groq_request (text : string) (config : ProviderConfig) : request :=
  chat_request "https://api.groq.com/openai/v1/chat/completions"
    [("Accept", "application/json")] [] text config.

(** The value of [errorMessage] before the status is looked at, or the
    error that its computation raises. *)
Definition groq_error_message (config : ProviderConfig) (r : response) : JsError + json :=
  let error := error_of r in
  match error with
  | Some err =>
      if truthy error then
        let message := get "message" err in
        let errorMessage := if truthy message then default err message else err in
        match call_includes errorMessage "has been decommissioned" with
        | inl e => inl e
        | inr true =>
            match call_split message with
            | inl e => inl e
            | inr recommendation =>
                inr (JStr ("Model " +:+ interpolate (selectedModel config)
                           +:+ " is no longer available. Please check "
                           +:+ interpolate recommendation))
            end
        | inr false =>
            match get "type" err with
            | Some (JStr "invalid_request_error") =>
                inr (JStr "Invalid model name. Please check available models at console.groq.com/docs")
            | _ => inr errorMessage
            end
        end
      else inr (JStr (http_error r))
  | None => inr (JStr (http_error r))
  end.

(** The block of lines 256-279: the error it throws. *)
Definition groq_failure (config : ProviderConfig) (r : response) : JsError :=
  match groq_error_message config r with
  | inl e => e
  | inr errorMessage =>
      if decide (status r = 401%N) then Error (String_ errorMessage +:+ key_hint)
      else Error (String_ errorMessage)
  end.

(** The body of the [try] block once the response is there. *)
Definition groq_try (config : ProviderConfig) (r : response) : JsError + json :=
  let errorData := json_or_null r in
  if negb (ok r) || truthy (and_error errorData)
  then inl (groq_failure config r)
  else chat_answer errorData.

(** The [catch] block. *)
Definition groq_catch (error : JsError) : JsError :=
  if includes "Failed to fetch" (message error)
  then Error "Network error. Please check your internet connection."
  else error.

Definition groq_fetchResponse (text : string) (config : ProviderConfig) (w : World)
    : (JsError + json) * World :=
  match fetch (groq_request text config) w with
  | (inl e, w1) => (inl (groq_catch e), w1)
  | (inr r, w1) =>
      match groq_try config r with
      | inl e => (inl (groq_catch e), w1)
      | inr v => (inr v, w1)
      end
  end.

(** **** The [apiProviders] table (lines 145-293) *)

Definition request_for (p : Provider) : string → ProviderConfig → request :=
  match p with
  | gemini => gemini_request
  | openrouter => openrouter_request
  | groq => groq_request
  end.

(** [apiProviders[p].fetchResponse] *)
Definition provider_fetchResponse (p : Provider)
    : string → ProviderConfig → World → (JsError + json) * World :=
  match p with
  | gemini => gemini_fetchResponse
  | openrouter => openrouter_fetchResponse
  | groq => groq_fetchResponse
  end.
End Adapters.

End Adapter.

(** ** Sample servers *)

Module SampleNet.
Import Adapter.

(** [String(v)] of an object [v]; the sample responses hold no other
    value that is turned into a string. *)
Definition to_String (v : json) : string := "[object Object]".

(** A network, counting the requests, whose server answers every request
    with [r]. *)
Definition server (r : response) (q : request) (w : nat) : (JsError + response) * nat :=
  (inr r, S w).

Definition gemini_reply : response :=
  mkResponse 200
    (inr (JObj [("candidates",
                 JArr [JObj [("content",
                              JObj [("parts", JArr [JObj [("text", JStr "Meow")]])])]])])).

Definition bad_gateway : response :=
  mkResponse 502 (inl (mkJsError "SyntaxError" "Unexpected token < in JSON at position 0")).

Definition invalid_key : response :=
  mkResponse 400
    (inr (JObj [("error",
                 JObj [("code", JNum (Finite 400));
                       ("message", JStr "API key not valid. Please pass a valid API key.");
                       ("status", JStr "INVALID_ARGUMENT")])])).

Definition retired_model : response :=
  mkResponse 400
    (inr (JObj [("error",
                 JObj [("message", JStr "The model `llama2-70b-4096` has been decommissioned and is no longer supported.");
                       ("type", JStr "invalid_request_error");
                       ("code", JStr "model_decommissioned")])])).

Definition config : ProviderConfig := mkProviderConfig (Some "sk-123") (Some "llama2-70b-4096").

End SampleNet.

(** * Properties *)

(** ** Retry controller *)

Section RetryFacts.
Context {W E A : Type}.
Variable sleep : Z → W → W.
Implicit Types (fn : W → (E + A) * W) (w : W).

(** One iteration of the loop. *)
Lemma retry_loop_step fn maxRetries initialDelay retries w :
  Retry.retry_loop sleep fn maxRetries initialDelay retries w =
  match fn w with
  | (inr v, w1) => (inr v, w1, [Retry.Attempt])
  | (inl e, w1) =>
      if Z_ge_dec retries maxRetries then (inl e, w1, [Retry.Attempt])
      else Retry.log_events [Retry.Attempt; Retry.Sleep (initialDelay * 2 ^ retries)]
             (Retry.retry_loop sleep fn maxRetries initialDelay (retries + 1)
                (sleep (initialDelay * 2 ^ retries) w1))
  end.
Proof.
  simp retry_loop.
  destruct (fn w) as [[e | v] w1]; simpl; [| reflexivity].
  destruct (Z_ge_dec retries maxRetries); reflexivity.
Qed.

Lemma retry_loop_success fn maxRetries initialDelay retries w :
  Retry.succeeds_at fn w →
  Retry.retry_loop sleep fn maxRetries initialDelay retries w = (fn w, [Retry.Attempt]).
Proof.
  intros [v Hv]. rewrite retry_loop_step.
  destruct (fn w) as [[e | v'] w1]; simpl in *; congruence.
Qed.

Lemma retry_loop_exhausted fn maxRetries initialDelay retries w :
  Retry.fails_at fn w → maxRetries ≤ retries →
  Retry.retry_loop sleep fn maxRetries initialDelay retries w = (fn w, [Retry.Attempt]).
Proof.
  intros [e He] Hle. rewrite retry_loop_step.
  destruct (fn w) as [[e' | v] w1]; simpl in *; [| congruence].
  destruct (Z_ge_dec retries maxRetries); [reflexivity | lia].
Qed.

Lemma retry_loop_retry fn maxRetries initialDelay retries w :
  Retry.fails_at fn w → retries < maxRetries →
  Retry.retry_loop sleep fn maxRetries initialDelay retries w =
  Retry.log_events [Retry.Attempt; Retry.Sleep (initialDelay * 2 ^ retries)]
    (Retry.retry_loop sleep fn maxRetries initialDelay (retries + 1)
       (sleep (initialDelay * 2 ^ retries) (snd (fn w)))).
Proof.
  intros [e He] Hlt. rewrite retry_loop_step.
  destruct (fn w) as [[e' | v] w1]; simpl in *; [| congruence].
  destruct (Z_ge_dec retries maxRetries); [lia | reflexivity].
Qed.

(** Whatever the operation does, the loop invokes it at most
    [maxRetries - retries + 1] times. *)
Lemma retry_loop_attempts_le fn maxRetries initialDelay retries w :
  Z.of_nat (Retry.attempts (snd (Retry.retry_loop sleep fn maxRetries initialDelay retries w)))
  ≤ Z.max (maxRetries - retries) 0 + 1.
Proof.
  remember (Z.to_nat (maxRetries - retries)) as n eqn:Hn.
  revert retries w Hn.
  induction n as [| n IH]; intros retries w Hn; rewrite retry_loop_step;
    destruct (fn w) as [[e | v] w1];
    try (unfold Retry.attempts; simpl; lia);
    destruct (Z_ge_dec retries maxRetries);
    try (unfold Retry.attempts; simpl; lia); try lia.
  specialize (IH (retries + 1) (sleep (initialDelay * 2 ^ retries) w1) ltac:(lia)).
  destruct (Retry.retry_loop sleep fn maxRetries initialDelay (retries + 1)
              (sleep (initialDelay * 2 ^ retries) w1)) as [[r w2] log].
  unfold Retry.attempts in *. simpl in *. lia.
Qed.
End RetryFacts.

(** C1. With [MAX_RETRIES = 3] and [INITIAL_RETRY_DELAY = 1000]: an
    operation that fails at every call is invoked exactly four times, with
    waits of 1000, 2000 and 4000 ms in between, and the outcome of the run
    is the outcome of the fourth invocation itself (the thrown value is
    passed on as it is); an operation that fails twice and then succeeds is
    invoked three times (two retries, waits 1000 and 2000) and the run
    returns its value; an operation that succeeds at once is invoked once
    and no wait happens. *)
Theorem retry_controller {W E A : Type} (sleep : Z → W → W)
    (fn : W → (E + A) * W) (w0 : W) :
  let run := Retry.retryWithBackoff sleep fn MAX_RETRIES INITIAL_RETRY_DELAY w0 in
  let before k := Retry.attempt_state sleep fn INITIAL_RETRY_DELAY k w0 in
  ((∀ w, Retry.fails_at fn w) →
     run = (fn (before 3%nat),
            [Retry.Attempt; Retry.Sleep 1000; Retry.Attempt; Retry.Sleep 2000;
             Retry.Attempt; Retry.Sleep 4000; Retry.Attempt])
     ∧ Retry.attempts (snd run) = Z.to_nat (MAX_RETRIES + 1)
     ∧ Retry.sleeps (snd run) = [1000; 2000; 4000]
     ∧ ∃ e, fst (fst run) = inl e ∧ fst (fn (before 3%nat)) = inl e)
  ∧ (Retry.fails_at fn (before 0%nat) → Retry.fails_at fn (before 1%nat) →
     Retry.succeeds_at fn (before 2%nat) →
     run = (fn (before 2%nat),
            [Retry.Attempt; Retry.Sleep 1000; Retry.Attempt; Retry.Sleep 2000; Retry.Attempt])
     ∧ Retry.sleeps (snd run) = [1000; 2000]
     ∧ ∃ v, fst (fst run) = inr v ∧ fst (fn (before 2%nat)) = inr v)
  ∧ (Retry.succeeds_at fn w0 →
     run = (fn w0, [Retry.Attempt]) ∧ Retry.sleeps (snd run) = []).
Proof.
  intros run before. subst run. unfold Retry.retryWithBackoff, MAX_RETRIES, INITIAL_RETRY_DELAY.
  split; [| split].
  - intros Hfail.
    assert (Heq : Retry.retry_loop sleep fn 3 1000 0 w0 =
                  (fn (before 3%nat),
                   [Retry.Attempt; Retry.Sleep 1000; Retry.Attempt; Retry.Sleep 2000;
                    Retry.Attempt; Retry.Sleep 4000; Retry.Attempt])).
    { rewrite retry_loop_retry by (auto; lia).
      rewrite retry_loop_retry by (auto; lia).
      rewrite retry_loop_retry by (auto; lia).
      rewrite retry_loop_exhausted by (auto; lia).
      subst before. simpl. destruct (fn _) as [r w]. reflexivity. }
    rewrite Heq. simpl. repeat split; try reflexivity.
    destruct (Hfail (before 3%nat)) as [e He]. exists e. split; exact He.
  - intros H0 H1 [v Hv].
    assert (Heq : Retry.retry_loop sleep fn 3 1000 0 w0 =
                  (fn (before 2%nat),
                   [Retry.Attempt; Retry.Sleep 1000; Retry.Attempt; Retry.Sleep 2000;
                    Retry.Attempt])).
    { rewrite retry_loop_retry by (auto; lia).
      rewrite retry_loop_retry by (auto; lia).
      rewrite retry_loop_success by (exists v; exact Hv).
      subst before. simpl. destruct (fn _) as [r w]. reflexivity. }
    rewrite Heq. simpl. repeat split; try reflexivity.
    exists v. split; exact Hv.
  - intros Hs. rewrite retry_loop_success by exact Hs. split; reflexivity.
Qed.

(** ** Response cache *)

Lemma cache_get_put_same (t t' : Z) (k v : string) (cache : gmap string CacheEntry) :
  cache_get t' k (cache_put t k v cache) =
  if t' - t <? CACHE_EXPIRY then Some v else None.
Proof. unfold cache_get, cache_put. rewrite lookup_insert_eq. reflexivity. Qed.

Lemma cache_get_put_other (t t' : Z) (k k' v : string) (cache : gmap string CacheEntry) :
  k ≠ k' → cache_get t' k' (cache_put t k v cache) = cache_get t' k' cache.
Proof. intros Hne. unfold cache_get, cache_put. rewrite lookup_insert_ne by exact Hne. reflexivity. Qed.

(** C2. A read made less than [CACHE_EXPIRY] (30 minutes) after
    [put(k, v)] returns [v]; a read made once the age of the entry has
    reached [CACHE_EXPIRY] returns nothing, whether the entry was just put
    or is any entry still held in the map; [put] replaces whatever entry
    the key had, and the new entry carries the time of the [put]. *)
Theorem cache_ttl (k v : string) (cache : gmap string CacheEntry) (t t' : Z) :
  CACHE_EXPIRY = 1800000
  ∧ (t' - t < CACHE_EXPIRY → cache_get t' k (cache_put t k v cache) = Some v)
  ∧ (CACHE_EXPIRY ≤ t' - t → cache_get t' k (cache_put t k v cache) = None)
  ∧ (∀ entry, cache !! k = Some entry → CACHE_EXPIRY ≤ t' - timestamp entry →
       cache_get t' k cache = None)
  ∧ cache_put t k v cache !! k = Some (mkCacheEntry v t)
  ∧ (∀ v0 t0, cache_put t k v (cache_put t0 k v0 cache) = cache_put t k v cache).
Proof.
  split; [reflexivity |].
  split; [| split; [| split; [| split]]].
  - intros Hlt. rewrite cache_get_put_same.
    destruct (Z.ltb_spec (t' - t) CACHE_EXPIRY); [reflexivity | lia].
  - intros Hge. rewrite cache_get_put_same.
    destruct (Z.ltb_spec (t' - t) CACHE_EXPIRY); [lia | reflexivity].
  - intros entry Hk Hge. unfold cache_get. rewrite Hk.
    destruct (Z.ltb_spec (t' - timestamp entry) CACHE_EXPIRY); [lia | reflexivity].
  - unfold cache_put. apply lookup_insert_eq.
  - intros v0 t0. unfold cache_put. apply insert_insert_eq.
Qed.

(** *** Cache keys *)

Lemma append_cons (ch : Ascii.ascii) (a b : string) :
  String ch a +:+ b = String ch (a +:+ b).
Proof. reflexivity. Qed.

Lemma append_nil (b : string) : "" +:+ b = b.
Proof. reflexivity. Qed.

Lemma append_assoc (a b c : string) : (a +:+ b) +:+ c = a +:+ (b +:+ c).
Proof.
  induction a as [| ch a IH]; [reflexivity |].
  rewrite !append_cons, IH. reflexivity.
Qed.

Lemma append_length (a b : string) :
  String.length (a +:+ b) = (String.length a + String.length b)%nat.
Proof.
  induction a as [| ch a IH]; [reflexivity |].
  rewrite append_cons. simpl. rewrite IH. reflexivity.
Qed.

Lemma append_inj_l (a b s : string) : a +:+ s = b +:+ s → a = b.
Proof.
  revert b. induction a as [| ch a IH]; intros [| ch' b] Heq.
  - reflexivity.
  - apply (f_equal String.length) in Heq.
    rewrite append_cons, append_nil in Heq. simpl in Heq. rewrite append_length in Heq. lia.
  - apply (f_equal String.length) in Heq.
    rewrite append_cons, append_nil in Heq. simpl in Heq. rewrite append_length in Heq. lia.
  - rewrite !append_cons in Heq. injection Heq as -> Heq. f_equal. apply IH. exact Heq.
Qed.

Lemma cacheKey_model_inj (text p m1 m2 : string) :
  cacheKey text p m1 = cacheKey text p m2 → m1 = m2.
Proof.
  unfold cacheKey. intros Heq.
  do 4 apply String.app_inj in Heq. exact Heq.
Qed.

Lemma cacheKey_provider_inj (text p1 p2 m : string) :
  cacheKey text p1 m = cacheKey text p2 m → p1 = p2.
Proof.
  unfold cacheKey. intros Heq.
  do 2 apply String.app_inj in Heq.
  apply (append_inj_l _ _ ("-" +:+ m)). exact Heq.
Qed.

(** C8. For the same text and provider, an answer stored under the key of
    model [m1] is not found under the key of a different model [m2]: the
    two keys differ, the store leaves the other key as it was, and on a
    cache that held nothing the read returns nothing.  The same holds for
    the same text and model under two different providers. *)
Theorem cache_key_sensitivity (text v : string) (t t' : Z) (cache : gmap string CacheEntry) :
  (∀ p m1 m2 : string,
     m1 ≠ m2 →
     cacheKey text p m1 ≠ cacheKey text p m2
     ∧ cache_get t' (cacheKey text p m2) (cache_put t (cacheKey text p m1) v cache)
       = cache_get t' (cacheKey text p m2) cache
     ∧ cache_get t' (cacheKey text p m2) (cache_put t (cacheKey text p m1) v ∅) = None)
  ∧ (∀ p1 p2 m : string,
       p1 ≠ p2 →
       cacheKey text p1 m ≠ cacheKey text p2 m
       ∧ cache_get t' (cacheKey text p2 m) (cache_put t (cacheKey text p1 m) v cache)
         = cache_get t' (cacheKey text p2 m) cache
       ∧ cache_get t' (cacheKey text p2 m) (cache_put t (cacheKey text p1 m) v ∅) = None).
Proof.
  split.
  - intros p m1 m2 Hne.
    assert (Hk : cacheKey text p m1 ≠ cacheKey text p m2)
      by (intros Heq; apply Hne; eapply cacheKey_model_inj; exact Heq).
    split; [exact Hk |]. split.
    + apply cache_get_put_other. exact Hk.
    + rewrite cache_get_put_other by exact Hk. reflexivity.
  - intros p1 p2 m Hne.
    assert (Hk : cacheKey text p1 m ≠ cacheKey text p2 m)
      by (intros Heq; apply Hne; eapply cacheKey_provider_inj; exact Heq).
    split; [exact Hk |]. split.
    + apply cache_get_put_other. exact Hk.
    + rewrite cache_get_put_other by exact Hk. reflexivity.
Qed.

(** ** Worker states *)

Section StateFacts.
Context `{Browser}.
Implicit Types (st : State).

Lemma State_eq st w c tr :
  world st = w → responseCache st = c → trace st = tr → st = mkState w c tr.
Proof. destruct st. simpl. intros -> -> ->. reflexivity. Qed.

Lemma world_emit evs st : world (emit evs st) = world st.
Proof. reflexivity. Qed.

Lemma responseCache_emit evs st : responseCache (emit evs st) = responseCache st.
Proof. reflexivity. Qed.

Lemma trace_emit evs st : trace (emit evs st) = trace st ++ evs.
Proof. reflexivity. Qed.

Lemma world_set_world w st : world (set_world w st) = w.
Proof. reflexivity. Qed.

Lemma responseCache_set_world w st : responseCache (set_world w st) = responseCache st.
Proof. reflexivity. Qed.

Lemma trace_set_world w st : trace (set_world w st) = trace st.
Proof. reflexivity. Qed.

Lemma world_set_cache c st : world (set_cache c st) = world st.
Proof. reflexivity. Qed.

Lemma responseCache_set_cache c st : responseCache (set_cache c st) = c.
Proof. reflexivity. Qed.

Lemma trace_set_cache c st : trace (set_cache c st) = trace st.
Proof. reflexivity. Qed.

Lemma world_sleep_state ms st :
  world (sleep_state ms st) = sleep (inject_Z ms) (world st).
Proof. reflexivity. Qed.

Lemma responseCache_sleep_state ms st :
  responseCache (sleep_state ms st) = responseCache st.
Proof. reflexivity. Qed.

Lemma trace_sleep_state ms st :
  trace (sleep_state ms st) = trace st ++ [EvSleep ms].
Proof. reflexivity. Qed.
End StateFacts.

Create Rewrite HintDb state.

#[local] Hint Rewrite
  @world_emit @responseCache_emit @trace_emit
  @world_set_world @responseCache_set_world @trace_set_world
  @world_set_cache @responseCache_set_cache @trace_set_cache
  @world_sleep_state @responseCache_sleep_state @trace_sleep_state : state.

(** Counts the adapter calls of a trace built by appending. *)
Ltac count_fetches :=
  autorewrite with state; cbn [trace]; unfold fetch_count;
  rewrite ?List.filter_app, ?length_app; simpl; lia.

(** Proves [st = mkState w c tr] field by field. *)
Ltac state_eq :=
  apply State_eq; autorewrite with state; rewrite <- ?app_assoc; try reflexivity.

(** ** Delivery to the content script *)

Section DeliveryFacts.
Context `{Browser}.
Implicit Types (st : State) (tr : list event).

(** One execution of the function body and its callbacks. *)
Lemma sendResponseToContent_step responseText tabId retries delay st :
  sendResponseToContent responseText tabId retries delay st =
  match tabs_get tabId (world st) with
  | (false, w1) =>
      emit [EvTabsGet tabId; EvConsole console_error "Tab no longer exists:"] (set_world w1 st)
  | (true, w1) =>
      match tabs_sendMessage tabId responseText w1 with
      | (true, w2) =>
          emit [EvTabsGet tabId; EvSendMessage tabId responseText] (set_world w2 st)
      | (false, w2) =>
          if Z_gt_dec retries 0 then
            sendResponseToContent responseText tabId (retries - 1) (delay * (3 # 2))
              (set_world (sleep delay w2)
                 (emit [EvTabsGet tabId; EvSendMessage tabId responseText;
                        EvConsole console_warn "Error sending response to content script:";
                        EvConsole console_log "Retrying message sending";
                        EvSetTimeout delay] st))
          else
            emit [EvTabsGet tabId; EvSendMessage tabId responseText;
                  EvConsole console_warn "Error sending response to content script:";
                  EvConsole console_error "Failed to send message after multiple attempts"]
              (set_world w2 st)
      end
  end.
Proof.
  simp sendResponseToContent.
  destruct (tabs_get tabId (world st)) as [[|] w1]; simpl; [| reflexivity].
  destruct (tabs_sendMessage tabId responseText w1) as [[|] w2]; simpl; [reflexivity |].
  destruct (Z_gt_dec retries 0); reflexivity.
Qed.

(** Whatever the tab does, a delivery terminates having touched nothing
    but the tab: the cache is as before, the trace grows by delivery
    events only, every message sent carries the text it was given, and
    at most [retries + 1] sends and [retries] timers happen. *)
Lemma sendResponseToContent_frame responseText tabId retries delay st :
  ∃ tr, trace (sendResponseToContent responseText tabId retries delay st) = trace st ++ tr
        ∧ responseCache (sendResponseToContent responseText tabId retries delay st)
          = responseCache st
        ∧ delivery_bounds responseText tabId retries tr.
Proof.
  remember (Z.to_nat retries) as n eqn:Hn.
  revert retries delay st Hn.
  induction n as [| n IH]; intros retries delay st Hn;
    rewrite sendResponseToContent_step;
    destruct (tabs_get tabId (world st)) as [[|] w1];
    try destruct (tabs_sendMessage tabId responseText w1) as [[|] w2];
    try destruct (Z_gt_dec retries 0) as [Hgt | Hle]; try lia;
    try (eexists; split; [reflexivity |]; split; [reflexivity |];
         unfold delivery_bounds; simpl;
         repeat split; repeat constructor; lia).
  destruct (IH (retries - 1) (delay * (3 # 2))%Q
              (set_world (sleep delay w2)
                 (emit [EvTabsGet tabId; EvSendMessage tabId responseText;
                        EvConsole console_warn "Error sending response to content script:";
                        EvConsole console_log "Retrying message sending";
                        EvSetTimeout delay] st)) ltac:(lia))
    as (tr & Htr & Hc & Hall & Hmsg & Hsend & Htime).
  eexists. split; [| split].
  - rewrite Htr. simpl. rewrite <- app_assoc. reflexivity.
  - rewrite Hc. reflexivity.
  - unfold delivery_bounds. simpl. repeat split.
    + repeat constructor. exact Hall.
    + constructor; [reflexivity | exact Hmsg].
    + simpl in *. lia.
    + simpl in *. lia.
Qed.

(** What a delivery does with its first attempt. *)
Lemma sendResponseToContent_delivered responseText tabId retries delay st :
  ∃ tr, trace (sendResponseToContent responseText tabId retries delay st) = trace st ++ tr
        ∧ delivered responseText tabId (world st) tr.
Proof.
  rewrite sendResponseToContent_step. unfold delivered.
  destruct (tabs_get tabId (world st)) as [[|] w1]; cbn [fst snd].
  - destruct (tabs_sendMessage tabId responseText w1) as [[|] w2]; cbn [fst snd].
    + eexists. split; [reflexivity |].
      split; [eexists; reflexivity |]. split; [discriminate |].
      split; [intros _; eexists; reflexivity | intros _ _; reflexivity].
    + destruct (Z_gt_dec retries 0) as [Hgt | Hle].
      * destruct (sendResponseToContent_frame responseText tabId (retries - 1)
                    (delay * (3 # 2))
                    (set_world (sleep delay w2)
                       (emit [EvTabsGet tabId; EvSendMessage tabId responseText;
                              EvConsole console_warn "Error sending response to content script:";
                              EvConsole console_log "Retrying message sending";
                              EvSetTimeout delay] st))) as (tr & Htr & _).
        eexists. split.
        { rewrite Htr. cbn [trace set_world emit]. rewrite <- app_assoc. reflexivity. }
        split; [eexists; reflexivity |]. split; [discriminate |].
        split; [intros _; eexists; reflexivity | discriminate].
      * eexists. split; [reflexivity |].
        split; [eexists; reflexivity |]. split; [discriminate |].
        split; [intros _; eexists; reflexivity | discriminate].
  - eexists. split; [reflexivity |].
    split; [eexists; reflexivity |]. split; [intros _; reflexivity |].
    split; discriminate.
Qed.

Lemma fetch_count_app tr1 tr2 :
  fetch_count (tr1 ++ tr2) = (fetch_count tr1 + fetch_count tr2)%nat.
Proof. unfold fetch_count. rewrite List.filter_app, length_app. reflexivity. Qed.

Lemma fetch_count_delivery tr :
  Forall (λ ev, is_delivery_event ev = true) tr → fetch_count tr = 0%nat.
Proof.
  induction 1 as [| ev tr Hev _ IH]; [reflexivity |].
  unfold fetch_count in *. simpl. destruct ev; simpl in *; try discriminate; exact IH.
Qed.

Lemma sendResponseToContent_fetch_count responseText tabId retries delay st :
  fetch_count (trace (sendResponseToContent responseText tabId retries delay st))
  = fetch_count (trace st).
Proof.
  destruct (sendResponseToContent_frame responseText tabId retries delay st)
    as (tr & Htr & _ & Hall & _).
  rewrite Htr, fetch_count_app, (fetch_count_delivery tr Hall). lia.
Qed.

Lemma sendResponseToContent_cache responseText tabId retries delay st :
  responseCache (sendResponseToContent responseText tabId retries delay st)
  = responseCache st.
Proof.
  destruct (sendResponseToContent_frame responseText tabId retries delay st)
    as (tr & _ & Hc & _). exact Hc.
Qed.
End DeliveryFacts.

Section DeliverySteps.
Context `{Browser}.
Implicit Types (st : State).

Lemma sendResponseToContent_tab_gone responseText tabId retries delay st :
  fst (tabs_get tabId (world st)) = false →
  sendResponseToContent responseText tabId retries delay st =
  emit [EvTabsGet tabId; EvConsole console_error "Tab no longer exists:"]
    (set_world (snd (tabs_get tabId (world st))) st).
Proof.
  intros Htab. rewrite sendResponseToContent_step.
  destruct (tabs_get tabId (world st)) as [[|] w1]; simpl in *; [discriminate | reflexivity].
Qed.

Lemma sendResponseToContent_sent responseText tabId retries delay st :
  fst (tabs_get tabId (world st)) = true →
  fst (tabs_sendMessage tabId responseText (snd (tabs_get tabId (world st)))) = true →
  sendResponseToContent responseText tabId retries delay st =
  emit [EvTabsGet tabId; EvSendMessage tabId responseText]
    (set_world (snd (tabs_sendMessage tabId responseText (snd (tabs_get tabId (world st))))) st).
Proof.
  intros Htab Hsend. rewrite sendResponseToContent_step.
  destruct (tabs_get tabId (world st)) as [[|] w1]; simpl in *; [| discriminate].
  destruct (tabs_sendMessage tabId responseText w1) as [[|] w2]; simpl in *;
    [reflexivity | discriminate].
Qed.

Lemma sendResponseToContent_retry responseText tabId retries delay st :
  fst (tabs_get tabId (world st)) = true →
  fst (tabs_sendMessage tabId responseText (snd (tabs_get tabId (world st)))) = false →
  0 < retries →
  sendResponseToContent responseText tabId retries delay st =
  sendResponseToContent responseText tabId (retries - 1) (delay * (3 # 2))
    (set_world
       (sleep delay
          (snd (tabs_sendMessage tabId responseText (snd (tabs_get tabId (world st))))))
       (emit [EvTabsGet tabId; EvSendMessage tabId responseText;
              EvConsole console_warn "Error sending response to content script:";
              EvConsole console_log "Retrying message sending";
              EvSetTimeout delay] st)).
Proof.
  intros Htab Hsend Hpos. rewrite sendResponseToContent_step.
  destruct (tabs_get tabId (world st)) as [[|] w1]; simpl in *; [| discriminate].
  destruct (tabs_sendMessage tabId responseText w1) as [[|] w2]; simpl in *;
    [discriminate |].
  destruct (Z_gt_dec retries 0); [reflexivity | lia].
Qed.

Lemma sendResponseToContent_give_up responseText tabId retries delay st :
  fst (tabs_get tabId (world st)) = true →
  fst (tabs_sendMessage tabId responseText (snd (tabs_get tabId (world st)))) = false →
  retries ≤ 0 →
  sendResponseToContent responseText tabId retries delay st =
  emit [EvTabsGet tabId; EvSendMessage tabId responseText;
        EvConsole console_warn "Error sending response to content script:";
        EvConsole console_error "Failed to send message after multiple attempts"]
    (set_world (snd (tabs_sendMessage tabId responseText (snd (tabs_get tabId (world st))))) st).
Proof.
  intros Htab Hsend Hpos. rewrite sendResponseToContent_step.
  destruct (tabs_get tabId (world st)) as [[|] w1]; simpl in *; [| discriminate].
  destruct (tabs_sendMessage tabId responseText w1) as [[|] w2]; simpl in *;
    [discriminate |].
  destruct (Z_gt_dec retries 0); [lia | reflexivity].
Qed.
End DeliverySteps.

(** C6. A delivery with the default budget never does more than four
    sends (one and three retries) and three waits, whatever the tab
    answers; it adds nothing but delivery events to the trace (no adapter
    call, no back-off wait of the retry controller) and leaves the cache
    as it was; its result is a state: nothing is thrown to the caller.
    When the tab exists and every send fails, the sends are exactly four,
    separated by waits of 500, 750 and 1125 ms (each longer than the one
    before), and the delivery ends with a console error.  When the tab is
    gone, the delivery ends at once with a console error. *)
Theorem delivery_bounded_retry `{Browser} (responseText : string) (tabId : Z) (st : State) :
  let st' := sendResponseToContent_default responseText tabId st in
  (∃ tr, trace st' = trace st ++ tr ∧ delivery_bounds responseText tabId 3 tr)
  ∧ responseCache st' = responseCache st
  ∧ fetch_count (trace st') = fetch_count (trace st)
  ∧ ((∀ w, fst (tabs_get tabId w) = true) →
     (∀ w, fst (tabs_sendMessage tabId responseText w) = false) →
     ∃ w', st' =
       mkState w' (responseCache st)
         (trace st ++
          [EvTabsGet tabId; EvSendMessage tabId responseText;
           EvConsole console_warn "Error sending response to content script:";
           EvConsole console_log "Retrying message sending";
           EvSetTimeout 500;
           EvTabsGet tabId; EvSendMessage tabId responseText;
           EvConsole console_warn "Error sending response to content script:";
           EvConsole console_log "Retrying message sending";
           EvSetTimeout (500 * (3 # 2));
           EvTabsGet tabId; EvSendMessage tabId responseText;
           EvConsole console_warn "Error sending response to content script:";
           EvConsole console_log "Retrying message sending";
           EvSetTimeout (500 * (3 # 2) * (3 # 2));
           EvTabsGet tabId; EvSendMessage tabId responseText;
           EvConsole console_warn "Error sending response to content script:";
           EvConsole console_error "Failed to send message after multiple attempts"]))
  ∧ (fst (tabs_get tabId (world st)) = false →
     st' = emit [EvTabsGet tabId; EvConsole console_error "Tab no longer exists:"]
             (set_world (snd (tabs_get tabId (world st))) st))
  ∧ (500 < 500 * (3 # 2) ∧ 500 * (3 # 2) < 500 * (3 # 2) * (3 # 2)
     ∧ 500 * (3 # 2) == 750 ∧ 500 * (3 # 2) * (3 # 2) == 1125)%Q.
Proof.
  intros st'. subst st'. unfold sendResponseToContent_default.
  split; [| split; [| split; [| split; [| split]]]].
  - destruct (sendResponseToContent_frame responseText tabId 3 500 st) as (tr & Htr & _ & Hb).
    exists tr. split; assumption.
  - apply sendResponseToContent_cache.
  - apply sendResponseToContent_fetch_count.
  - intros Htab Hsend.
    rewrite sendResponseToContent_retry by (auto; lia).
    rewrite sendResponseToContent_retry by (auto; lia).
    rewrite sendResponseToContent_retry by (auto; lia).
    rewrite sendResponseToContent_give_up by (auto; lia).
    eexists. unfold emit, set_world. simpl. rewrite <- !app_assoc. simpl. reflexivity.
  - apply sendResponseToContent_tab_gone.
  - repeat split; reflexivity.
Qed.

(** C10. When the tab lookup reports an error, [sendResponseToContent]
    ends there, whatever [retries] and [delay] are: the trace gains the
    lookup and a console error, no message is sent and no timer is set.
    A timer (a retry) is set only if the tab exists, the send fails and
    [retries] is positive, and in that case the function runs again with
    [retries - 1] after the wait. *)
Theorem tab_gone_no_retry `{Browser} (responseText : string) (tabId : Z)
    (retries : Z) (delay : Q) (st : State) :
  let st' := sendResponseToContent responseText tabId retries delay st in
  let w1 := snd (tabs_get tabId (world st)) in
  (fst (tabs_get tabId (world st)) = false →
     st' = mkState w1 (responseCache st)
             (trace st ++ [EvTabsGet tabId; EvConsole console_error "Tab no longer exists:"]))
  ∧ (∀ tr, trace st' = trace st ++ tr →
       sent_messages tr ≠ [] → fst (tabs_get tabId (world st)) = true)
  ∧ (∀ tr, trace st' = trace st ++ tr →
       timeouts tr ≠ [] →
       fst (tabs_get tabId (world st)) = true
       ∧ fst (tabs_sendMessage tabId responseText w1) = false
       ∧ 0 < retries)
  ∧ (fst (tabs_get tabId (world st)) = true →
     fst (tabs_sendMessage tabId responseText w1) = false →
     0 < retries →
     st' = sendResponseToContent responseText tabId (retries - 1) (delay * (3 # 2))
             (set_world (sleep delay (snd (tabs_sendMessage tabId responseText w1)))
                (emit [EvTabsGet tabId; EvSendMessage tabId responseText;
                       EvConsole console_warn "Error sending response to content script:";
                       EvConsole console_log "Retrying message sending";
                       EvSetTimeout delay] st))).
Proof.
  intros st' w1. subst st' w1.
  split; [| split; [| split]].
  - intros Htab. rewrite sendResponseToContent_tab_gone by exact Htab. reflexivity.
  - intros tr Htr Hsent.
    destruct (fst (tabs_get tabId (world st))) eqn:Htab; [reflexivity |].
    rewrite sendResponseToContent_tab_gone in Htr by exact Htab.
    simpl in Htr. apply app_inv_head in Htr. subst tr. contradiction Hsent. reflexivity.
  - intros tr Htr Htime.
    destruct (fst (tabs_get tabId (world st))) eqn:Htab.
    + destruct (fst (tabs_sendMessage tabId responseText (snd (tabs_get tabId (world st)))))
        eqn:Hsend.
      * rewrite sendResponseToContent_sent in Htr by assumption.
        simpl in Htr. apply app_inv_head in Htr. subst tr. contradiction Htime. reflexivity.
      * destruct (Z_gt_dec retries 0) as [Hpos | Hle]; [repeat split; lia |].
        rewrite sendResponseToContent_give_up in Htr by (assumption || lia).
        simpl in Htr. apply app_inv_head in Htr. subst tr. contradiction Htime. reflexivity.
    + rewrite sendResponseToContent_tab_gone in Htr by exact Htab.
      simpl in Htr. apply app_inv_head in Htr. subst tr. contradiction Htime. reflexivity.
  - intros Htab Hsend Hpos. apply sendResponseToContent_retry; assumption.
Qed.

(** ** The dispatch body *)

Section DispatchFacts.
Context `{Browser}.
Implicit Types (st : State).

Lemma fetchAIResponse_try_incomplete text tabId st :
  config_incomplete (storage_get (world st)) →
  ∃ msg, In msg config_messages
         ∧ fetchAIResponse_try text tabId st = (inl (Error msg), emit [EvStorageGet] st).
Proof.
  unfold config_incomplete, stored_config, fetchAIResponse_try, config_messages.
  unfold mbind, M_bind, bind, chrome_storage_local_get, throw.
  intros Hinc. simpl.
  destruct (apiConfig (storage_get (world st))) as [configs |];
    destruct (truthy (activeProvider (storage_get (world st)))) as [p |];
    try (eexists; split; [| reflexivity]; simpl; tauto).
  destruct (configs !! p) as [config |] eqn:Hcfg;
    [| destruct (inherited p); eexists; (split; [| reflexivity]); simpl; tauto].
  destruct (truthy (selectedModel config)) as [model |] eqn:Hmodel;
    [| eexists; split; [| reflexivity]; simpl; tauto].
  destruct (truthy (apiKey config)) as [key |] eqn:Hkey;
    [| eexists; split; [| reflexivity]; simpl; tauto].
  exfalso.
  destruct Hinc as [Hinc | [(p' & Hp & Hinc) | [(p' & c & Hp & Hc & Hinc) | (p' & c & Hp & Hc & Hinc)]]];
    congruence.
Qed.

Lemma fetchAIResponse_try_configured text tabId st p config model :
  configured_with (storage_get (world st)) p config model →
  fetchAIResponse_try text tabId st =
  match cache_get (now (world st)) (cacheKey text p model) (responseCache st) with
  | Some cached =>
      (inr tt,
       sendResponseToContent_default cached tabId
         (emit [EvConsole console_log "Cache hit, returning cached response"]
            (emit [EvStorageGet] st)))
  | None =>
      fetch_and_cache text tabId p config model (cacheKey text p model)
        (emit [EvStorageGet] st)
  end.
Proof.
  unfold configured_with, stored_config, fetchAIResponse_try.
  unfold mbind, M_bind, bind, chrome_storage_local_get, Date_now, responseCache_get.
  intros (Hp & Hcfg & Hmodel & [k Hkey]). simpl.
  destruct (apiConfig (storage_get (world st))) as [configs |]; [| discriminate].
  rewrite Hp, Hcfg, Hmodel, Hkey.
  cbn [emit world responseCache].
  destruct (cache_get (now (world st)) (cacheKey text p model) (responseCache st));
    reflexivity.
Qed.

Lemma call_provider_known activeProvider a text config st :
  apiProviders activeProvider = Some a →
  call_provider activeProvider text config st =
  (fst (fetchResponse a text config (world st)),
   emit [EvFetch a text config] (set_world (snd (fetchResponse a text config (world st))) st)).
Proof.
  intros Ha. unfold call_provider. rewrite Ha.
  destruct (fetchResponse a text config (world st)) as [r w1]. reflexivity.
Qed.

(** A miss followed by an adapter call that succeeds at once. *)
Lemma fetch_and_cache_success text tabId p a config model key st answer w1 :
  apiProviders p = Some a →
  fetchResponse a text config (world st) = (inr answer, w1) →
  fetch_and_cache text tabId p config model key st =
  (inr tt,
   sendResponseToContent_default answer tabId
     (set_cache (cache_put (now w1) key answer (responseCache st))
        (emit [EvFetch a text config]
           (set_world w1
              (emit [EvConsole console_log
                       ("Making API request to " +:+ p +:+ " using model " +:+ model)] st))))).
Proof.
  intros Ha Hfetch. unfold fetch_and_cache.
  unfold mbind, M_bind, bind, console, act, retryWithBackoff, Date_now, responseCache_set.
  unfold Retry.retryWithBackoff.
  rewrite retry_loop_success.
  - rewrite (call_provider_known p a) by exact Ha. simpl. rewrite Hfetch. reflexivity.
  - exists answer. rewrite (call_provider_known p a) by exact Ha. simpl.
    rewrite Hfetch. reflexivity.
Qed.

(** A miss followed by adapter calls that all fail: four calls, three
    waits, and the error of the fourth call comes out. *)
Lemma fetch_and_cache_failure text tabId p a config model key st :
  apiProviders p = Some a →
  (∀ w, ∃ e, fst (fetchResponse a text config w) = inl e) →
  ∃ e w3 w4,
    fetchResponse a text config w3 = (inl e, w4)
    ∧ fetch_and_cache text tabId p config model key st =
      (inl e,
       mkState w4 (responseCache st)
         (trace st ++
          [EvConsole console_log
             ("Making API request to " +:+ p +:+ " using model " +:+ model);
           EvFetch a text config; EvSleep 1000;
           EvFetch a text config; EvSleep 2000;
           EvFetch a text config; EvSleep 4000;
           EvFetch a text config])).
Proof.
  intros Ha Hfail.
  assert (Hf : ∀ s, Retry.fails_at (call_provider p text config) s).
  { intros s. destruct (Hfail (world s)) as [e He]. exists e.
    rewrite (call_provider_known p a) by exact Ha. exact He. }
  unfold fetch_and_cache.
  unfold mbind, M_bind, bind, console, act, retryWithBackoff.
  unfold Retry.retryWithBackoff, MAX_RETRIES, INITIAL_RETRY_DELAY.
  rewrite retry_loop_retry by (auto; lia).
  rewrite retry_loop_retry by (auto; lia).
  rewrite retry_loop_retry by (auto; lia).
  rewrite retry_loop_exhausted by (auto; lia).
  rewrite !(call_provider_known p a) by exact Ha.
  cbn [Retry.log_events fst snd world emit set_world sleep_state responseCache trace].
  set (w0 := world st).
  destruct (fetchResponse a text config w0) as [r1 w1] eqn:E1.
  cbn [fst snd].
  destruct (fetchResponse a text config (sleep (inject_Z (1000 * 2 ^ 0)) w1)) as [r2 w2] eqn:E2.
  cbn [fst snd].
  destruct (fetchResponse a text config (sleep (inject_Z (1000 * 2 ^ (0 + 1))) w2))
    as [r3 w3] eqn:E3.
  cbn [fst snd].
  destruct (fetchResponse a text config (sleep (inject_Z (1000 * 2 ^ (0 + 1 + 1))) w3))
    as [r4 w4] eqn:E4.
  cbn [fst snd].
  destruct (Hfail (sleep (inject_Z (1000 * 2 ^ (0 + 1 + 1))) w3)) as [e He].
  rewrite E4 in He. simpl in He. subst r4.
  exists e, (sleep (inject_Z (1000 * 2 ^ (0 + 1 + 1))) w3), w4.
  split; [exact E4 |].
  f_equal. state_eq.
Qed.

Lemma dispatch_error text tabId st e st1 :
  fetchAIResponse_try text tabId st = (inl e, st1) →
  fetchAIResponse_body text tabId st =
  sendResponseToContent_default ("Error: " +:+ message e) tabId
    (emit [EvConsole console_error "Error fetching from AI provider:"] st1).
Proof.
  intros Htry. unfold fetchAIResponse_body, try_catch. rewrite Htry. reflexivity.
Qed.

Lemma dispatch_hit text tabId st p config model cached :
  configured_with (storage_get (world st)) p config model →
  cache_get (now (world st)) (cacheKey text p model) (responseCache st) = Some cached →
  fetchAIResponse_body text tabId st =
  sendResponseToContent_default cached tabId
    (mkState (world st) (responseCache st)
       (trace st ++
        [EvStorageGet; EvConsole console_log "Cache hit, returning cached response"])).
Proof.
  intros Hcfg Hhit. unfold fetchAIResponse_body, try_catch.
  rewrite (fetchAIResponse_try_configured _ _ _ _ _ _ Hcfg), Hhit.
  unfold emit. simpl. rewrite <- app_assoc. reflexivity.
Qed.

Lemma dispatch_miss_success text tabId st p a config model answer w1 :
  configured_with (storage_get (world st)) p config model →
  apiProviders p = Some a →
  cache_get (now (world st)) (cacheKey text p model) (responseCache st) = None →
  fetchResponse a text config (world st) = (inr answer, w1) →
  fetchAIResponse_body text tabId st =
  sendResponseToContent_default answer tabId
    (mkState w1
       (cache_put (now w1) (cacheKey text p model) answer (responseCache st))
       (trace st ++
        [EvStorageGet;
         EvConsole console_log
           ("Making API request to " +:+ p +:+ " using model " +:+ model);
         EvFetch a text config])).
Proof.
  intros Hcfg Ha Hmiss Hfetch. unfold fetchAIResponse_body, try_catch.
  rewrite (fetchAIResponse_try_configured _ _ _ _ _ _ Hcfg), Hmiss.
  rewrite (fetch_and_cache_success _ _ _ a _ _ _ _ answer w1) by assumption.
  unfold emit, set_cache, set_world. simpl. rewrite <- !app_assoc. reflexivity.
Qed.

Lemma dispatch_delivery_trace responseText tabId st :
  ∃ tr, trace (sendResponseToContent_default responseText tabId st) = trace st ++ tr
        ∧ delivery_bounds responseText tabId 3 tr.
Proof.
  unfold sendResponseToContent_default.
  destruct (sendResponseToContent_frame responseText tabId 3 500 st) as (tr & Htr & _ & Hb).
  exists tr. split; assumption.
Qed.

Lemma dispatch_delivered responseText tabId st :
  ∃ tr, trace (sendResponseToContent_default responseText tabId st) = trace st ++ tr
        ∧ delivery_bounds responseText tabId 3 tr
        ∧ delivered responseText tabId (world st) tr.
Proof.
  destruct (dispatch_delivery_trace responseText tabId st) as (tr & Htr & Hb).
  unfold sendResponseToContent_default in *.
  destruct (sendResponseToContent_delivered responseText tabId 3 500 st) as (tr' & Htr' & Hd).
  rewrite Htr in Htr'. apply app_inv_head in Htr'. subst tr'.
  exists tr. split; [exact Htr |]. split; [exact Hb | exact Hd].
Qed.
End DispatchFacts.

(** C4. When the store holds no active provider, or no entry for it, or
    an entry with an empty model or an empty API key, the [try] block
    throws right after the storage read, and the dispatch is the [catch]
    block run on that error: it hands [sendResponseToContent] the string
    ["Error: "] followed by one of the three configuration messages.  No
    adapter is called (the trace gains the storage read, a console error
    and delivery events only) and the cache is as before.  The delivery
    is carried out: the destination tab is looked up, and when it is
    there the string is sent to it (and to no other tab); when its
    content script takes the message, that one message is all that is
    sent. *)
Theorem config_gate `{Browser} (text : string) (tabId : Z) (st : State) :
  config_incomplete (storage_get (world st)) →
  ∃ msg tr,
    In msg config_messages
    ∧ fetchAIResponse_try text tabId st = (inl (Error msg), emit [EvStorageGet] st)
    ∧ fetchAIResponse_body text tabId st
      = fetchAIResponse_catch tabId (Error msg) (emit [EvStorageGet] st)
    ∧ fetchAIResponse_body text tabId st
      = sendResponseToContent_default ("Error: " +:+ msg) tabId
          (mkState (world st) (responseCache st)
             (trace st ++
              [EvStorageGet; EvConsole console_error "Error fetching from AI provider:"]))
    ∧ trace (fetchAIResponse_body text tabId st)
      = trace st ++
        [EvStorageGet; EvConsole console_error "Error fetching from AI provider:"] ++ tr
    ∧ delivery_bounds ("Error: " +:+ msg) tabId 3 tr
    ∧ fetch_count (trace (fetchAIResponse_body text tabId st)) = fetch_count (trace st)
    ∧ responseCache (fetchAIResponse_body text tabId st) = responseCache st
    ∧ delivered ("Error: " +:+ msg) tabId (world st) tr.
Proof.
  intros Hinc.
  destruct (fetchAIResponse_try_incomplete text tabId st Hinc) as (msg & Hmsg & Htry).
  assert (Hbody : fetchAIResponse_body text tabId st
      = sendResponseToContent_default ("Error: " +:+ msg) tabId
          (mkState (world st) (responseCache st)
             (trace st ++
              [EvStorageGet; EvConsole console_error "Error fetching from AI provider:"]))).
  { rewrite (dispatch_error _ _ _ _ _ Htry). unfold emit. simpl.
    rewrite <- app_assoc. reflexivity. }
  destruct (dispatch_delivered ("Error: " +:+ msg) tabId
              (mkState (world st) (responseCache st)
                 (trace st ++
                  [EvStorageGet; EvConsole console_error "Error fetching from AI provider:"])))
    as (tr & Htr & Hb & Hd).
  exists msg, tr.
  split; [exact Hmsg |]. split; [exact Htry |].
  split; [unfold fetchAIResponse_body, try_catch; rewrite Htry; reflexivity |].
  split; [exact Hbody |].
  split; [rewrite Hbody, Htr; simpl; rewrite <- app_assoc; reflexivity |].
  split; [exact Hb |].
  split; [| split; [| exact Hd]].
  - rewrite Hbody. unfold sendResponseToContent_default.
    rewrite sendResponseToContent_fetch_count. count_fetches.
  - rewrite Hbody. unfold sendResponseToContent_default.
    rewrite sendResponseToContent_cache. reflexivity.
Qed.

(** C5. With provider, model and API key in place and no valid entry for
    the query: the dispatch calls the adapter once, and when that call
    answers it stores the answer under the query's key with the current
    time and hands the answer to [sendResponseToContent].  A later dispatch
    of the same text, with the store still naming the same provider and
    model, less than [CACHE_EXPIRY] after the answer was stored, hands
    over the same answer and calls no adapter.  Both deliveries are
    carried out: the destination tab is looked up, and when it is there
    the answer is sent to it, unchanged; when its content script takes
    the message, that one message is all that is sent. *)
Theorem cached_second_dispatch `{Browser} (text : string) (tabId tabId' : Z) (st : State)
    (p : string) (a : Provider) (config : ProviderConfig) (model answer : string)
    (w1 : World) :
  configured_with (storage_get (world st)) p config model →
  apiProviders p = Some a →
  cache_get (now (world st)) (cacheKey text p model) (responseCache st) = None →
  fetchResponse a text config (world st) = (inr answer, w1) →
  let st' := fetchAIResponse_body text tabId st in
  st' = sendResponseToContent_default answer tabId
          (mkState w1
             (cache_put (now w1) (cacheKey text p model) answer (responseCache st))
             (trace st ++
              [EvStorageGet;
               EvConsole console_log
                 ("Making API request to " +:+ p +:+ " using model " +:+ model);
               EvFetch a text config]))
  ∧ fetch_count (trace st') = S (fetch_count (trace st))
  ∧ responseCache st' = cache_put (now w1) (cacheKey text p model) answer (responseCache st)
  ∧ (∃ tr,
       trace st'
       = trace st ++
         [EvStorageGet;
          EvConsole console_log
            ("Making API request to " +:+ p +:+ " using model " +:+ model);
          EvFetch a text config] ++ tr
       ∧ delivered answer tabId w1 tr)
  ∧ ∀ (w2 : World) (config2 : ProviderConfig),
      configured_with (storage_get w2) p config2 model →
      now w2 - now w1 < CACHE_EXPIRY →
      let st2 := set_world w2 st' in
      fetchAIResponse_body text tabId' st2
      = sendResponseToContent_default answer tabId'
          (mkState w2 (responseCache st')
             (trace st' ++
              [EvStorageGet; EvConsole console_log "Cache hit, returning cached response"]))
      ∧ fetch_count (trace (fetchAIResponse_body text tabId' st2)) = fetch_count (trace st')
      ∧ responseCache (fetchAIResponse_body text tabId' st2) = responseCache st'
      ∧ ∃ tr2,
          trace (fetchAIResponse_body text tabId' st2)
          = trace st' ++
            [EvStorageGet; EvConsole console_log "Cache hit, returning cached response"]
            ++ tr2
          ∧ delivered answer tabId' w2 tr2.
Proof.
  intros Hcfg Ha Hmiss Hfetch st'.
  assert (Hfirst := dispatch_miss_success text tabId st p a config model answer w1
                      Hcfg Ha Hmiss Hfetch).
  fold st' in Hfirst.
  assert (Hcache : responseCache st'
                   = cache_put (now w1) (cacheKey text p model) answer (responseCache st)).
  { rewrite Hfirst. unfold sendResponseToContent_default.
    rewrite sendResponseToContent_cache. reflexivity. }
  split; [exact Hfirst |]. split; [| split; [exact Hcache |]; split].
  - rewrite Hfirst. unfold sendResponseToContent_default.
    rewrite sendResponseToContent_fetch_count. count_fetches.
  - destruct (dispatch_delivered answer tabId
                (mkState w1
                   (cache_put (now w1) (cacheKey text p model) answer (responseCache st))
                   (trace st ++
                    [EvStorageGet;
                     EvConsole console_log
                       ("Making API request to " +:+ p +:+ " using model " +:+ model);
                     EvFetch a text config]))) as (tr & Htr & _ & Hd).
    exists tr. split; [| exact Hd].
    rewrite Hfirst, Htr. cbn [trace]. rewrite <- app_assoc. reflexivity.
  - intros w2 config2 Hcfg2 Hage st2.
    assert (Hhit : cache_get (now (world st2)) (cacheKey text p model) (responseCache st2)
                   = Some answer).
    { subst st2. simpl. rewrite Hcache, cache_get_put_same.
      destruct (Z.ltb_spec (now w2 - now w1) CACHE_EXPIRY); [reflexivity | lia]. }
    assert (Hsecond := dispatch_hit text tabId' st2 p config2 model answer Hcfg2 Hhit).
    split; [exact Hsecond |]. split; [| split].
    + rewrite Hsecond. unfold sendResponseToContent_default.
      rewrite sendResponseToContent_fetch_count. count_fetches.
    + rewrite Hsecond. unfold sendResponseToContent_default.
      rewrite sendResponseToContent_cache. reflexivity.
    + destruct (dispatch_delivered answer tabId'
                  (mkState w2 (responseCache st')
                     (trace st' ++
                      [EvStorageGet;
                       EvConsole console_log "Cache hit, returning cached response"])))
        as (tr2 & Htr2 & _ & Hd2).
      exists tr2. split; [| exact Hd2].
      assert (Hsecond' : fetchAIResponse_body text tabId' st2
                = sendResponseToContent_default answer tabId'
                    (mkState w2 (responseCache st')
                       (trace st' ++
                        [EvStorageGet;
                         EvConsole console_log "Cache hit, returning cached response"])))
        by exact Hsecond.
      rewrite Hsecond', Htr2. cbn [trace]. rewrite <- app_assoc. reflexivity.
Qed.

(** C7. Whatever error ends the [try] block, the dispatch hands
    [sendResponseToContent] the string ["Error: "] followed by the
    message of that error, and every message then sent to the tab carries
    exactly that string.  The [try] block ends in such an error when the
    configuration is incomplete (with one of the configuration messages)
    and when, on a miss, every adapter call fails (after four calls and
    waits of 1000, 2000 and 4000 ms, with the error of the fourth call). *)
Theorem terminal_error_delivery `{Browser} (text : string) (tabId : Z) (st : State) :
  (∀ e st1,
     fetchAIResponse_try text tabId st = (inl e, st1) →
     fetchAIResponse_body text tabId st
     = sendResponseToContent_default ("Error: " +:+ message e) tabId
         (emit [EvConsole console_error "Error fetching from AI provider:"] st1)
     ∧ ∃ tr,
         trace (fetchAIResponse_body text tabId st)
         = trace st1 ++ [EvConsole console_error "Error fetching from AI provider:"] ++ tr
         ∧ Forall (λ m, m = (tabId, "Error: " +:+ message e)) (sent_messages tr))
  ∧ (config_incomplete (storage_get (world st)) →
     ∃ e, In (message e) config_messages
          ∧ fetchAIResponse_try text tabId st = (inl e, emit [EvStorageGet] st))
  ∧ (∀ p a config model,
       configured_with (storage_get (world st)) p config model →
       apiProviders p = Some a →
       cache_get (now (world st)) (cacheKey text p model) (responseCache st) = None →
       (∀ w, ∃ e, fst (fetchResponse a text config w) = inl e) →
       ∃ e w3 w4,
         fetchResponse a text config w3 = (inl e, w4)
         ∧ fetchAIResponse_try text tabId st =
           (inl e,
            mkState w4 (responseCache st)
              (trace st ++
               [EvStorageGet;
                EvConsole console_log
                  ("Making API request to " +:+ p +:+ " using model " +:+ model);
                EvFetch a text config; EvSleep 1000;
                EvFetch a text config; EvSleep 2000;
                EvFetch a text config; EvSleep 4000;
                EvFetch a text config]))).
Proof.
  split; [| split].
  - intros e st1 Htry.
    assert (Hbody := dispatch_error text tabId st e st1 Htry).
    split; [exact Hbody |].
    destruct (dispatch_delivery_trace ("Error: " +:+ message e) tabId
                (emit [EvConsole console_error "Error fetching from AI provider:"] st1))
      as (tr & Htr & Hb).
    exists tr. split; [| apply Hb].
    rewrite Hbody, Htr. simpl. rewrite <- app_assoc. reflexivity.
  - intros Hinc.
    destruct (fetchAIResponse_try_incomplete text tabId st Hinc) as (msg & Hmsg & Htry).
    exists (Error msg). split; [exact Hmsg | exact Htry].
  - intros p a config model Hcfg Ha Hmiss Hfail.
    rewrite (fetchAIResponse_try_configured _ _ _ _ _ _ Hcfg), Hmiss.
    destruct (fetch_and_cache_failure text tabId p a config model (cacheKey text p model)
                (emit [EvStorageGet] st) Ha Hfail) as (e & w3 & w4 & He & Hrun).
    exists e, w3, w4. split; [exact He |].
    rewrite Hrun. simpl. rewrite <- app_assoc. reflexivity.
Qed.

(** C9. The cache key does not determine its parts: for every provider
    [p] and model [m], the text ["a-" ++ p] with model [m] and the text
    ["a"] with model [p ++ "-" ++ m] are different inputs with the same
    key.  So after a dispatch of ["a-" ++ p] under model [m] has stored
    its answer, a dispatch of ["a"] under model [p ++ "-" ++ m] within
    [CACHE_EXPIRY] hands over that answer and calls no adapter. *)
Theorem cache_key_collision :
  (∀ p m : string,
     cacheKey ("a-" +:+ p) p m = cacheKey "a" p (p +:+ "-" +:+ m)
     ∧ "a-" +:+ p ≠ "a"
     ∧ m ≠ p +:+ "-" +:+ m)
  ∧ (∀ (B : Browser) (p m answer : string) (a : Provider) (config config2 : ProviderConfig)
       (tabId tabId' : Z) (st : State) (w1 w2 : World),
       configured_with (storage_get (world st)) p config m →
       apiProviders p = Some a →
       cache_get (now (world st)) (cacheKey ("a-" +:+ p) p m) (responseCache st) = None →
       fetchResponse a ("a-" +:+ p) config (world st) = (inr answer, w1) →
       configured_with (storage_get w2) p config2 (p +:+ "-" +:+ m) →
       now w2 - now w1 < CACHE_EXPIRY →
       let st' := fetchAIResponse_body ("a-" +:+ p) tabId st in
       let st2 := set_world w2 st' in
       fetchAIResponse_body "a" tabId' st2
       = sendResponseToContent_default answer tabId'
           (mkState w2 (responseCache st')
              (trace st' ++
               [EvStorageGet; EvConsole console_log "Cache hit, returning cached response"]))
       ∧ fetch_count (trace (fetchAIResponse_body "a" tabId' st2)) = fetch_count (trace st')).
Proof.
  assert (Hkey : ∀ p m : string,
            cacheKey ("a-" +:+ p) p m = cacheKey "a" p (p +:+ "-" +:+ m)).
  { intros p m. unfold cacheKey. rewrite !append_assoc. reflexivity. }
  split.
  - intros p m. split; [apply Hkey |]. split.
    + intros Heq. apply (f_equal String.length) in Heq. simpl in Heq. discriminate.
    + intros Heq. apply (f_equal String.length) in Heq.
      rewrite append_length in Heq. rewrite append_length in Heq. simpl in Heq. lia.
  - intros B p m answer a config config2 tabId tabId' st w1 w2
      Hcfg Ha Hmiss Hfetch Hcfg2 Hage st' st2.
    assert (Hfirst := dispatch_miss_success ("a-" +:+ p) tabId st p a config m answer w1
                        Hcfg Ha Hmiss Hfetch).
    fold st' in Hfirst.
    assert (Hcache : responseCache st'
              = cache_put (now w1) (cacheKey ("a-" +:+ p) p m) answer (responseCache st)).
    { rewrite Hfirst. unfold sendResponseToContent_default.
      rewrite sendResponseToContent_cache. reflexivity. }
    assert (Hhit : cache_get (now (world st2)) (cacheKey "a" p (p +:+ "-" +:+ m))
                     (responseCache st2) = Some answer).
    { subst st2. simpl. rewrite Hcache, <- Hkey, cache_get_put_same.
      destruct (Z.ltb_spec (now w2 - now w1) CACHE_EXPIRY); [reflexivity | lia]. }
    assert (Hsecond := dispatch_hit "a" tabId' st2 p config2 (p +:+ "-" +:+ m) answer
                         Hcfg2 Hhit).
    split; [exact Hsecond |].
    rewrite Hsecond. unfold sendResponseToContent_default.
    rewrite sendResponseToContent_fetch_count. count_fetches.
Qed.

(** ** Debouncer *)

Section DebounceFacts.
Context {Args : Type}.
Variable wait : Z.
Implicit Types (st : Debounce.loop Args) (ins : list (Debounce.input Args)).

Lemma remove_timer_self id t (a : Args) :
  Debounce.remove_timer id [Debounce.mkTimer id t a] = [].
Proof. unfold Debounce.remove_timer. simpl. rewrite Nat.eqb_refl. reflexivity. Qed.

Lemma tick_no_timers t st : Debounce.timers st = [] → Debounce.tick t st = st.
Proof. intros Hts. unfold Debounce.tick. rewrite Hts. reflexivity. Qed.

Lemma tick_pending_early t st tl a :
  Debounce.pending wait st tl a → t < tl + wait → Debounce.tick t st = st.
Proof.
  intros (_ & id & Hts & _) Hlt. unfold Debounce.tick. rewrite Hts. simpl. rewrite Hts. simpl.
  destruct (Z.leb_spec (tl + wait) t); [lia | reflexivity].
Qed.

Lemma tick_pending_due t st tl a :
  Debounce.pending wait st tl a → tl + wait ≤ t → Debounce.fired (Debounce.tick t st) a.
Proof.
  intros (Hex & id & Hts & Hto) Hle. unfold Debounce.tick. rewrite Hts. simpl. rewrite Hts. simpl.
  destruct (Z.leb_spec (tl + wait) t); [| lia].
  unfold Debounce.fired, Debounce.fire, Debounce.later. simpl.
  rewrite Hts, Hto, Hex, remove_timer_self. split; reflexivity.
Qed.

Lemma call_idle t a st :
  Debounce.idle st → Debounce.pending wait (Debounce.executedFunction wait t a st) t a.
Proof.
  intros (Hex & Hts). unfold Debounce.pending, Debounce.executedFunction. simpl.
  split; [exact Hex |]. exists (Debounce.next_id st). rewrite Hts.
  destruct (Debounce.timeout st); split; reflexivity.
Qed.

(** A call while a timer is pending discards that timer and schedules
    its own, whatever the two argument tuples are. *)
Lemma call_pending t a st tl al :
  Debounce.pending wait st tl al →
  Debounce.pending wait (Debounce.executedFunction wait t a st) t a.
Proof.
  intros (Hex & id & Hts & Hto). unfold Debounce.pending, Debounce.executedFunction. simpl.
  split; [exact Hex |]. exists (Debounce.next_id st).
  rewrite Hts, Hto. unfold Debounce.clearTimeout. rewrite remove_timer_self.
  split; reflexivity.
Qed.

Lemma last_call_tick ins T :
  Debounce.last_call (ins ++ [Debounce.Tick T]) = Debounce.last_call ins.
Proof.
  induction ins as [| [t a | t] ins IH]; simpl; [reflexivity | rewrite IH; reflexivity | exact IH].
Qed.

(** Once the timer has fired at or after its deadline, a schedule that
    stays rapid cannot contain another call, and ticks change nothing. *)
Lemma run_fired ins : ∀ st prev tl a,
  Debounce.fired st a → tl + wait ≤ prev →
  Debounce.rapid wait prev (Some tl) ins = true →
  Debounce.last_call ins = None ∧ Debounce.run wait ins st = st.
Proof.
  induction ins as [| [t a' | t] ins IH]; intros st prev tl a Hf Hprev Hr; simpl in *.
  - split; reflexivity.
  - apply andb_prop in Hr as [Hr _]. apply andb_prop in Hr as [H1 H2]. lia.
  - apply andb_prop in Hr as [H1 Hr].
    rewrite tick_no_timers by apply Hf.
    apply (IH st t tl a); [exact Hf | lia | exact Hr].
Qed.

Lemma run_pending ins : ∀ st prev tl al T,
  Debounce.pending wait st tl al →
  Debounce.rapid wait prev (Some tl) (ins ++ [Debounce.Tick T]) = true →
  match Debounce.last_call ins with
  | Some (tN, _) => tN + wait ≤ T
  | None => tl + wait ≤ T
  end →
  Debounce.fired (Debounce.run wait (ins ++ [Debounce.Tick T]) st)
    match Debounce.last_call ins with
    | Some (_, aN) => aN
    | None => al
    end.
Proof.
  induction ins as [| [t a | t] ins IH]; intros st prev tl al T Hp Hr HT; simpl in *.
  - apply (tick_pending_due _ _ tl); assumption.
  - apply andb_prop in Hr as [Hr Hrest]. apply andb_prop in Hr as [H1 H2].
    specialize (IH (Debounce.executedFunction wait t a st) t t a T
                   (call_pending t a st tl al Hp) Hrest).
    destruct (Debounce.last_call ins) as [[tN aN] |]; apply IH; exact HT.
  - apply andb_prop in Hr as [H1 Hr].
    destruct (Z.lt_ge_cases t (tl + wait)) as [Hearly | Hdue].
    + rewrite (tick_pending_early _ _ tl al) by assumption.
      apply (IH st t tl al T); assumption.
    + assert (Hf := tick_pending_due t st tl al Hp Hdue).
      destruct (run_fired (ins ++ [Debounce.Tick T]) (Debounce.tick t st) t tl al Hf Hdue Hr)
        as [Hnone Hrun].
      rewrite last_call_tick in Hnone. rewrite Hnone, Hrun. exact Hf.
Qed.

Lemma run_idle ins : ∀ st prev T tN aN,
  Debounce.idle st →
  Debounce.rapid wait prev None (ins ++ [Debounce.Tick T]) = true →
  Debounce.last_call ins = Some (tN, aN) →
  tN + wait ≤ T →
  Debounce.fired (Debounce.run wait (ins ++ [Debounce.Tick T]) st) aN.
Proof.
  induction ins as [| [t a | t] ins IH]; intros st prev T tN aN Hi Hr Hlast HT; simpl in *.
  - discriminate.
  - apply andb_prop in Hr as [_ Hrest].
    assert (Hrun := run_pending ins (Debounce.executedFunction wait t a st) t t a T
                      (call_idle t a st Hi) Hrest).
    destruct (Debounce.last_call ins) as [[tN' aN'] |]; injection Hlast as -> ->;
      apply Hrun; exact HT.
  - apply andb_prop in Hr as [_ Hr].
    rewrite tick_no_timers by apply Hi.
    apply (IH st t T tN aN); assumption.
Qed.

(** *** The fuel of [tick] is enough *)

Lemma next_due_in t (ts : list (Debounce.timer Args)) tm :
  Debounce.next_due t ts = Some tm → In tm ts.
Proof.
  induction ts as [| tm0 ts IH]; simpl; [discriminate |].
  destruct (Debounce.next_due t ts) as [tm' |].
  - destruct (_ && _); intros [= <-]; [left; reflexivity | right; apply IH; reflexivity].
  - destruct (_ <=? _); [intros [= <-]; left; reflexivity | discriminate].
Qed.

Lemma remove_timer_le id (ts : list (Debounce.timer Args)) :
  (length (Debounce.remove_timer id ts) ≤ length ts)%nat.
Proof.
  induction ts as [| tm0 ts IH]; simpl; [lia |].
  destruct (negb _); simpl; lia.
Qed.

Lemma remove_timer_lt (ts : list (Debounce.timer Args)) tm :
  In tm ts → (length (Debounce.remove_timer (Debounce.timer_id tm) ts) < length ts)%nat.
Proof.
  induction ts as [| tm0 ts IH]; simpl; [contradiction |].
  intros [-> | Hin].
  - rewrite Nat.eqb_refl. simpl. pose proof (remove_timer_le (Debounce.timer_id tm) ts). lia.
  - specialize (IH Hin).
    destruct (negb _); simpl; lia.
Qed.

Lemma fire_length tm st :
  In tm (Debounce.timers st) →
  (length (Debounce.timers (Debounce.fire tm st)) < length (Debounce.timers st))%nat.
Proof.
  intros Hin. unfold Debounce.fire, Debounce.later, Debounce.clearTimeout. simpl.
  pose proof (remove_timer_lt _ _ Hin).
  destruct (Debounce.timeout st) as [id |]; [| assumption].
  pose proof (remove_timer_le id
                (Debounce.remove_timer (Debounce.timer_id tm) (Debounce.timers st))).
  lia.
Qed.

(** After [tick t] no timer due at [t] is left. *)
Lemma tick_complete t st :
  Debounce.next_due t (Debounce.timers (Debounce.tick t st)) = None.
Proof.
  unfold Debounce.tick.
  assert (Hgen : ∀ fuel st', (length (Debounce.timers st') ≤ fuel)%nat →
            Debounce.next_due t (Debounce.timers (Debounce.run_timers fuel t st')) = None).
  { induction fuel as [| fuel IH]; intros st' Hlen; simpl.
    - destruct (Debounce.timers st'); [reflexivity | simpl in Hlen; lia].
    - destruct (Debounce.next_due t (Debounce.timers st')) as [tm |] eqn:Hdue;
        [| exact Hdue].
      apply IH. pose proof (fire_length tm st' (next_due_in _ _ _ Hdue)). lia. }
  apply Hgen. lia.
Qed.
End DebounceFacts.

(** C3. Take any schedule of calls to [fetchAIResponse] and runs of the
    event loop in which time never goes back, at least one call is made,
    and every call after the first arrives less than [DEBOUNCE_DELAY]
    (300 ms) after the call before it.  Once the event loop has run at or
    after 300 ms past the last call, the debounced function has been
    executed exactly once, with the text and the tab of the last call, and
    no timer is left.  The timer is shared by every call: a second call
    within the window replaces the first even when the tabs differ. *)
Theorem debounce_burst (ins : list (Debounce.input (string * Z))) (t0 T tN : Z)
    (text : string) (tabId : Z) :
  Debounce.rapid DEBOUNCE_DELAY t0 None (ins ++ [Debounce.Tick T]) = true →
  Debounce.last_call ins = Some (tN, (text, tabId)) →
  tN + DEBOUNCE_DELAY ≤ T →
  let st := Debounce.run DEBOUNCE_DELAY (ins ++ [Debounce.Tick T]) Debounce.init in
  Debounce.executed st = [(text, tabId)]
  ∧ Debounce.timers st = []
  ∧ (∀ (t : Z) (q : string) (tab : Z) (s : Debounce.loop (string * Z)),
       Debounce.step DEBOUNCE_DELAY s (Debounce.Call t (q, tab))
       = fetchAIResponse t q tab s)
  ∧ (∀ (t1 t2 : Z) (q1 q2 : string) (tab1 tab2 : Z),
       t1 ≤ t2 → t2 < t1 + DEBOUNCE_DELAY → tab1 ≠ tab2 →
       Debounce.executed
         (Debounce.run DEBOUNCE_DELAY
            [Debounce.Call t1 (q1, tab1); Debounce.Call t2 (q2, tab2);
             Debounce.Tick (t2 + DEBOUNCE_DELAY)] Debounce.init)
       = [(q2, tab2)]).
Proof.
  intros Hr Hlast HT st.
  assert (Hinit : Debounce.idle (Debounce.init (Args := string * Z)))
    by (split; reflexivity).
  destruct (run_idle DEBOUNCE_DELAY ins Debounce.init t0 T tN (text, tabId)
              Hinit Hr Hlast HT) as [Hex Hts].
  split; [exact Hex |]. split; [exact Hts |]. split; [reflexivity |].
  intros t1 t2 q1 q2 tab1 tab2 H12 Hwin _.
  apply (run_idle DEBOUNCE_DELAY
           [Debounce.Call t1 (q1, tab1); Debounce.Call t2 (q2, tab2)]
           Debounce.init t1 (t2 + DEBOUNCE_DELAY) t2 (q2, tab2)).
  - exact Hinit.
  - simpl.
    destruct (Z.leb_spec t1 t1); [| lia].
    destruct (Z.leb_spec t1 t2); [| lia].
    destruct (Z.ltb_spec t2 (t1 + DEBOUNCE_DELAY)); [| lia].
    destruct (Z.leb_spec t2 (t2 + DEBOUNCE_DELAY)); [reflexivity | unfold DEBOUNCE_DELAY in *; lia].
  - reflexivity.
  - lia.
Qed.

(** ** The statements on sample runs *)

Lemma retry_controller_witness :
  Retry.retryWithBackoff Sample.no_sleep Sample.failing MAX_RETRIES INITIAL_RETRY_DELAY 0%nat
  = (inl "boom", 4%nat,
     [Retry.Attempt; Retry.Sleep 1000; Retry.Attempt; Retry.Sleep 2000;
      Retry.Attempt; Retry.Sleep 4000; Retry.Attempt])
  ∧ Retry.retryWithBackoff Sample.no_sleep (Sample.flaky 2) MAX_RETRIES INITIAL_RETRY_DELAY 0%nat
    = (inr "ok", 3%nat,
       [Retry.Attempt; Retry.Sleep 1000; Retry.Attempt; Retry.Sleep 2000; Retry.Attempt])
  ∧ Retry.retryWithBackoff Sample.no_sleep (Sample.flaky 0) MAX_RETRIES INITIAL_RETRY_DELAY 0%nat
    = (inr "ok", 1%nat, [Retry.Attempt]).
Proof.
  split; [| split].
  - pose proof (retry_controller Sample.no_sleep Sample.failing 0%nat) as Hc.
    cbv zeta in Hc. destruct Hc as (Hall & _ & _).
    destruct Hall as (Hrun & _).
    + intros w. exists "boom". reflexivity.
    + exact Hrun.
  - pose proof (retry_controller Sample.no_sleep (Sample.flaky 2) 0%nat) as Hc.
    cbv zeta in Hc. destruct Hc as (_ & Htwice & _).
    destruct Htwice as (Hrun & _).
    + exists "boom". reflexivity.
    + exists "boom". reflexivity.
    + exists "ok". reflexivity.
    + exact Hrun.
  - pose proof (retry_controller Sample.no_sleep (Sample.flaky 0) 0%nat) as Hc.
    cbv zeta in Hc. destruct Hc as (_ & _ & Hfirst).
    destruct Hfirst as (Hrun & _).
    + exists "ok". reflexivity.
    + exact Hrun.
Defined.

Lemma cache_ttl_witness :
  cache_get 1799999 "k" (cache_put 0 "k" "v" {[ "k" := mkCacheEntry "old" 0 ]}) = Some "v"
  ∧ cache_get 1800000 "k" (cache_put 0 "k" "v" {[ "k" := mkCacheEntry "old" 0 ]}) = None
  ∧ cache_get 1800000 "k" {[ "k" := mkCacheEntry "old" 0 ]} = None.
Proof.
  split; [| split].
  - destruct (cache_ttl "k" "v" {[ "k" := mkCacheEntry "old" 0 ]} 0 1799999)
      as (_ & Hfresh & _).
    apply Hfresh. reflexivity.
  - destruct (cache_ttl "k" "v" {[ "k" := mkCacheEntry "old" 0 ]} 0 1800000)
      as (_ & _ & Hstale & _).
    apply Hstale. discriminate.
  - destruct (cache_ttl "k" "v" {[ "k" := mkCacheEntry "old" 0 ]} 0 1800000)
      as (_ & _ & _ & Hheld & _).
    apply (Hheld (mkCacheEntry "old" 0)); [reflexivity | discriminate].
Defined.

Lemma debounce_burst_witness :
  Debounce.executed
    (Debounce.run DEBOUNCE_DELAY
       ([Debounce.Call 0 ("first", 1); Debounce.Tick 100; Debounce.Call 200 ("second", 2);
         Debounce.Call 450 ("third", 3)] ++ [Debounce.Tick 750])
       Debounce.init)
  = [("third", 3)].
Proof.
  destruct (debounce_burst
              [Debounce.Call 0 ("first", 1); Debounce.Tick 100; Debounce.Call 200 ("second", 2);
               Debounce.Call 450 ("third", 3)]
              0 750 450 "third" 3) as (Hex & _).
  - reflexivity.
  - reflexivity.
  - discriminate.
  - exact Hex.
Defined.

Lemma cache_key_sensitivity_witness :
  cache_get 10 (cacheKey "hello" "groq" "mixtral")
    (cache_put 0 (cacheKey "hello" "groq" "llama3") "Hi" ∅) = None
  ∧ cache_get 10 (cacheKey "hello" "gemini" "llama3")
      (cache_put 0 (cacheKey "hello" "groq" "llama3") "Hi" ∅) = None.
Proof.
  destruct (cache_key_sensitivity "hello" "Hi" 0 10 ∅) as (Hmodel & Hprovider).
  split.
  - destruct (Hmodel "groq" "llama3" "mixtral") as (_ & _ & Hnone); [discriminate | exact Hnone].
  - destruct (Hprovider "groq" "gemini" "llama3") as (_ & _ & Hnone);
      [discriminate | exact Hnone].
Defined.

Lemma config_gate_witness :
  (fetch_count
     (trace (H := Sample.fresh_install)
        (fetchAIResponse_body "hello" 7 (Sample.start Sample.fresh_install 0))) = 0%nat
   ∧ responseCache (H := Sample.fresh_install)
       (fetchAIResponse_body "hello" 7 (Sample.start Sample.fresh_install 0)) = ∅
   ∧ sent_messages
       (trace (H := Sample.fresh_install)
          (fetchAIResponse_body "hello" 7 (Sample.start Sample.fresh_install 0)))
     = [(7, "Error: AI provider not configured. Please set up the extension first.")])
  ∧ (fetch_count
       (trace (H := Sample.misnamed)
          (fetchAIResponse_body "hello" 7 (Sample.start Sample.misnamed 0))) = 0%nat
     ∧ sent_messages
         (trace (H := Sample.misnamed)
            (fetchAIResponse_body "hello" 7 (Sample.start Sample.misnamed 0)))
       = [(7, "Error: No model selected. Please configure a model in the extension settings.")]).
Proof.
  split.
  - destruct (@config_gate Sample.fresh_install "hello" 7
                (Sample.start Sample.fresh_install 0))
      as (msg & tr & _ & Htry & _ & _ & Htrace & _ & Hcount & Hcache & Hd).
    + left. reflexivity.
    + split; [exact Hcount |]. split; [exact Hcache |].
      apply (f_equal (λ r : (JsError + unit) * State,
                        match fst r with inl e => message e | inr _ => "" end)) in Htry.
      simpl in Htry. subst msg.
      destruct Hd as (_ & _ & _ & Hsent).
      rewrite Htrace, (Hsent eq_refl eq_refl). reflexivity.
  - destruct (@config_gate Sample.misnamed "hello" 7 (Sample.start Sample.misnamed 0))
      as (msg & tr & _ & Htry & _ & _ & Htrace & _ & Hcount & _ & Hd).
    + right. left. exists "constructor". split; reflexivity.
    + split; [exact Hcount |].
      apply (f_equal (λ r : (JsError + unit) * State,
                        match fst r with inl e => message e | inr _ => "" end)) in Htry.
      vm_compute in Htry. subst msg.
      destruct Hd as (_ & _ & _ & Hsent).
      rewrite Htrace, (Hsent eq_refl eq_refl). reflexivity.
Defined.

Lemma cached_second_dispatch_witness :
  fetch_count
    (trace (H := Sample.answering)
       (fetchAIResponse_body "hello" 7 (Sample.start Sample.answering 0))) = 1%nat
  ∧ fetch_count
      (trace (H := Sample.answering)
         (fetchAIResponse_body "hello" 8
            (set_world (H := Sample.answering) 1000
               (fetchAIResponse_body "hello" 7 (Sample.start Sample.answering 0))))) = 1%nat
  ∧ sent_messages
      (trace (H := Sample.answering)
         (fetchAIResponse_body "hello" 7 (Sample.start Sample.answering 0)))
    = [(7, "Hi there")]
  ∧ sent_messages
      (trace (H := Sample.answering)
         (fetchAIResponse_body "hello" 8
            (set_world (H := Sample.answering) 1000
               (fetchAIResponse_body "hello" 7 (Sample.start Sample.answering 0)))))
    = [(7, "Hi there"); (8, "Hi there")].
Proof.
  destruct (@cached_second_dispatch Sample.answering "hello" 7 8
              (Sample.start Sample.answering 0)
              "groq" groq Sample.config "llama3" "Hi there" 1)
    as (_ & Hcount & _ & (tr & Htrace & Hd) & Hsecond).
  - repeat split; try reflexivity. exists "sk-123". reflexivity.
  - reflexivity.
  - reflexivity.
  - reflexivity.
  - destruct (Hsecond 1000 Sample.config) as (_ & Hcount2 & _ & (tr2 & Htrace2 & Hd2)).
    + repeat split; try reflexivity. exists "sk-123". reflexivity.
    + reflexivity.
    + destruct Hd as (_ & _ & _ & Hsent). destruct Hd2 as (_ & _ & _ & Hsent2).
      cbv zeta in Hcount2, Htrace2.
      assert (Hfirst : sent_messages
                (trace (H := Sample.answering)
                   (fetchAIResponse_body "hello" 7 (Sample.start Sample.answering 0)))
              = [(7, "Hi there")]).
      { rewrite Htrace, (Hsent eq_refl eq_refl). reflexivity. }
      split; [exact Hcount |].
      split; [etransitivity; [exact Hcount2 | exact Hcount] |].
      split; [exact Hfirst |].
      rewrite Htrace2, (Hsent2 eq_refl eq_refl).
      unfold sent_messages in *. rewrite omap_app, Hfirst. reflexivity.
Defined.

Lemma delivery_bounded_retry_witness :
  (sent_messages
     (trace (H := Sample.deaf_tab)
        (sendResponseToContent_default "Hi" 7 (Sample.start Sample.deaf_tab 0)))
   = [(7, "Hi"); (7, "Hi"); (7, "Hi"); (7, "Hi")]
   ∧ timeouts
       (trace (H := Sample.deaf_tab)
          (sendResponseToContent_default "Hi" 7 (Sample.start Sample.deaf_tab 0)))
     = [500; 500 * (3 # 2); 500 * (3 # 2) * (3 # 2)]%Q)
  ∧ trace (H := Sample.closed_tab)
      (sendResponseToContent_default "Hi" 7 (Sample.start Sample.closed_tab 0))
    = [EvTabsGet 7; EvConsole console_error "Tab no longer exists:"].
Proof.
  split.
  - destruct (@delivery_bounded_retry Sample.deaf_tab "Hi" 7 (Sample.start Sample.deaf_tab 0))
      as (_ & _ & _ & Hfail & _).
    destruct Hfail as (w' & Hst).
    + intros w. reflexivity.
    + intros w. reflexivity.
    + rewrite Hst. split; reflexivity.
  - destruct (@delivery_bounded_retry Sample.closed_tab "Hi" 7
                (Sample.start Sample.closed_tab 0))
      as (_ & _ & _ & _ & Hgone & _).
    rewrite Hgone; reflexivity.
Defined.

Lemma terminal_error_delivery_witness :
  sent_messages
    (trace (H := Sample.fresh_install)
       (fetchAIResponse_body "hello" 7 (Sample.start Sample.fresh_install 0)))
  = [(7, "Error: AI provider not configured. Please set up the extension first.")]
  ∧ sent_messages
      (trace (H := Sample.rejecting)
         (fetchAIResponse_body "hello" 7 (Sample.start Sample.rejecting 0)))
    = [(7, "Error: Invalid API Key")].
Proof.
  split.
  - destruct (@terminal_error_delivery Sample.fresh_install "hello" 7
                (Sample.start Sample.fresh_install 0)) as (Hany & Hcfg & _).
    destruct Hcfg as (e' & _ & _); [left; reflexivity |].
    destruct (Hany (Error "AI provider not configured. Please set up the extension first.")
                (emit [EvStorageGet] (Sample.start Sample.fresh_install 0)))
      as (Hbody & _); [reflexivity |].
    rewrite Hbody. reflexivity.
  - destruct (@terminal_error_delivery Sample.rejecting "hello" 7
                (Sample.start Sample.rejecting 0)) as (Hany & _ & Hfail).
    destruct (Hfail "groq" groq Sample.config "llama3") as (e & w3 & w4 & He & Htry).
    + repeat split; try reflexivity. exists "sk-123". reflexivity.
    + reflexivity.
    + reflexivity.
    + intros w. exists (Error "Invalid API Key"). reflexivity.
    + injection He as <- _.
      destruct (Hany _ _ Htry) as (Hbody & _).
      rewrite Hbody. reflexivity.
Defined.

Lemma cache_key_collision_witness :
  cacheKey "a-groq" "groq" "m" = cacheKey "a" "groq" "groq-m"
  ∧ sent_messages
      (trace (H := Sample.remodelling)
         (fetchAIResponse_body "a" 8
            (set_world (H := Sample.remodelling) 500
               (fetchAIResponse_body "a-groq" 7 (Sample.start Sample.remodelling 0)))))
    = [(7, "About a-groq"); (8, "About a-groq")].
Proof.
  destruct cache_key_collision as (Hkey & Hrun).
  split; [apply (Hkey "groq" "m") |].
  destruct (Hrun Sample.remodelling "groq" "m" "About a-groq" groq
              (mkProviderConfig (Some "sk-123") (Some "m"))
              (mkProviderConfig (Some "sk-123") (Some "groq-m"))
              7 8 (Sample.start Sample.remodelling 0) 1 500) as (Hbody & _).
  - repeat split; try reflexivity. exists "sk-123". reflexivity.
  - reflexivity.
  - reflexivity.
  - reflexivity.
  - repeat split; try reflexivity. exists "sk-123". reflexivity.
  - reflexivity.
  - cbv zeta in Hbody.
    exact (f_equal (λ s, sent_messages (trace s)) Hbody).
Defined.

Lemma tab_gone_no_retry_witness :
  trace (H := Sample.closed_tab)
    (sendResponseToContent "Hi" 7 3 500 (Sample.start Sample.closed_tab 0))
  = [EvTabsGet 7; EvConsole console_error "Tab no longer exists:"]
  ∧ sendResponseToContent (H := Sample.deaf_tab) "Hi" 7 3 500 (Sample.start Sample.deaf_tab 0)
    = sendResponseToContent (H := Sample.deaf_tab) "Hi" 7 2 (500 * (3 # 2))
        (mkState (H := Sample.deaf_tab) 500 ∅
           [EvTabsGet 7; EvSendMessage 7 "Hi";
            EvConsole console_warn "Error sending response to content script:";
            EvConsole console_log "Retrying message sending";
            EvSetTimeout 500]).
Proof.
  split.
  - destruct (@tab_gone_no_retry Sample.closed_tab "Hi" 7 3 500
                (Sample.start Sample.closed_tab 0)) as (Hgone & _).
    cbv zeta in Hgone. rewrite Hgone; reflexivity.
  - destruct (@tab_gone_no_retry Sample.deaf_tab "Hi" 7 3 500
                (Sample.start Sample.deaf_tab 0))
      as (_ & Hsent & Htimer & Hretry).
    cbv zeta in Hsent, Htimer, Hretry.
    destruct (Htimer
                (trace (H := Sample.deaf_tab)
                   (sendResponseToContent "Hi" 7 3 500 (Sample.start Sample.deaf_tab 0))))
      as (Htab & Hsend & Hpos); [reflexivity | discriminate |].
    pose proof (Hsent
                  (trace (H := Sample.deaf_tab)
                     (sendResponseToContent "Hi" 7 3 500 (Sample.start Sample.deaf_tab 0)))
                  eq_refl ltac:(discriminate)) as Htab'.
    rewrite Hretry by assumption. reflexivity.
Defined.

(** * Further properties *)

(** ** Retry controller: any operation, any budget *)

Section RetryShape.
Context {W E A : Type}.
Variable sleep : Z → W → W.
Variable fn : W → (E + A) * W.
Variables maxRetries initialDelay : Z.
Variable w0 : W.

#[local] Abbreviation before k := (Retry.attempt_state sleep fn initialDelay k w0).

(** The loop entered at attempt [k] runs [n] more failed attempts and
    stops at attempt [k + n], whose outcome it returns. *)
Lemma retry_loop_from (m : nat) : ∀ k : nat,
  m = Z.to_nat (maxRetries - Z.of_nat k) →
  ∃ n : nat,
    Retry.retry_loop sleep fn maxRetries initialDelay (Z.of_nat k) (before k)
    = (fn (before (k + n)%nat), RetryLog.rounds initialDelay k n)
    ∧ (∀ i, (k ≤ i < k + n)%nat → Retry.fails_at fn (before i))
    ∧ Z.of_nat (k + n) ≤ Z.max maxRetries (Z.of_nat k)
    ∧ (Retry.fails_at fn (before (k + n)%nat) → maxRetries ≤ Z.of_nat (k + n)).
Proof.
  induction m as [| m IH]; intros k Hm.
  - exists 0%nat. rewrite Nat.add_0_r.
    destruct (fn (before k)) as [[e | v] w1] eqn:Hfn.
    + rewrite retry_loop_exhausted by (try (exists e; rewrite Hfn; reflexivity); lia).
      rewrite Hfn. repeat split; lia.
    + rewrite retry_loop_success by (exists v; rewrite Hfn; reflexivity).
      rewrite Hfn. repeat split;
        first [lia | intros [e He]; rewrite Hfn in He; discriminate].
  - destruct (fn (before k)) as [[e | v] w1] eqn:Hfn.
    + assert (Hfail : Retry.fails_at fn (before k)) by (exists e; rewrite Hfn; reflexivity).
      rewrite retry_loop_retry by (assumption || lia).
      destruct (IH (S k) ltac:(lia)) as (n & Hrun & Hall & Hle & Hex).
      exists (S n).
      replace (Z.of_nat k + 1) with (Z.of_nat (S k)) by lia.
      change (sleep (initialDelay * 2 ^ Z.of_nat k) (snd (fn (before k))))
        with (before (S k)).
      rewrite Hrun.
      replace (k + S n)%nat with (S k + n)%nat by lia.
      split; [destruct (fn (before (S k + n)%nat)) as [r w2]; reflexivity |].
      split; [| split].
      * intros i Hi. destruct (decide (i = k)) as [-> | Hne]; [exact Hfail |].
        apply Hall. lia.
      * lia.
      * exact Hex.
    + exists 0%nat. rewrite Nat.add_0_r.
      rewrite retry_loop_success by (exists v; rewrite Hfn; reflexivity).
      rewrite Hfn. repeat split;
        first [lia | intros [e He]; rewrite Hfn in He; discriminate].
Qed.

Lemma retry_run_shape :
  ∃ n : nat,
    Retry.retryWithBackoff sleep fn maxRetries initialDelay w0
    = (fn (before n), RetryLog.rounds initialDelay 0 n)
    ∧ (∀ i, (i < n)%nat → Retry.fails_at fn (before i))
    ∧ Z.of_nat n ≤ Z.max maxRetries 0
    ∧ (Retry.fails_at fn (before n) → maxRetries ≤ Z.of_nat n).
Proof.
  destruct (retry_loop_from _ 0%nat eq_refl) as (n & Hrun & Hall & Hle & Hex).
  exists n. split; [exact Hrun |]. split; [| split; [exact Hle | exact Hex]].
  intros i Hi. apply Hall. lia.
Qed.

Lemma rounds_attempts k n :
  Retry.attempts (RetryLog.rounds initialDelay k n) = S n.
Proof.
  unfold RetryLog.rounds, Retry.attempts. revert k.
  induction n as [| n IH]; intros k; [reflexivity |].
  simpl. rewrite IH. reflexivity.
Qed.

Lemma rounds_sleeps k n :
  Retry.sleeps (RetryLog.rounds initialDelay k n) = RetryLog.waits initialDelay k n.
Proof.
  unfold RetryLog.rounds, RetryLog.waits, Retry.sleeps. revert k.
  induction n as [| n IH]; intros k; [reflexivity |].
  simpl. rewrite IH. reflexivity.
Qed.

Lemma waits_total k n :
  RetryLog.total (RetryLog.waits initialDelay k n)
  = initialDelay * 2 ^ Z.of_nat k * (2 ^ Z.of_nat n - 1).
Proof.
  unfold RetryLog.total, RetryLog.waits. revert k.
  induction n as [| n IH]; intros k.
  - simpl. lia.
  - simpl seq. simpl map. simpl foldr. rewrite IH.
    replace (Z.of_nat (S k)) with (Z.of_nat k + 1) by lia.
    replace (Z.of_nat (S n)) with (Z.of_nat n + 1) by lia.
    rewrite !Z.pow_add_r by lia. lia.
Qed.

Lemma waits_length k n : length (RetryLog.waits initialDelay k n) = n.
Proof. unfold RetryLog.waits. rewrite length_map, length_seq. reflexivity. Qed.
End RetryShape.

(** The waits of a run whose largest admissible wait
    [initialDelay * 2^maxRetries] fits a timer are whole numbers between
    [initialDelay] and [2^31 - 1]. *)
Lemma waits_in_range (maxRetries initialDelay : Z) (n : nat) :
  0 < initialDelay →
  initialDelay * 2 ^ maxRetries ≤ 2 ^ 31 - 1 →
  Z.of_nat n ≤ Z.max maxRetries 0 →
  Forall (λ d, initialDelay ≤ d ≤ 2 ^ 31 - 1) (RetryLog.waits initialDelay 0 n).
Proof.
  intros Hpos Hmax Hn. unfold RetryLog.waits.
  apply Forall_forall. intros d Hd. apply list_elem_of_fmap in Hd as (i & -> & Hi).
  apply elem_of_seq in Hi.
  assert (Hi' : 0 ≤ Z.of_nat i < maxRetries) by lia.
  assert (H1 : 1 ≤ 2 ^ Z.of_nat i) by (apply Z.lt_pred_le, Z.pow_pos_nonneg; lia).
  assert (H2 : 2 ^ Z.of_nat i ≤ 2 ^ maxRetries) by (apply Z.pow_le_mono_r; lia).
  split; nia.
Qed.

(** X1. For a whole, positive initial delay and a budget whose largest
    wait [initialDelay * 2^maxRetries] fits a timer (at most [2^31 - 1]
    ms, where the delays that the code computes in double precision are
    the exact integers), and whatever the operation does: the log of a
    run is [n] rounds of one attempt followed by one wait, and then a last
    attempt; the operation is invoked [n + 1] times, at least once and at
    most [max maxRetries 0 + 1] times, the [i]-th wait lasts
    [initialDelay * 2^i], and every wait is between [initialDelay] and
    [2^31 - 1] ms. *)
Theorem retry_log_shape {W E A : Type} (sleep : Z → W → W) (fn : W → (E + A) * W)
    (maxRetries initialDelay : Z) (w0 : W) :
  0 < initialDelay →
  initialDelay * 2 ^ maxRetries ≤ 2 ^ 31 - 1 →
  let log := snd (Retry.retryWithBackoff sleep fn maxRetries initialDelay w0) in
  ∃ n : nat,
    log = RetryLog.rounds initialDelay 0 n
    ∧ Retry.attempts log = S n
    ∧ Retry.sleeps log = RetryLog.waits initialDelay 0 n
    ∧ Z.of_nat n ≤ Z.max maxRetries 0
    ∧ Forall (λ d, initialDelay ≤ d ≤ 2 ^ 31 - 1) (Retry.sleeps log).
Proof.
  intros Hpos Hmax log. subst log.
  destruct (retry_run_shape sleep fn maxRetries initialDelay w0)
    as (n & Hrun & _ & Hle & _).
  rewrite Hrun. simpl snd.
  exists n. split; [reflexivity |]. split; [apply rounds_attempts |].
  split; [apply rounds_sleeps |]. split; [exact Hle |].
  rewrite rounds_sleeps. apply (waits_in_range maxRetries); assumption.
Qed.

Lemma retry_log_shape_witness :
  ∃ n : nat,
    snd (Retry.retryWithBackoff Sample.no_sleep (Sample.flaky 2) 5 100 0%nat)
    = RetryLog.rounds 100 0 n
    ∧ Retry.attempts
        (snd (Retry.retryWithBackoff Sample.no_sleep (Sample.flaky 2) 5 100 0%nat)) = S n
    ∧ Retry.sleeps
        (snd (Retry.retryWithBackoff Sample.no_sleep (Sample.flaky 2) 5 100 0%nat))
      = RetryLog.waits 100 0 n
    ∧ Z.of_nat n ≤ Z.max 5 0
    ∧ Forall (λ d, 100 ≤ d ≤ 2 ^ 31 - 1)
        (Retry.sleeps
           (snd (Retry.retryWithBackoff Sample.no_sleep (Sample.flaky 2) 5 100 0%nat))).
Proof.
  apply (retry_log_shape Sample.no_sleep (Sample.flaky 2) 5 100 0%nat).
  - lia.
  - vm_compute. discriminate.
Defined.

(** X2. For a whole, positive initial delay and a budget whose largest
    wait [initialDelay * 2^maxRetries] fits a timer (at most [2^31 - 1]
    ms, where the delays that the code computes in double precision are
    the exact integers), the waits of a run add up to
    [initialDelay * (2^n - 1)] for its [n] waits, which is less than that
    largest wait.  With the constants of the worker the back-off of one
    run never exceeds 7000 ms, whatever the operation does. *)
Theorem retry_total_wait {W E A : Type} (sleep : Z → W → W) (fn : W → (E + A) * W)
    (maxRetries initialDelay : Z) (w0 : W) :
  let waits := Retry.sleeps (snd (Retry.retryWithBackoff sleep fn maxRetries initialDelay w0)) in
  let waits0 :=
    Retry.sleeps (snd (Retry.retryWithBackoff sleep fn MAX_RETRIES INITIAL_RETRY_DELAY w0)) in
  (0 < initialDelay →
   initialDelay * 2 ^ maxRetries ≤ 2 ^ 31 - 1 →
   RetryLog.total waits = initialDelay * (2 ^ Z.of_nat (length waits) - 1)
   ∧ 0 ≤ RetryLog.total waits < 2 ^ 31 - 1)
  ∧ 0 ≤ RetryLog.total waits0 ≤ 7000.
Proof.
  intros waits waits0. subst waits waits0. split.
  - intros Hpos Hmax.
    destruct (retry_run_shape sleep fn maxRetries initialDelay w0)
      as (n & Hrun & _ & Hle & _).
    rewrite Hrun. simpl snd.
    rewrite rounds_sleeps, waits_total, waits_length.
    change (Z.of_nat 0) with 0. rewrite Z.pow_0_r, Z.mul_1_r.
    split; [reflexivity |].
    assert (H1 : 1 ≤ 2 ^ Z.of_nat n) by (apply Z.lt_pred_le, Z.pow_pos_nonneg; lia).
    destruct n as [| n]; [simpl; lia |].
    assert (H2 : 2 ^ Z.of_nat (S n) ≤ 2 ^ maxRetries) by (apply Z.pow_le_mono_r; lia).
    split; nia.
  - destruct (retry_run_shape sleep fn MAX_RETRIES INITIAL_RETRY_DELAY w0)
      as (n & Hrun & _ & Hle & _).
    rewrite Hrun. simpl snd.
    rewrite rounds_sleeps, waits_total.
    unfold MAX_RETRIES, INITIAL_RETRY_DELAY in *.
    assert (Hn : (n ≤ 3)%nat) by lia.
    assert (Hpos : 0 < 2 ^ Z.of_nat n) by (apply Z.pow_pos_nonneg; lia).
    assert (Hpow : 2 ^ Z.of_nat n ≤ 2 ^ 3) by (apply Z.pow_le_mono_r; lia).
    change (2 ^ 3) with 8 in Hpow. change (Z.of_nat 0) with 0. lia.
Qed.

Lemma retry_total_wait_witness :
  RetryLog.total
    (Retry.sleeps (snd (Retry.retryWithBackoff Sample.no_sleep Sample.failing 5 100 0%nat)))
  = 100 * (2 ^ Z.of_nat
             (length
                (Retry.sleeps
                   (snd (Retry.retryWithBackoff Sample.no_sleep Sample.failing 5 100 0%nat))))
           - 1)
  ∧ 0 ≤ RetryLog.total
          (Retry.sleeps
             (snd (Retry.retryWithBackoff Sample.no_sleep Sample.failing
                     MAX_RETRIES INITIAL_RETRY_DELAY 0%nat))) ≤ 7000.
Proof.
  pose proof (retry_total_wait Sample.no_sleep Sample.failing 5 100 0%nat) as Hc.
  cbv zeta in Hc. destruct Hc as (Hsum & Hbound).
  split; [| exact Hbound].
  apply Hsum.
  - lia.
  - vm_compute. discriminate.
Defined.

(** X3. The outcome of a run is the outcome of its last invocation, every
    invocation before the last one failed, and a run ends on a failed
    invocation only when the budget is used up: for a budget
    [maxRetries >= 0], a run that throws has made exactly
    [maxRetries + 1] invocations. *)
Theorem retry_outcome {W E A : Type} (sleep : Z → W → W) (fn : W → (E + A) * W)
    (maxRetries initialDelay : Z) (w0 : W) :
  let run := Retry.retryWithBackoff sleep fn maxRetries initialDelay w0 in
  let n := length (Retry.sleeps (snd run)) in
  let before k := Retry.attempt_state sleep fn initialDelay k w0 in
  fst run = fn (before n)
  ∧ (∀ i, (i < n)%nat → Retry.fails_at fn (before i))
  ∧ (0 ≤ maxRetries → (∃ e, fst (fst run) = inl e) →
     Z.of_nat (Retry.attempts (snd run)) = maxRetries + 1).
Proof.
  intros run n before. subst run n before.
  destruct (retry_run_shape sleep fn maxRetries initialDelay w0)
    as (n & Hrun & Hall & Hle & Hex).
  rewrite Hrun. simpl fst. simpl snd.
  rewrite rounds_sleeps, waits_length, rounds_attempts.
  split; [reflexivity |]. split.
  - exact Hall.
  - intros Hpos [e He]. specialize (Hex (ex_intro _ e He)). lia.
Qed.

Lemma retry_outcome_witness :
  Z.of_nat
    (Retry.attempts
       (snd (Retry.retryWithBackoff Sample.no_sleep Sample.failing 5 100 0%nat))) = 6
  ∧ Retry.fails_at (Sample.flaky 2)
      (Retry.attempt_state Sample.no_sleep (Sample.flaky 2) 100 1 0%nat).
Proof.
  split.
  - pose proof (retry_outcome Sample.no_sleep Sample.failing 5 100 0%nat) as Hc.
    cbv zeta in Hc. destruct Hc as (_ & _ & Hthrow).
    apply Hthrow; [lia |]. exists "boom". reflexivity.
  - pose proof (retry_outcome Sample.no_sleep (Sample.flaky 2) 5 100 0%nat) as Hc.
    cbv zeta in Hc. destruct Hc as (_ & Hall & _).
    apply (Hall 1%nat). vm_compute. lia.
Defined.

(** ** Delivery: any tab, any budget *)

Section DeliveryShape.
Context `{Browser}.
Variables (responseText : string) (tabId : Z).
Implicit Types (st : State) (delay : Q) (retries : Z).

#[local] Abbreviation before := (DeliveryLog.state_before responseText tabId).
#[local] Abbreviation fails := (DeliveryLog.send_fails responseText tabId).

Lemma state_before_trace k : ∀ delay st,
  trace (before delay k st)
  = trace st ++ DeliveryLog.failed_attempts responseText tabId delay k
  ∧ responseCache (before delay k st) = responseCache st.
Proof.
  induction k as [| k IH]; intros delay st; simpl.
  - rewrite app_nil_r. split; reflexivity.
  - destruct (IH (delay * (3 # 2))%Q
                (set_world
                   (sleep delay
                      (snd (tabs_sendMessage tabId responseText
                              (snd (tabs_get tabId (world st))))))
                   (emit (DeliveryLog.failed_attempt responseText tabId delay) st)))
      as [Htr Hc].
    rewrite Htr, Hc. autorewrite with state. rewrite <- app_assoc. split; reflexivity.
Qed.

(** Every run is some number [k] of failed sends, each followed by its
    wait, and then one last attempt that ends the delivery. *)
Lemma delivery_run_shape (m : nat) : ∀ retries delay st,
  m = Z.to_nat retries →
  ∃ (k : nat) (e : DeliveryLog.ending) (w : World),
    sendResponseToContent responseText tabId retries delay st
    = emit (DeliveryLog.end_events responseText tabId e) (set_world w (before delay k st))
    ∧ Z.of_nat k ≤ Z.max retries 0
    ∧ (∀ i, (i < k)%nat → fails (before delay i st))
    ∧ match e with
      | DeliveryLog.TabGone => fst (tabs_get tabId (world (before delay k st))) = false
      | DeliveryLog.Sent => DeliveryLog.send_succeeds responseText tabId (before delay k st)
      | DeliveryLog.GaveUp => fails (before delay k st) ∧ retries ≤ Z.of_nat k
      end.
Proof.
  induction m as [| m IH]; intros retries delay st Hm.
  - destruct (fst (tabs_get tabId (world st))) eqn:Htab.
    + destruct (fst (tabs_sendMessage tabId responseText (snd (tabs_get tabId (world st)))))
        eqn:Hsend.
      * exists 0%nat, DeliveryLog.Sent. eexists.
        rewrite sendResponseToContent_sent by assumption.
        split; [reflexivity |]. repeat split; try assumption; lia.
      * exists 0%nat, DeliveryLog.GaveUp. eexists.
        rewrite sendResponseToContent_give_up by (assumption || lia).
        split; [reflexivity |]. repeat split; try assumption; lia.
    + exists 0%nat, DeliveryLog.TabGone. eexists.
      rewrite sendResponseToContent_tab_gone by assumption.
      split; [reflexivity |]. repeat split; try assumption; lia.
  - destruct (fst (tabs_get tabId (world st))) eqn:Htab.
    + destruct (fst (tabs_sendMessage tabId responseText (snd (tabs_get tabId (world st)))))
        eqn:Hsend.
      * exists 0%nat, DeliveryLog.Sent. eexists.
        rewrite sendResponseToContent_sent by assumption.
        split; [reflexivity |]. repeat split; try assumption; lia.
      * rewrite sendResponseToContent_retry by (assumption || lia).
        destruct (IH (retries - 1) (delay * (3 # 2))%Q
                    (set_world
                       (sleep delay
                          (snd (tabs_sendMessage tabId responseText
                                  (snd (tabs_get tabId (world st))))))
                       (emit [EvTabsGet tabId; EvSendMessage tabId responseText;
                              EvConsole console_warn "Error sending response to content script:";
                              EvConsole console_log "Retrying message sending";
                              EvSetTimeout delay] st)) ltac:(lia))
          as (k & e & w & Hrun & Hle & Hall & Hend).
        exists (S k), e, w. split; [exact Hrun |]. split; [lia |]. split.
        -- intros [| i] Hi; [split; assumption |]. apply Hall. lia.
        -- destruct e; [exact Hend | exact Hend |].
           destruct Hend as [Hf Hr]. split; [exact Hf | lia].
    + exists 0%nat, DeliveryLog.TabGone. eexists.
      rewrite sendResponseToContent_tab_gone by assumption.
      split; [reflexivity |]. repeat split; try assumption; lia.
Qed.
End DeliveryShape.

Lemma failed_attempts_timeouts responseText tabId k : ∀ delay,
  timeouts (DeliveryLog.failed_attempts responseText tabId delay k)
  = map (DeliveryLog.backoff delay) (seq 0 k).
Proof.
  induction k as [| k IH]; intros delay; [reflexivity |].
  simpl. unfold timeouts in *. simpl. rewrite IH.
  rewrite <- seq_shift, map_map. reflexivity.
Qed.

Lemma failed_attempts_sent responseText tabId k : ∀ delay,
  sent_messages (DeliveryLog.failed_attempts responseText tabId delay k)
  = repeat (tabId, responseText) k.
Proof.
  induction k as [| k IH]; intros delay; [reflexivity |].
  simpl. unfold sent_messages in *. simpl. rewrite IH. reflexivity.
Qed.

(** X4. Whatever the tab does and whatever the budget is, a delivery is
    [k] failed sends, each followed by its timer, with
    [k <= max retries 0], and then one last attempt that ends it in one of
    three ways: the tab is gone (no send), the send succeeds (nothing is
    logged), or the send fails with the budget used up (console error).
    Nothing is sent after a successful send. *)
Theorem delivery_outcomes `{Browser} (responseText : string) (tabId : Z) (retries : Z)
    (delay : Q) (st : State) :
  ∃ (k : nat) (e : DeliveryLog.ending),
    trace (sendResponseToContent responseText tabId retries delay st)
    = trace st ++ DeliveryLog.failed_attempts responseText tabId delay k
      ++ DeliveryLog.end_events responseText tabId e
    ∧ Z.of_nat k ≤ Z.max retries 0
    ∧ Forall (λ i, DeliveryLog.send_fails responseText tabId
                     (DeliveryLog.state_before responseText tabId delay i st))
        (seq 0 k)
    ∧ match e with
      | DeliveryLog.TabGone =>
          fst (tabs_get tabId
                 (world (DeliveryLog.state_before responseText tabId delay k st))) = false
      | DeliveryLog.Sent =>
          DeliveryLog.send_succeeds responseText tabId
            (DeliveryLog.state_before responseText tabId delay k st)
      | DeliveryLog.GaveUp =>
          DeliveryLog.send_fails responseText tabId
            (DeliveryLog.state_before responseText tabId delay k st)
          ∧ retries ≤ Z.of_nat k
      end.
Proof.
  destruct (delivery_run_shape responseText tabId _ retries delay st eq_refl)
    as (k & e & w & Hrun & Hle & Hall & Hend).
  exists k, e. split; [| split; [exact Hle | split; [| exact Hend]]].
  - rewrite Hrun. autorewrite with state.
    destruct (state_before_trace responseText tabId k delay st) as [Htr _].
    rewrite Htr, <- app_assoc. reflexivity.
  - apply Forall_forall. intros i Hi. apply Hall.
    apply elem_of_seq in Hi. lia.
Qed.

(** X5. With the default budget and delay, whatever the tab does, a
    delivery sets at most three timers, of 500, 750 and 1125 ms in this
    order (each 1.5 times the one before), sends at most one message
    more than it sets timers, and waits at most 2375 ms in all. *)
Theorem delivery_wait_bound `{Browser} (responseText : string) (tabId : Z) (st : State) :
  ∃ (k : nat) (tr : list event),
    trace (sendResponseToContent_default responseText tabId st) = trace st ++ tr
    ∧ (k ≤ 3)%nat
    ∧ timeouts tr = map (DeliveryLog.backoff 500) (seq 0 k)
    ∧ (length (sent_messages tr) ≤ S k)%nat
    ∧ (DeliveryLog.Qtotal (timeouts tr) <= 2375)%Q
    ∧ (DeliveryLog.backoff 500 0 == 500 ∧ DeliveryLog.backoff 500 1 == 750
       ∧ DeliveryLog.backoff 500 2 == 1125)%Q
    ∧ Forall2 Qeq (timeouts tr) (take k [500; 750; 1125]%Q).
Proof.
  unfold sendResponseToContent_default.
  destruct (delivery_run_shape responseText tabId _ 3 500 st eq_refl)
    as (k & e & w & Hrun & Hle & _ & _).
  destruct (state_before_trace responseText tabId k 500 st) as [Htr _].
  exists k. eexists. split.
  { rewrite Hrun. autorewrite with state. rewrite Htr, <- app_assoc. reflexivity. }
  assert (Hk : (k ≤ 3)%nat) by lia.
  assert (Htime : timeouts (DeliveryLog.failed_attempts responseText tabId 500 k
                            ++ DeliveryLog.end_events responseText tabId e)
                  = map (DeliveryLog.backoff 500) (seq 0 k)).
  { unfold timeouts. rewrite omap_app. fold (timeouts (DeliveryLog.failed_attempts
                                                         responseText tabId 500 k)).
    rewrite failed_attempts_timeouts. destruct e; simpl; rewrite app_nil_r; reflexivity. }
  split; [exact Hk |]. split; [exact Htime |]. split; [| split; [| split]].
  - unfold sent_messages. rewrite omap_app.
    fold (sent_messages (DeliveryLog.failed_attempts responseText tabId 500 k)).
    rewrite failed_attempts_sent, length_app, repeat_length.
    destruct e; simpl; lia.
  - rewrite Htime.
    destruct k as [| [| [| [| k]]]]; [| | | | lia]; vm_compute; discriminate.
  - repeat split; reflexivity.
  - rewrite Htime.
    destruct k as [| [| [| [| k]]]]; [| | | | lia]; repeat constructor.
Qed.

(** ** Dispatch: any store, any network, any tab *)

(** Proves [st = mkState w c tr] field by field, through record literals. *)
Ltac state_fields :=
  apply State_eq; autorewrite with state; cbn [trace world responseCache];
  rewrite <- ?app_assoc; try reflexivity.

Section DispatchShape.
Context `{Browser}.
Implicit Types (st : State).

Lemma config_cases (s : Storage) :
  config_incomplete s ∨ ∃ p config model, configured_with s p config model.
Proof.
  unfold config_incomplete, configured_with.
  destruct (truthy (activeProvider s)) as [p |] eqn:Hp; [| left; left; reflexivity].
  destruct (stored_config s p) as [config |] eqn:Hc;
    [| left; right; left; exists p; split; [reflexivity | exact Hc]].
  destruct (truthy (selectedModel config)) as [model |] eqn:Hm;
    [| left; right; right; left; exists p, config;
       split; [reflexivity | split; [exact Hc | exact Hm]]].
  destruct (truthy (apiKey config)) as [k |] eqn:Hk;
    [| left; right; right; right; exists p, config;
       split; [reflexivity | split; [exact Hc | exact Hk]]].
  right. exists p, config, model.
  split; [reflexivity |]. split; [exact Hc |]. split; [exact Hm |].
  exists k. exact Hk.
Qed.

Lemma call_provider_effect p text config st :
  ∃ r w,
    call_provider p text config st
    = (r, mkState w (responseCache st)
            (trace st ++ DispatchLog.attempt_events p text config))
    ∧ (apiProviders p = None → r = inl (DispatchLog.missing_adapter p)).
Proof.
  unfold call_provider, DispatchLog.attempt_events.
  destruct (apiProviders p) as [a |].
  - destruct (fetchResponse a text config (world st)) as [r w1].
    exists r, w1. split; [| discriminate]. f_equal.
  - exists (inl (DispatchLog.missing_adapter p)), (world st).
    unfold DispatchLog.missing_adapter. split; [| reflexivity].
    rewrite app_nil_r. destruct st; destruct (inherited p); reflexivity.
Qed.

Lemma rounds_S p text config n :
  DispatchLog.rounds p text config (S n)
  = DispatchLog.rounds p text config n
    ++ DispatchLog.attempt_events p text config
    ++ [EvSleep (INITIAL_RETRY_DELAY * 2 ^ Z.of_nat n)].
Proof.
  unfold DispatchLog.rounds. rewrite seq_S, flat_map_app. simpl.
  rewrite app_nil_r. reflexivity.
Qed.

Lemma provider_attempt_state p text config st : ∀ k,
  trace (Retry.attempt_state sleep_state (call_provider p text config)
           INITIAL_RETRY_DELAY k st)
  = trace st ++ DispatchLog.rounds p text config k
  ∧ responseCache (Retry.attempt_state sleep_state (call_provider p text config)
                     INITIAL_RETRY_DELAY k st)
    = responseCache st.
Proof.
  induction k as [| k [IHt IHc]]; simpl Retry.attempt_state.
  - unfold DispatchLog.rounds. simpl. rewrite app_nil_r. split; reflexivity.
  - destruct (call_provider_effect p text config
                (Retry.attempt_state sleep_state (call_provider p text config)
                   INITIAL_RETRY_DELAY k st)) as (r & w & Hcall & _).
    rewrite Hcall. autorewrite with state. simpl snd. simpl.
    rewrite IHt, IHc, rounds_S, <- !app_assoc. split; reflexivity.
Qed.

(** The retry controller around one provider, from any state. *)
Lemma provider_retry_run p text config st :
  ∃ (n : nat) r w,
    retryWithBackoff (call_provider p text config) MAX_RETRIES INITIAL_RETRY_DELAY st
    = (r, mkState w (responseCache st)
            (trace st ++ DispatchLog.rounds p text config n
             ++ DispatchLog.attempt_events p text config))
    ∧ (n ≤ 3)%nat
    ∧ ((∃ e, r = inl e) → n = 3%nat)
    ∧ (apiProviders p = None → r = inl (DispatchLog.missing_adapter p)).
Proof.
  unfold retryWithBackoff.
  destruct (retry_run_shape sleep_state (call_provider p text config)
              MAX_RETRIES INITIAL_RETRY_DELAY st) as (n & Hrun & _ & Hle & Hex).
  rewrite Hrun. simpl fst.
  destruct (provider_attempt_state p text config st n) as [Ht Hc].
  destruct (call_provider_effect p text config
              (Retry.attempt_state sleep_state (call_provider p text config)
                 INITIAL_RETRY_DELAY n st)) as (r & w & Hcall & Hnone).
  exists n, r, w. rewrite Hcall, Ht, Hc, <- app_assoc.
  unfold MAX_RETRIES in *.
  split; [reflexivity |]. split; [lia |]. split; [| exact Hnone].
  intros [e ->].
  assert (Hf : Retry.fails_at (call_provider p text config)
                 (Retry.attempt_state sleep_state (call_provider p text config)
                    INITIAL_RETRY_DELAY n st)) by (exists e; rewrite Hcall; reflexivity).
  specialize (Hex Hf). lia.
Qed.

Lemma fetch_and_cache_run text tabId p config model key st :
  ∃ (n : nat) r w,
    (n ≤ 3)%nat
    ∧ ((∃ e, r = inl e) → n = 3%nat)
    ∧ (apiProviders p = None → r = inl (DispatchLog.missing_adapter p))
    ∧ fetch_and_cache text tabId p config model key st
      = match r with
        | inr answer =>
            (inr tt,
             sendResponseToContent_default answer tabId
               (mkState w (cache_put (now w) key answer (responseCache st))
                  (trace st ++
                   [EvConsole console_log
                      ("Making API request to " +:+ p +:+ " using model " +:+ model)]
                   ++ DispatchLog.rounds p text config n
                   ++ DispatchLog.attempt_events p text config)))
        | inl e =>
            (inl e,
             mkState w (responseCache st)
               (trace st ++
                [EvConsole console_log
                   ("Making API request to " +:+ p +:+ " using model " +:+ model)]
                ++ DispatchLog.rounds p text config n
                ++ DispatchLog.attempt_events p text config))
        end.
Proof.
  destruct (provider_retry_run p text config
              (emit [EvConsole console_log
                       ("Making API request to " +:+ p +:+ " using model " +:+ model)] st))
    as (n & r & w & Hrun & Hn & Herr & Hnone).
  exists n, r, w. split; [exact Hn |]. split; [exact Herr |]. split; [exact Hnone |].
  unfold fetch_and_cache, mbind, M_bind, bind, console, act.
  rewrite Hrun. autorewrite with state. rewrite <- !app_assoc.
  destruct r as [e | answer]; reflexivity.
Qed.

(** Every dispatch, by the path it takes to its one delivery. *)
Lemma dispatch_run_shape text tabId st :
  ∃ (path : DispatchLog.path) (msg : string) (w : World) (c : gmap string CacheEntry)
    (tr : list event),
    fetchAIResponse_body text tabId st
    = sendResponseToContent_default msg tabId (mkState w c (trace st ++ tr))
    ∧ match path with
      | DispatchLog.ConfigError =>
          config_incomplete (storage_get (world st))
          ∧ (∃ m, In m config_messages ∧ msg = "Error: " +:+ m)
          ∧ c = responseCache st
          ∧ tr = [EvStorageGet; EvConsole console_error "Error fetching from AI provider:"]
      | DispatchLog.CacheHit =>
          ∃ p config model,
            configured_with (storage_get (world st)) p config model
            ∧ cache_get (now (world st)) (cacheKey text p model) (responseCache st) = Some msg
            ∧ c = responseCache st
            ∧ tr = [EvStorageGet;
                    EvConsole console_log "Cache hit, returning cached response"]
      | DispatchLog.Fetched =>
          ∃ p a config model (n : nat),
            configured_with (storage_get (world st)) p config model
            ∧ apiProviders p = Some a
            ∧ cache_get (now (world st)) (cacheKey text p model) (responseCache st) = None
            ∧ (n ≤ 3)%nat
            ∧ c = cache_put (now w) (cacheKey text p model) msg (responseCache st)
            ∧ tr = [EvStorageGet;
                    EvConsole console_log
                      ("Making API request to " +:+ p +:+ " using model " +:+ model)]
                   ++ DispatchLog.rounds p text config n ++ [EvFetch a text config]
      | DispatchLog.FetchFailed =>
          ∃ p config model e,
            configured_with (storage_get (world st)) p config model
            ∧ cache_get (now (world st)) (cacheKey text p model) (responseCache st) = None
            ∧ (apiProviders p = None → e = DispatchLog.missing_adapter p)
            ∧ msg = "Error: " +:+ message e
            ∧ c = responseCache st
            ∧ tr = [EvStorageGet;
                    EvConsole console_log
                      ("Making API request to " +:+ p +:+ " using model " +:+ model)]
                   ++ DispatchLog.rounds p text config 3
                   ++ DispatchLog.attempt_events p text config
                   ++ [EvConsole console_error "Error fetching from AI provider:"]
      end.
Proof.
  destruct (config_cases (storage_get (world st))) as [Hinc | (p & config & model & Hcfg)].
  - destruct (fetchAIResponse_try_incomplete text tabId st Hinc) as (m & Hm & Htry).
    exists DispatchLog.ConfigError, ("Error: " +:+ m), (world st), (responseCache st).
    eexists. split.
    + rewrite (dispatch_error _ _ _ _ _ Htry). f_equal. state_fields.
    + split; [exact Hinc |]. split; [exists m; split; [exact Hm | reflexivity] |].
      split; reflexivity.
  - destruct (cache_get (now (world st)) (cacheKey text p model) (responseCache st))
      as [cached |] eqn:Hget.
    + exists DispatchLog.CacheHit, cached, (world st), (responseCache st). eexists. split.
      * apply (dispatch_hit text tabId st p config model cached Hcfg Hget).
      * exists p, config, model.
        split; [exact Hcfg |]. split; [exact Hget |]. split; reflexivity.
    + destruct (fetch_and_cache_run text tabId p config model (cacheKey text p model)
                  (emit [EvStorageGet] st)) as (n & r & w & Hn & Herr & Hnone & Hrun).
      autorewrite with state in Hrun.
      destruct r as [e | answer].
      * exists DispatchLog.FetchFailed, ("Error: " +:+ message e), w, (responseCache st).
        eexists. split.
        -- unfold fetchAIResponse_body, try_catch.
           rewrite (fetchAIResponse_try_configured _ _ _ _ _ _ Hcfg), Hget, Hrun.
           unfold fetchAIResponse_catch. f_equal. state_fields.
        -- exists p, config, model, e.
           rewrite (Herr (ex_intro _ e eq_refl)).
           split; [exact Hcfg |]. split; [exact Hget |]. split.
           ++ intros Hp. specialize (Hnone Hp). congruence.
           ++ split; [reflexivity |]. split; [reflexivity |].
              rewrite <- ?app_assoc. reflexivity.
      * destruct (apiProviders p) as [a |] eqn:Ha;
          [| specialize (Hnone eq_refl); discriminate].
        exists DispatchLog.Fetched, answer, w,
          (cache_put (now w) (cacheKey text p model) answer (responseCache st)).
        eexists. split.
        -- unfold fetchAIResponse_body, try_catch.
           rewrite (fetchAIResponse_try_configured _ _ _ _ _ _ Hcfg), Hget, Hrun.
           f_equal. state_fields.
        -- exists p, a, config, model, n.
           split; [exact Hcfg |]. split; [exact Ha |]. split; [exact Hget |].
           split; [exact Hn |]. split; [reflexivity |].
           unfold DispatchLog.attempt_events. rewrite Ha.
           rewrite <- ?app_assoc. reflexivity.
Qed.
End DispatchShape.

Section DispatchCounts.
Context `{Browser}.

Lemma slept_app tr1 tr2 :
  DispatchLog.slept (tr1 ++ tr2) = DispatchLog.slept tr1 ++ DispatchLog.slept tr2.
Proof. unfold DispatchLog.slept. apply omap_app. Qed.

Lemma sent_messages_app tr1 tr2 :
  sent_messages (tr1 ++ tr2) = sent_messages tr1 ++ sent_messages tr2.
Proof. unfold sent_messages. apply omap_app. Qed.

Lemma attempt_events_counts p text config :
  sent_messages (DispatchLog.attempt_events p text config) = []
  ∧ DispatchLog.slept (DispatchLog.attempt_events p text config) = []
  ∧ (fetch_count (DispatchLog.attempt_events p text config) ≤ 1)%nat.
Proof.
  unfold DispatchLog.attempt_events.
  destruct (apiProviders p); repeat split; simpl; try reflexivity;
    unfold fetch_count; simpl; lia.
Qed.

Lemma rounds_counts p text config n :
  sent_messages (DispatchLog.rounds p text config n) = []
  ∧ DispatchLog.slept (DispatchLog.rounds p text config n)
    = RetryLog.waits INITIAL_RETRY_DELAY 0 n
  ∧ (fetch_count (DispatchLog.rounds p text config n) ≤ n)%nat.
Proof.
  destruct (attempt_events_counts p text config) as (Hs & Hz & Hf).
  induction n as [| n (IHs & IHz & IHf)].
  - repeat split; try reflexivity.
  - rewrite rounds_S.
    rewrite !sent_messages_app, !slept_app, !fetch_count_app, IHs, IHz, Hs, Hz.
    split; [reflexivity |]. split.
    + unfold RetryLog.waits. rewrite seq_S, map_app. reflexivity.
    + unfold fetch_count at 3. simpl. lia.
Qed.

Lemma waits_bound n :
  (n ≤ 3)%nat → 0 ≤ RetryLog.total (RetryLog.waits INITIAL_RETRY_DELAY 0 n) ≤ 7000.
Proof.
  intros Hn. rewrite waits_total. unfold INITIAL_RETRY_DELAY.
  assert (Hpos : 0 < 2 ^ Z.of_nat n) by (apply Z.pow_pos_nonneg; lia).
  assert (Hpow : 2 ^ Z.of_nat n ≤ 2 ^ 3) by (apply Z.pow_le_mono_r; lia).
  change (2 ^ 3) with 8 in Hpow. change (Z.of_nat 0) with 0. lia.
Qed.
End DispatchCounts.

(** X6. Every dispatch, whatever the store, the network and the tab do,
    ends in exactly one call of [sendResponseToContent], for its own tab:
    before that call nothing is sent to any tab, at most four adapter
    calls and three back-off waits (7000 ms in all) happen, and every
    message the call then sends carries the one delivered string to the
    tab of the dispatch. *)
Theorem dispatch_delivers_once `{Browser} (text : string) (tabId : Z) (st : State) :
  ∃ (msg : string) (st1 : State) (tr tr' : list event),
    fetchAIResponse_body text tabId st = sendResponseToContent_default msg tabId st1
    ∧ trace st1 = trace st ++ tr
    ∧ sent_messages tr = []
    ∧ (fetch_count tr ≤ 4)%nat
    ∧ (length (DispatchLog.slept tr) ≤ 3)%nat
    ∧ 0 ≤ RetryLog.total (DispatchLog.slept tr) ≤ 7000
    ∧ trace (fetchAIResponse_body text tabId st) = trace st1 ++ tr'
    ∧ delivery_bounds msg tabId 3 tr'.
Proof.
  destruct (dispatch_run_shape text tabId st) as (path & msg & w & c & tr & Hbody & Hpath).
  destruct (dispatch_delivery_trace msg tabId (mkState w c (trace st ++ tr)))
    as (tr' & Htr' & Hb).
  exists msg, (mkState w c (trace st ++ tr)), tr, tr'.
  split; [exact Hbody |]. split; [reflexivity |].
  assert (Hcounts : sent_messages tr = []
                    ∧ (fetch_count tr ≤ 4)%nat
                    ∧ (length (DispatchLog.slept tr) ≤ 3)%nat
                    ∧ 0 ≤ RetryLog.total (DispatchLog.slept tr) ≤ 7000).
  { destruct path.
    - destruct Hpath as (_ & _ & _ & ->). unfold fetch_count. simpl.
      repeat split; try reflexivity; try lia; vm_compute; discriminate.
    - destruct Hpath as (p & config & model & _ & _ & _ & ->). unfold fetch_count. simpl.
      repeat split; try reflexivity; try lia; vm_compute; discriminate.
    - destruct Hpath as (p & a & config & model & n & _ & _ & _ & Hn & _ & ->).
      destruct (rounds_counts p text config n) as (Hs & Hz & Hf).
      pose proof (waits_bound n Hn) as Hw.
      rewrite !sent_messages_app, !slept_app, !fetch_count_app, Hs, Hz.
      simpl. rewrite app_nil_r, waits_length.
      change (fetch_count [EvFetch a text config]) with 1%nat.
      repeat split; try reflexivity; lia.
    - destruct Hpath as (p & config & model & e & _ & _ & _ & _ & _ & ->).
      destruct (rounds_counts p text config 3) as (Hs & Hz & Hf).
      destruct (attempt_events_counts p text config) as (Hs' & Hz' & Hf').
      pose proof (waits_bound 3 ltac:(lia)) as Hw.
      rewrite !sent_messages_app, !slept_app, !fetch_count_app, Hs, Hz, Hs', Hz'.
      simpl.
      change (fetch_count [EvConsole console_error "Error fetching from AI provider:"])
        with 0%nat.
      unfold INITIAL_RETRY_DELAY.
      repeat split; try reflexivity; try lia; vm_compute; discriminate. }
  destruct Hcounts as (H1 & H2 & H3 & H4).
  split; [exact H1 |]. split; [exact H2 |]. split; [exact H3 |]. split; [exact H4 |].
  split; [| exact Hb].
  rewrite Hbody. exact Htr'.
Qed.

(** X7. A dispatch never removes a cache entry, and it changes the cache
    in one way only: after a miss and at least one adapter call, it
    stores the delivered answer under the key of its own text, provider
    and model, stamped with the time at which the answer arrived.  A
    dispatch served from the cache leaves the cache as it is, so a hit
    does not prolong the life of the entry; a dispatch whose [try] block
    throws stores nothing, so no error text is ever cached. *)
Theorem dispatch_cache_effect `{Browser} (text : string) (tabId : Z) (st : State) :
  let st' := fetchAIResponse_body text tabId st in
  (∀ k e, responseCache st !! k = Some e → is_Some (responseCache st' !! k))
  ∧ (responseCache st' = responseCache st
     ∨ ∃ p config model answer t,
         configured_with (storage_get (world st)) p config model
         ∧ cache_get (now (world st)) (cacheKey text p model) (responseCache st) = None
         ∧ responseCache st' = cache_put t (cacheKey text p model) answer (responseCache st)
         ∧ (fetch_count (trace st) < fetch_count (trace st'))%nat
         ∧ ∃ st1, st' = sendResponseToContent_default answer tabId st1)
  ∧ (∀ p config model cached,
       configured_with (storage_get (world st)) p config model →
       cache_get (now (world st)) (cacheKey text p model) (responseCache st) = Some cached →
       responseCache st' = responseCache st)
  ∧ (∀ e st1,
       fetchAIResponse_try text tabId st = (inl e, st1) →
       responseCache st' = responseCache st).
Proof.
  intros st'.
  destruct (dispatch_run_shape text tabId st) as (path & msg & w & c & tr & Hbody & Hpath).
  fold st' in Hbody.
  assert (Hc : responseCache st' = c).
  { rewrite Hbody. unfold sendResponseToContent_default.
    rewrite sendResponseToContent_cache. reflexivity. }
  assert (Hcases :
    responseCache st' = responseCache st
    ∨ ∃ p config model answer t,
        configured_with (storage_get (world st)) p config model
        ∧ cache_get (now (world st)) (cacheKey text p model) (responseCache st) = None
        ∧ responseCache st' = cache_put t (cacheKey text p model) answer (responseCache st)
        ∧ (fetch_count (trace st) < fetch_count (trace st'))%nat
        ∧ ∃ st1, st' = sendResponseToContent_default answer tabId st1).
  { destruct path.
    - destruct Hpath as (_ & _ & -> & _). left. exact Hc.
    - destruct Hpath as (p & config & model & _ & _ & -> & _). left. exact Hc.
    - destruct Hpath as (p & a & config & model & n & Hcfg & _ & Hget & _ & -> & ->).
      right. exists p, config, model, msg, (now w).
      split; [exact Hcfg |]. split; [exact Hget |]. split; [exact Hc |]. split.
      + rewrite Hbody. unfold sendResponseToContent_default.
        rewrite sendResponseToContent_fetch_count. cbn [trace].
        rewrite !fetch_count_app.
        change (fetch_count [EvFetch a text config]) with 1%nat. lia.
      + eexists. exact Hbody.
    - destruct Hpath as (p & config & model & e & _ & _ & _ & _ & -> & _). left. exact Hc. }
  split; [| split; [exact Hcases | split]].
  - intros k e Hk.
    destruct Hcases as [-> | (p & config & model & answer & t & _ & _ & -> & _)].
    + exists e. exact Hk.
    + unfold cache_put. destruct (decide (cacheKey text p model = k)) as [-> | Hne].
      * rewrite lookup_insert_eq. eexists. reflexivity.
      * rewrite lookup_insert_ne by exact Hne. exists e. exact Hk.
  - intros p config model cached Hcfg Hget.
    unfold st'. rewrite (dispatch_hit text tabId st p config model cached Hcfg Hget).
    unfold sendResponseToContent_default. rewrite sendResponseToContent_cache. reflexivity.
  - intros e st1 Htry.
    unfold st'. rewrite (dispatch_error text tabId st e st1 Htry).
    unfold sendResponseToContent_default.
    rewrite sendResponseToContent_cache. autorewrite with state.
    destruct (config_cases (storage_get (world st))) as [Hinc | (p & config & model & Hcfg)].
    + destruct (fetchAIResponse_try_incomplete text tabId st Hinc) as (m & _ & Htry').
      rewrite Htry' in Htry. injection Htry as _ <-. reflexivity.
    + rewrite (fetchAIResponse_try_configured _ _ _ _ _ _ Hcfg) in Htry.
      destruct (cache_get (now (world st)) (cacheKey text p model) (responseCache st));
        [discriminate |].
      destruct (fetch_and_cache_run text tabId p config model (cacheKey text p model)
                  (emit [EvStorageGet] st)) as (n & r & w' & _ & _ & _ & Hrun).
      rewrite Hrun in Htry. destruct r as [e' | answer]; [| discriminate].
      injection Htry as _ <-. reflexivity.
Qed.

Lemma dispatch_cache_effect_witness :
  responseCache (H := Sample.answering)
    (fetchAIResponse_body "hello" 8
       (set_world (H := Sample.answering) 1000
          (fetchAIResponse_body "hello" 7 (Sample.start Sample.answering 0))))
  = responseCache (H := Sample.answering)
      (fetchAIResponse_body "hello" 7 (Sample.start Sample.answering 0))
  ∧ responseCache (H := Sample.rejecting)
      (fetchAIResponse_body "hello" 7 (Sample.start Sample.rejecting 0)) = ∅
  ∧ is_Some
      (responseCache (H := Sample.answering)
         (fetchAIResponse_body "other" 8
            (set_world (H := Sample.answering) 1000
               (fetchAIResponse_body "hello" 7 (Sample.start Sample.answering 0))))
       !! cacheKey "hello" "groq" "llama3").
Proof.
  split; [| split].
  - pose proof (@dispatch_cache_effect Sample.answering "hello" 8
                  (set_world (H := Sample.answering) 1000
                     (fetchAIResponse_body "hello" 7 (Sample.start Sample.answering 0))))
      as Hc.
    cbv zeta in Hc. destruct Hc as (_ & _ & Hhit & _).
    apply (Hhit "groq" Sample.config "llama3" "Hi there").
    + repeat split; try reflexivity. exists "sk-123". reflexivity.
    + reflexivity.
  - pose proof (@dispatch_cache_effect Sample.rejecting "hello" 7
                  (Sample.start Sample.rejecting 0)) as Hc.
    cbv zeta in Hc. destruct Hc as (_ & _ & _ & Hthrow).
    apply (Hthrow (Error "Invalid API Key")
             (snd (fetchAIResponse_try (H := Sample.rejecting) "hello" 7
                     (Sample.start Sample.rejecting 0)))).
    reflexivity.
  - pose proof (@dispatch_cache_effect Sample.answering "other" 8
                  (set_world (H := Sample.answering) 1000
                     (fetchAIResponse_body "hello" 7 (Sample.start Sample.answering 0))))
      as Hc.
    cbv zeta in Hc. destruct Hc as (Hkeep & _).
    apply (Hkeep (cacheKey "hello" "groq" "llama3") (mkCacheEntry "Hi there" 1)).
    reflexivity.
Defined.

(** X8. When the store is complete but names a provider for which
    [apiProviders] holds no adapter, a dispatch on a miss makes no request
    at all and still runs the whole back-off (waits of 1000, 2000 and
    4000 ms) before it delivers ["Error: "] followed by the message of
    the [TypeError] that the invocation raises: the call of a missing
    [fetchResponse] when the name is one that every object inherits
    (such as [constructor] or [toString]), the property access on
    [undefined] otherwise.  The cache is left as it was. *)
Theorem unknown_provider_dispatch `{Browser} (text : string) (tabId : Z) (st : State)
    (p : string) (config : ProviderConfig) (model : string) :
  configured_with (storage_get (world st)) p config model →
  apiProviders p = None →
  cache_get (now (world st)) (cacheKey text p model) (responseCache st) = None →
  ∃ w,
    fetchAIResponse_body text tabId st
    = sendResponseToContent_default
        ("Error: " +:+
         (if inherited p
          then "apiProviders[activeProvider].fetchResponse is not a function"
          else "Cannot read properties of undefined (reading 'fetchResponse')"))
        tabId
        (mkState w (responseCache st)
           (trace st ++
            [EvStorageGet;
             EvConsole console_log
               ("Making API request to " +:+ p +:+ " using model " +:+ model);
             EvSleep 1000; EvSleep 2000; EvSleep 4000;
             EvConsole console_error "Error fetching from AI provider:"]))
    ∧ fetch_count (trace (fetchAIResponse_body text tabId st)) = fetch_count (trace st)
    ∧ responseCache (fetchAIResponse_body text tabId st) = responseCache st.
Proof.
  intros Hcfg Hp Hget.
  destruct (fetch_and_cache_run text tabId p config model (cacheKey text p model)
              (emit [EvStorageGet] st)) as (n & r & w & _ & Herr & Hnone & Hrun).
  specialize (Hnone Hp). subst r.
  specialize (Herr (ex_intro _ _ eq_refl)). subst n.
  assert (Hbody :
    fetchAIResponse_body text tabId st
    = sendResponseToContent_default
        ("Error: " +:+ message (DispatchLog.missing_adapter p)) tabId
        (mkState w (responseCache st)
           (trace st ++
            [EvStorageGet;
             EvConsole console_log
               ("Making API request to " +:+ p +:+ " using model " +:+ model);
             EvSleep 1000; EvSleep 2000; EvSleep 4000;
             EvConsole console_error "Error fetching from AI provider:"]))).
  { unfold fetchAIResponse_body, try_catch.
    rewrite (fetchAIResponse_try_configured _ _ _ _ _ _ Hcfg), Hget, Hrun.
    unfold fetchAIResponse_catch. f_equal. state_fields.
    unfold DispatchLog.rounds, DispatchLog.attempt_events. rewrite Hp. reflexivity. }
  assert (Hmsg : message (DispatchLog.missing_adapter p)
                 = if inherited p
                   then "apiProviders[activeProvider].fetchResponse is not a function"
                   else "Cannot read properties of undefined (reading 'fetchResponse')").
  { unfold DispatchLog.missing_adapter. destruct (inherited p); reflexivity. }
  rewrite Hmsg in Hbody.
  exists w. split; [exact Hbody |]. split.
  - rewrite Hbody. unfold sendResponseToContent_default.
    rewrite sendResponseToContent_fetch_count. cbn [trace].
    rewrite fetch_count_app. unfold fetch_count at 2. simpl. lia.
  - rewrite Hbody. unfold sendResponseToContent_default.
    rewrite sendResponseToContent_cache. reflexivity.
Qed.

Lemma unknown_provider_dispatch_witness :
  (sent_messages
     (trace (H := Sample2.foreign)
        (fetchAIResponse_body "hello" 7 (Sample.start Sample2.foreign 0)))
   = [(7, "Error: Cannot read properties of undefined (reading 'fetchResponse')")]
   ∧ DispatchLog.slept
       (trace (H := Sample2.foreign)
          (fetchAIResponse_body "hello" 7 (Sample.start Sample2.foreign 0)))
     = [1000; 2000; 4000])
  ∧ (sent_messages
       (trace (H := Sample2.inheriting)
          (fetchAIResponse_body "hello" 7 (Sample.start Sample2.inheriting 0)))
     = [(7, "Error: apiProviders[activeProvider].fetchResponse is not a function")]
     ∧ DispatchLog.slept
         (trace (H := Sample2.inheriting)
            (fetchAIResponse_body "hello" 7 (Sample.start Sample2.inheriting 0)))
       = [1000; 2000; 4000]).
Proof.
  split.
  - destruct (@unknown_provider_dispatch Sample2.foreign "hello" 7
                (Sample.start Sample2.foreign 0) "openai" Sample2.foreign_config "gpt")
      as (w & Hbody & _).
    + repeat split; try reflexivity. exists "sk-999". reflexivity.
    + reflexivity.
    + reflexivity.
    + rewrite Hbody. split; reflexivity.
  - destruct (@unknown_provider_dispatch Sample2.inheriting "hello" 7
                (Sample.start Sample2.inheriting 0) "toString" Sample2.foreign_config "gpt")
      as (w & Hbody & _).
    + repeat split; try reflexivity. exists "sk-999". reflexivity.
    + reflexivity.
    + reflexivity.
    + rewrite Hbody. split; reflexivity.
Defined.

(** ** Cache keys *)

Lemma dash_free_app (a b : string) : dash_free (a +:+ "-" +:+ b) = false.
Proof.
  induction a as [| c a IH]; [reflexivity |].
  rewrite append_cons. simpl. rewrite IH. apply andb_false_r.
Qed.

(** A string is cut in one way only at its last ["-"]. *)
Lemma append_dash_inj (s1 s2 m1 m2 : string) :
  dash_free m1 = true → dash_free m2 = true →
  s1 +:+ "-" +:+ m1 = s2 +:+ "-" +:+ m2 → s1 = s2 ∧ m1 = m2.
Proof.
  intros H1 H2. revert s2.
  induction s1 as [| c s1 IH]; intros [| c' s2] Heq.
  - change (String "-" m1 = String "-" m2) in Heq.
    injection Heq as ->. split; reflexivity.
  - change (String "-" m1 = String c' (s2 +:+ "-" +:+ m2)) in Heq.
    injection Heq as _ Heq.
    rewrite Heq, dash_free_app in H1. discriminate.
  - change (String c (s1 +:+ "-" +:+ m1) = String "-" m2) in Heq.
    injection Heq as _ Heq.
    rewrite <- Heq, dash_free_app in H2. discriminate.
  - change (String c (s1 +:+ "-" +:+ m1) = String c' (s2 +:+ "-" +:+ m2)) in Heq.
    injection Heq as -> Heq.
    destruct (IH s2 Heq) as [-> ->]. split; reflexivity.
Qed.

(** X9. The cache key tells texts apart whenever provider and model are
    the same, whatever the strings are; and when the provider ids and the
    model names contain no ["-"], the key determines text, provider and
    model: two dispatches then share a cache entry only if all three
    agree. *)
Theorem cache_key_unambiguous (t1 p1 m1 t2 p2 m2 : string) :
  (p1 = p2 → m1 = m2 → cacheKey t1 p1 m1 = cacheKey t2 p2 m2 → t1 = t2)
  ∧ (dash_free p1 = true → dash_free m1 = true →
     dash_free p2 = true → dash_free m2 = true →
     cacheKey t1 p1 m1 = cacheKey t2 p2 m2 →
     t1 = t2 ∧ p1 = p2 ∧ m1 = m2).
Proof.
  unfold cacheKey. split.
  - intros -> -> Heq. apply (append_inj_l _ _ ("-" +:+ p2 +:+ "-" +:+ m2)). exact Heq.
  - intros Hp1 Hm1 Hp2 Hm2 Heq.
    assert (Heq' : (t1 +:+ "-" +:+ p1) +:+ "-" +:+ m1 = (t2 +:+ "-" +:+ p2) +:+ "-" +:+ m2)
      by (rewrite !append_assoc; exact Heq).
    destruct (append_dash_inj _ _ _ _ Hm1 Hm2 Heq') as [Hs ->].
    destruct (append_dash_inj _ _ _ _ Hp1 Hp2 Hs) as [-> ->].
    repeat split; reflexivity.
Qed.

Lemma cache_key_unambiguous_witness :
  "what is a cat" = "what is a cat" ∧ "groq" = "groq" ∧ "llama3" = "llama3".
Proof.
  destruct (cache_key_unambiguous "what is a cat" "groq" "llama3"
              "what is a cat" "groq" "llama3") as (Htext & Hall).
  pose proof (Htext eq_refl eq_refl eq_refl) as Ht.
  apply Hall; reflexivity.
Defined.

(** ** Debouncer: any schedule *)

Section DebounceInvariant.
Context {Args : Type}.
Variable wait : Z.
Implicit Types (st : Debounce.loop Args) (ins : list (Debounce.input Args))
  (cs : list Args).

Lemma tick_one_timer t st tm :
  Debounce.timers st = [tm] →
  Debounce.timeout st = Some (Debounce.timer_id tm) →
  Debounce.tick t st
  = if Debounce.fire_at tm <=? t
    then Debounce.mkLoop (Debounce.next_id st) [] (Debounce.timeout st)
           (Debounce.executed st ++ [Debounce.timer_args tm])
    else st.
Proof.
  intros Hts Hto. unfold Debounce.tick. rewrite Hts. simpl. rewrite Hts. simpl.
  destruct (Debounce.fire_at tm <=? t); [| reflexivity].
  unfold Debounce.fire, Debounce.later. simpl.
  rewrite Hts, Hto. unfold Debounce.clearTimeout, Debounce.remove_timer. simpl.
  rewrite Nat.eqb_refl. reflexivity.
Qed.

Lemma call_one_timer t a st cs :
  DebounceLog.single_timer st cs →
  Debounce.timers (Debounce.executedFunction wait t a st)
  = [Debounce.mkTimer (Debounce.next_id st) (t + wait) a]
  ∧ Debounce.timeout (Debounce.executedFunction wait t a st) = Some (Debounce.next_id st)
  ∧ Debounce.executed (Debounce.executedFunction wait t a st) = Debounce.executed st.
Proof.
  intros [[Hts _] | (tm & cs' & Hts & Hto & _ & _)];
    unfold Debounce.executedFunction; simpl; rewrite Hts.
  - destruct (Debounce.timeout st); repeat split; reflexivity.
  - rewrite Hto. unfold Debounce.clearTimeout, Debounce.remove_timer. simpl.
    rewrite Nat.eqb_refl. repeat split; reflexivity.
Qed.

Lemma single_timer_sublist st cs :
  DebounceLog.single_timer st cs → Debounce.executed st `sublist_of` cs.
Proof.
  intros [[_ Hsub] | (tm & cs' & _ & _ & -> & Hsub)]; [exact Hsub |].
  apply sublist_inserts_r. exact Hsub.
Qed.

Lemma single_timer_call t a st cs :
  DebounceLog.single_timer st cs →
  DebounceLog.single_timer (Debounce.executedFunction wait t a st) (cs ++ [a]).
Proof.
  intros Hinv. destruct (call_one_timer t a st cs Hinv) as (Hts & Hto & Hex).
  right. exists (Debounce.mkTimer (Debounce.next_id st) (t + wait) a), cs.
  rewrite Hts, Hto, Hex. repeat split; try reflexivity.
  apply single_timer_sublist. exact Hinv.
Qed.

Lemma single_timer_tick t st cs :
  DebounceLog.single_timer st cs → DebounceLog.single_timer (Debounce.tick t st) cs.
Proof.
  intros [[Hts Hsub] | (tm & cs' & Hts & Hto & -> & Hsub)].
  - rewrite tick_no_timers by exact Hts. left. split; assumption.
  - rewrite (tick_one_timer t st tm Hts Hto).
    destruct (Debounce.fire_at tm <=? t).
    + left. simpl. split; [reflexivity |].
      apply sublist_app; [exact Hsub | reflexivity].
    + right. exists tm, cs'. repeat split; assumption.
Qed.

Lemma single_timer_run ins : ∀ st cs,
  DebounceLog.single_timer st cs →
  DebounceLog.single_timer (Debounce.run wait ins st) (cs ++ DebounceLog.call_args ins).
Proof.
  induction ins as [| [t a | t] ins IH]; intros st cs Hinv; simpl.
  - rewrite app_nil_r. exact Hinv.
  - change (DebounceLog.call_args (Debounce.Call t a :: ins))
      with (a :: DebounceLog.call_args ins).
    rewrite (cons_middle a), app_assoc. apply IH. apply single_timer_call. exact Hinv.
  - change (DebounceLog.call_args (Debounce.Tick t :: ins))
      with (DebounceLog.call_args ins).
    apply IH. apply single_timer_tick. exact Hinv.
Qed.

Lemma single_timer_init : DebounceLog.single_timer (Debounce.init (Args := Args)) [].
Proof. left. split; reflexivity. Qed.

Lemma single_timer_reached ins :
  DebounceLog.single_timer (Debounce.run wait ins Debounce.init) (DebounceLog.call_args ins).
Proof. apply (single_timer_run ins Debounce.init [] single_timer_init). Qed.
End DebounceInvariant.

(** X10. Whatever the schedule of calls and event-loop runs is (times in
    any order, any arguments), the debouncer never has more than one
    timer pending, and the executions of the debounced function are a
    subsequence of its calls: no argument tuple is made up, none runs
    twice for one call, and the order of the calls is kept. *)
Theorem debounce_single_timer {Args : Type} (wait : Z) (ins : list (Debounce.input Args)) :
  let st := Debounce.run wait ins Debounce.init in
  (length (Debounce.timers st) ≤ 1)%nat
  ∧ Debounce.executed st `sublist_of` DebounceLog.call_args ins
  ∧ (length (Debounce.executed st) ≤ length (DebounceLog.call_args ins))%nat.
Proof.
  intros st. pose proof (single_timer_reached wait ins) as Hinv. fold st in Hinv.
  pose proof (single_timer_sublist st _ Hinv) as Hsub.
  split; [| split; [exact Hsub | apply sublist_length; exact Hsub]].
  destruct Hinv as [[-> _] | (tm & cs' & -> & _)]; simpl; lia.
Qed.

(** X11. After a call at time [t], nothing is executed before
    [t + wait]: however the event loop runs at earlier times, and
    whatever happened before the call, the list of executions stays as it
    was and the call's own timer stays pending. *)
Theorem debounce_quiet_window {Args : Type} (wait : Z) (ins : list (Debounce.input Args))
    (t : Z) (a : Args) (ticks : list Z) :
  Forall (λ τ, τ < t + wait) ticks →
  let st := Debounce.run wait ins Debounce.init in
  let st' :=
    Debounce.run wait (ins ++ Debounce.Call t a :: map Debounce.Tick ticks) Debounce.init in
  Debounce.executed st' = Debounce.executed st
  ∧ Debounce.timers st' = [Debounce.mkTimer (Debounce.next_id st) (t + wait) a].
Proof.
  intros Hticks st st'. subst st'. unfold Debounce.run. rewrite fold_left_app. simpl.
  fold (Debounce.run wait ins Debounce.init). fold st.
  destruct (call_one_timer wait t a st _ (single_timer_reached wait ins))
    as (Hts & Hto & Hex).
  revert Hts Hto Hex.
  generalize (Debounce.executedFunction wait t a st). intros s Hts Hto Hex.
  induction Hticks as [| τ ticks Hτ _ IH]; simpl.
  - split; assumption.
  - rewrite (tick_one_timer τ s _ Hts Hto). simpl.
    destruct (Z.leb_spec (t + wait) τ); [lia |]. exact IH.
Qed.

Lemma debounce_quiet_window_witness :
  Debounce.executed
    (Debounce.run 300
       ([Debounce.Call 0 "first"; Debounce.Tick 400]
        ++ Debounce.Call 1000 "second" :: map Debounce.Tick [1100; 1299])
       Debounce.init)
  = ["first"].
Proof.
  pose proof (debounce_quiet_window 300 [Debounce.Call 0 "first"; Debounce.Tick 400]
                1000 "second" [1100; 1299]) as Hq.
  cbv zeta in Hq. destruct Hq as [Hex _].
  - repeat constructor.
  - rewrite Hex. reflexivity.
Defined.

Section DebounceBursts.
Context {Args : Type}.
Variable wait : Z.
Implicit Types (st : Debounce.loop Args) (ins : list (Debounce.input Args))
  (xs : list Args).

(** Earlier executions do not influence what the debouncer does next. *)
Lemma run_timers_prepend xs t fuel : ∀ st,
  Debounce.run_timers fuel t (DebounceLog.prepend xs st)
  = DebounceLog.prepend xs (Debounce.run_timers fuel t st).
Proof.
  induction fuel as [| fuel IH]; intros st; simpl; [reflexivity |].
  destruct (Debounce.next_due t (Debounce.timers st)) as [tm |]; [| reflexivity].
  rewrite <- IH. f_equal.
  unfold Debounce.fire, Debounce.later, DebounceLog.prepend. simpl.
  rewrite app_assoc. reflexivity.
Qed.

Lemma step_prepend xs st i :
  Debounce.step wait (DebounceLog.prepend xs st) i
  = DebounceLog.prepend xs (Debounce.step wait st i).
Proof.
  destruct i as [t a | t]; simpl; [reflexivity |].
  unfold Debounce.tick. apply run_timers_prepend.
Qed.

Lemma run_prepend xs ins : ∀ st,
  Debounce.run wait ins (DebounceLog.prepend xs st)
  = DebounceLog.prepend xs (Debounce.run wait ins st).
Proof.
  induction ins as [| i ins IH]; intros st; simpl; [reflexivity |].
  rewrite step_prepend. apply IH.
Qed.

(** One settled burst, started with nothing pending, adds exactly the
    execution of its last call. *)
Lemma run_settled (b : list (Debounce.input Args) * Z) st :
  DebounceLog.settled wait b → Debounce.timers st = [] →
  ∃ aN,
    Debounce.last_call (fst b) = Some aN
    ∧ Debounce.executed (Debounce.run wait (fst b ++ [Debounce.Tick (snd b)]) st)
      = Debounce.executed st ++ [snd aN]
    ∧ Debounce.timers (Debounce.run wait (fst b ++ [Debounce.Tick (snd b)]) st) = [].
Proof.
  intros (t0 & tN & aN & Hr & Hlast & HT) Hts.
  exists (tN, aN). split; [exact Hlast |].
  set (st0 := Debounce.mkLoop (Debounce.next_id st) (Debounce.timers st)
                (Debounce.timeout st) []).
  assert (Hst : st = DebounceLog.prepend (Debounce.executed st) st0).
  { unfold DebounceLog.prepend, st0. simpl. rewrite app_nil_r. destruct st; reflexivity. }
  assert (Hidle : Debounce.idle st0) by (split; [reflexivity | exact Hts]).
  destruct (run_idle wait (fst b) st0 t0 (snd b) tN aN Hidle Hr Hlast HT) as [Hex Hts'].
  rewrite Hst at 1 3. rewrite run_prepend.
  unfold DebounceLog.prepend. simpl. rewrite Hex, Hts'. split; reflexivity.
Qed.

Lemma run_bursts (bs : list (list (Debounce.input Args) * Z)) : ∀ st,
  Forall (DebounceLog.settled wait) bs → Debounce.timers st = [] →
  Debounce.executed (Debounce.run wait (DebounceLog.schedule bs) st)
  = Debounce.executed st ++ DebounceLog.results bs
  ∧ Debounce.timers (Debounce.run wait (DebounceLog.schedule bs) st) = [].
Proof.
  induction bs as [| b bs IH]; intros st Hall Hts.
  - simpl. rewrite app_nil_r. split; [reflexivity | exact Hts].
  - apply Forall_cons in Hall as [Hb Hall].
    destruct (run_settled b st Hb Hts) as (aN & Hlast & Hex & Hts').
    unfold DebounceLog.schedule. simpl flat_map.
    unfold Debounce.run. rewrite fold_left_app.
    fold (Debounce.run wait (fst b ++ [Debounce.Tick (snd b)]) st).
    fold (DebounceLog.schedule bs).
    fold (Debounce.run wait (DebounceLog.schedule bs)
            (Debounce.run wait (fst b ++ [Debounce.Tick (snd b)]) st)).
    destruct (IH _ Hall Hts') as [Hex2 Hts2].
    rewrite Hex2, Hts2, Hex. split; [| reflexivity].
    unfold DebounceLog.results. simpl. rewrite Hlast. simpl.
    rewrite <- app_assoc. reflexivity.
Qed.
End DebounceBursts.

(** X12. A schedule made of bursts, each of which is over (the event
    loop has run at least [wait] after its last call) before the next one
    begins, executes the debounced function once per burst, with the
    arguments of the last call of each burst, in the order of the bursts;
    no burst is lost and nothing is left pending. *)
Theorem debounce_bursts {Args : Type} (wait : Z)
    (bs : list (list (Debounce.input Args) * Z)) :
  Forall (DebounceLog.settled wait) bs →
  let st := Debounce.run wait (DebounceLog.schedule bs) Debounce.init in
  Debounce.executed st = DebounceLog.results bs
  ∧ length (Debounce.executed st) = length bs
  ∧ Debounce.timers st = [].
Proof.
  intros Hall st.
  destruct (run_bursts wait bs Debounce.init Hall eq_refl) as [Hex Hts].
  fold st in Hex, Hts. simpl in Hex.
  split; [exact Hex |]. split; [| exact Hts].
  rewrite Hex. clear Hex Hts st.
  induction Hall as [| b bs (t0 & tN & aN & _ & Hlast & _) _ IH]; [reflexivity |].
  change (DebounceLog.results (b :: bs))
    with (match snd <$> Debounce.last_call (fst b) with
          | Some a => a :: DebounceLog.results bs
          | None => DebounceLog.results bs
          end).
  rewrite Hlast. simpl. f_equal. exact IH.
Qed.

Lemma debounce_bursts_witness :
  Debounce.executed
    (Debounce.run 300
       (DebounceLog.schedule
          [([Debounce.Call 0 "a"; Debounce.Call 100 "b"], 400);
           ([Debounce.Call 1000 "c"], 1300)])
       Debounce.init)
  = ["b"; "c"].
Proof.
  pose proof (debounce_bursts 300
                [([Debounce.Call 0 "a"; Debounce.Call 100 "b"], 400);
                 ([Debounce.Call 1000 "c"], 1300)]) as Hb.
  cbv zeta in Hb. destruct Hb as (Hex & _).
  - repeat constructor.
    + exists 0, 100, "b". repeat split; try reflexivity; discriminate.
    + exists 1000, 1000, "c". repeat split; try reflexivity; discriminate.
  - rewrite Hex. reflexivity.
Defined.

(** ** The context-menu listener *)

Lemma onClicked_accepted t info tabId wk text :
  ContextMenu.accepted info = Some text →
  ContextMenu.onClicked t info tabId wk
  = ContextMenu.mkWorker (ContextMenu.posted wk ++ [(tabId, text)])
      (Debounce.executedFunction DEBOUNCE_DELAY t (text, tabId) (ContextMenu.debouncer wk)).
Proof.
  unfold ContextMenu.accepted, ContextMenu.onClicked.
  destruct (decide (ContextMenu.menuItemId info = "askAI")); [| discriminate].
  intros ->. reflexivity.
Qed.

Lemma onClicked_ignored t info tabId wk :
  ContextMenu.accepted info = None → ContextMenu.onClicked t info tabId wk = wk.
Proof.
  unfold ContextMenu.accepted, ContextMenu.onClicked.
  destruct (decide (ContextMenu.menuItemId info = "askAI")); [| reflexivity].
  intros ->. reflexivity.
Qed.

Lemma to_inputs_click t info tabId hs :
  ContextMenu.to_inputs (ContextMenu.Click t info tabId :: hs)
  = match ContextMenu.accepted info with
    | Some text => Debounce.Call t (text, tabId) :: ContextMenu.to_inputs hs
    | None => ContextMenu.to_inputs hs
    end
  ∧ ContextMenu.loading (ContextMenu.Click t info tabId :: hs)
    = match ContextMenu.accepted info with
      | Some text => (tabId, text) :: ContextMenu.loading hs
      | None => ContextMenu.loading hs
      end.
Proof.
  unfold ContextMenu.to_inputs, ContextMenu.loading. simpl.
  destruct (ContextMenu.accepted info); split; reflexivity.
Qed.

(** The worker's debounce closure sees exactly the accepted clicks. *)
Lemma handle_simulation hs : ∀ wk,
  ContextMenu.debouncer (fold_left ContextMenu.handle hs wk)
  = Debounce.run DEBOUNCE_DELAY (ContextMenu.to_inputs hs) (ContextMenu.debouncer wk)
  ∧ ContextMenu.posted (fold_left ContextMenu.handle hs wk)
    = ContextMenu.posted wk ++ ContextMenu.loading hs.
Proof.
  induction hs as [| [t info tabId | t] hs IH]; intros wk.
  - simpl. rewrite app_nil_r. split; reflexivity.
  - change (fold_left ContextMenu.handle (ContextMenu.Click t info tabId :: hs) wk)
      with (fold_left ContextMenu.handle hs (ContextMenu.onClicked t info tabId wk)).
    destruct (to_inputs_click t info tabId hs) as [-> ->].
    destruct (ContextMenu.accepted info) as [text |] eqn:Hacc.
    + rewrite (onClicked_accepted _ _ _ _ _ Hacc).
      destruct (IH (ContextMenu.mkWorker (ContextMenu.posted wk ++ [(tabId, text)])
                      (Debounce.executedFunction DEBOUNCE_DELAY t (text, tabId)
                         (ContextMenu.debouncer wk)))) as [Hd Hp].
      rewrite Hd, Hp. simpl. rewrite <- app_assoc. split; reflexivity.
    + rewrite (onClicked_ignored _ _ _ _ Hacc). apply IH.
  - change (fold_left ContextMenu.handle (ContextMenu.Elapse t :: hs) wk)
      with (fold_left ContextMenu.handle hs
              (ContextMenu.mkWorker (ContextMenu.posted wk)
                 (Debounce.tick t (ContextMenu.debouncer wk)))).
    change (ContextMenu.to_inputs (ContextMenu.Elapse t :: hs))
      with (Debounce.Tick t :: ContextMenu.to_inputs hs).
    change (ContextMenu.loading (ContextMenu.Elapse t :: hs))
      with (ContextMenu.loading hs).
    destruct (IH (ContextMenu.mkWorker (ContextMenu.posted wk)
                    (Debounce.tick t (ContextMenu.debouncer wk)))) as [Hd Hp].
    rewrite Hd, Hp. split; reflexivity.
Qed.

(** X13. Clicks on other menu items and clicks with an empty selection
    change nothing, not even the pending timer.  Every accepted click
    tells its tab at once to show the loading state, but in a burst of
    accepted clicks less than 300 ms apart only the last one is
    dispatched: the tabs of the earlier clicks are left with the loading
    state and never get an answer for that click. *)
Theorem click_burst (hs : list ContextMenu.happening) (t0 T tN : Z)
    (text : string) (tabId : Z) :
  Debounce.rapid DEBOUNCE_DELAY t0 None (ContextMenu.to_inputs hs ++ [Debounce.Tick T])
  = true →
  Debounce.last_call (ContextMenu.to_inputs hs) = Some (tN, (text, tabId)) →
  tN + DEBOUNCE_DELAY ≤ T →
  let wk := ContextMenu.run (hs ++ [ContextMenu.Elapse T]) in
  ContextMenu.posted wk = ContextMenu.loading hs
  ∧ Debounce.executed (ContextMenu.debouncer wk) = [(text, tabId)]
  ∧ Debounce.timers (ContextMenu.debouncer wk) = []
  ∧ (∀ t info tab wk', ContextMenu.accepted info = None →
       ContextMenu.onClicked t info tab wk' = wk').
Proof.
  intros Hr Hlast HT wk.
  destruct (handle_simulation (hs ++ [ContextMenu.Elapse T]) ContextMenu.init_worker)
    as [Hd Hp].
  fold (ContextMenu.run (hs ++ [ContextMenu.Elapse T])) in Hd, Hp. fold wk in Hd, Hp.
  assert (Hin : ContextMenu.to_inputs (hs ++ [ContextMenu.Elapse T])
                = ContextMenu.to_inputs hs ++ [Debounce.Tick T]).
  { unfold ContextMenu.to_inputs. rewrite omap_app. reflexivity. }
  assert (Hlo : ContextMenu.loading (hs ++ [ContextMenu.Elapse T]) = ContextMenu.loading hs).
  { unfold ContextMenu.loading. rewrite omap_app. simpl. apply app_nil_r. }
  rewrite Hin in Hd. rewrite Hlo in Hp. simpl in Hd, Hp.
  assert (Hinit : Debounce.idle (Debounce.init (Args := string * Z)))
    by (split; reflexivity).
  destruct (run_idle DEBOUNCE_DELAY (ContextMenu.to_inputs hs) Debounce.init t0 T tN
              (text, tabId) Hinit Hr Hlast HT) as [Hex Hts].
  rewrite Hd. split; [exact Hp |]. split; [exact Hex |]. split; [exact Hts |].
  intros t info tab wk' Hacc. apply onClicked_ignored. exact Hacc.
Qed.

Lemma click_burst_witness :
  ContextMenu.posted
    (ContextMenu.run
       ([ContextMenu.Click 0 (ContextMenu.mkOnClickData "askAI" (Some "cats")) 1;
         ContextMenu.Click 50 (ContextMenu.mkOnClickData "other" (Some "dogs")) 2;
         ContextMenu.Click 200 (ContextMenu.mkOnClickData "askAI" (Some "birds")) 3]
        ++ [ContextMenu.Elapse 500]))
  = [(1, "cats"); (3, "birds")]
  ∧ Debounce.executed
      (ContextMenu.debouncer
         (ContextMenu.run
            ([ContextMenu.Click 0 (ContextMenu.mkOnClickData "askAI" (Some "cats")) 1;
              ContextMenu.Click 50 (ContextMenu.mkOnClickData "other" (Some "dogs")) 2;
              ContextMenu.Click 200 (ContextMenu.mkOnClickData "askAI" (Some "birds")) 3]
             ++ [ContextMenu.Elapse 500])))
    = [("birds", 3)].
Proof.
  pose proof (click_burst
                [ContextMenu.Click 0 (ContextMenu.mkOnClickData "askAI" (Some "cats")) 1;
                 ContextMenu.Click 50 (ContextMenu.mkOnClickData "other" (Some "dogs")) 2;
                 ContextMenu.Click 200 (ContextMenu.mkOnClickData "askAI" (Some "birds")) 3]
                0 500 200 "birds" 3) as Hc.
  cbv zeta in Hc. destruct Hc as (Hp & Hex & _).
  - reflexivity.
  - reflexivity.
  - discriminate.
  - split; [exact Hp | exact Hex].
Defined.

(** ** The settings page *)

Lemma truthy_nonempty (s : string) : s ≠ "" → truthy (Some s) = Some s.
Proof. intros Hne. unfold truthy. destruct (decide (s = "")); [contradiction | reflexivity]. Qed.

Lemma configured_not_incomplete (s : Storage) p config model :
  configured_with s p config model → ¬ config_incomplete s.
Proof.
  intros (Hp & Hc & Hm & [k Hk]) Hinc.
  destruct Hinc as [Hinc | [(p' & Hp' & Hinc) | [(p' & c & Hp' & Hc' & Hinc)
                                                | (p' & c & Hp' & Hc' & Hinc)]]];
    congruence.
Qed.

Section SetupFacts.
Variable trim : string → string.

Lemma save_success (f : Setup.form) (data : Storage) :
  Setup.provider_select f ≠ "" →
  trim (Setup.api_key_input f) ≠ "" →
  trim (Setup.model_input f) ≠ "" →
  Setup.save trim f data
  = (Setup.mkStatus "Configuration saved successfully!" "success",
     mkStorage
       (Some (<[Setup.provider_select f :=
                  mkProviderConfig (Some (trim (Setup.api_key_input f)))
                    (Some (trim (Setup.model_input f)))]>
                (default ∅ (apiConfig data))))
       (Some (Setup.provider_select f))).
Proof.
  intros Hp Hk Hm. unfold Setup.save.
  destruct (decide (Setup.provider_select f = "")); [contradiction |].
  destruct (decide (trim (Setup.api_key_input f) = "")); [contradiction |].
  destruct (decide (trim (Setup.model_input f) = "")); [contradiction |].
  reflexivity.
Qed.

Lemma save_cases (f : Setup.form) (data : Storage) :
  (Setup.status_type (fst (Setup.save trim f data)) = "error"
   ∧ snd (Setup.save trim f data) = data
   ∧ (Setup.provider_select f = "" ∨ trim (Setup.api_key_input f) = ""
      ∨ trim (Setup.model_input f) = ""))
  ∨ (Setup.status_type (fst (Setup.save trim f data)) = "success"
     ∧ Setup.provider_select f ≠ ""
     ∧ trim (Setup.api_key_input f) ≠ ""
     ∧ trim (Setup.model_input f) ≠ "").
Proof.
  unfold Setup.save.
  destruct (decide (Setup.provider_select f = "")); [left; auto |].
  destruct (decide (trim (Setup.api_key_input f) = "")); [left; auto |].
  destruct (decide (trim (Setup.model_input f) = "")); [left; auto |].
  right. auto.
Qed.
End SetupFacts.

(** X14. Whatever [trim] does, a click on the save button either rejects
    the form (one of the three values is empty after trimming), shows an
    error and leaves the store as it was, or stores a configuration with
    which the dispatch never fails its configuration checks: the saved
    provider is the active one and its entry has the trimmed, non-empty
    model and API key. *)
Theorem save_dichotomy (trim : string → string) (f : Setup.form) (data : Storage) :
  let provider := Setup.provider_select f in
  let apiKey := trim (Setup.api_key_input f) in
  let model := trim (Setup.model_input f) in
  let st := fst (Setup.save trim f data) in
  let data' := snd (Setup.save trim f data) in
  (Setup.status_type st = "error" ∧ data' = data
   ∧ (provider = "" ∨ apiKey = "" ∨ model = ""))
  ∨ (Setup.status_type st = "success"
     ∧ configured_with data' provider (mkProviderConfig (Some apiKey) (Some model)) model
     ∧ ¬ config_incomplete data').
Proof.
  intros provider apiKey model st data'. subst st data'.
  destruct (save_cases trim f data) as [(Ht & Hd & Hempty) | (Ht & Hp & Hk & Hm)].
  - left. split; [exact Ht |]. split; [exact Hd | exact Hempty].
  - right. split; [exact Ht |].
    assert (Hcfg : configured_with (snd (Setup.save trim f data)) provider
                     (mkProviderConfig (Some apiKey) (Some model)) model).
    { rewrite (save_success trim f data Hp Hk Hm). unfold configured_with, stored_config.
      simpl. rewrite lookup_insert_eq.
      split; [apply truthy_nonempty; exact Hp |]. split; [reflexivity |].
      split; [apply truthy_nonempty; exact Hm |].
      exists apiKey. apply truthy_nonempty. exact Hk. }
    split; [exact Hcfg |]. eapply configured_not_incomplete. exact Hcfg.
Qed.

(** X15. A successful save is read back by [loadProviderConfig] as the
    trimmed values, makes its provider the active one, and leaves the
    entries of all other providers as they were, so that the credentials
    of several providers are kept side by side. *)
Theorem save_keeps_other_providers (trim : string → string) (f : Setup.form)
    (data : Storage) :
  let data' := snd (Setup.save trim f data) in
  Setup.status_type (fst (Setup.save trim f data)) = "success" →
  Setup.loadProviderConfig (Setup.provider_select f) data'
  = (trim (Setup.api_key_input f), trim (Setup.model_input f))
  ∧ activeProvider data' = Some (Setup.provider_select f)
  ∧ ∀ p, p ≠ Setup.provider_select f →
         stored_config data' p = stored_config data p
         ∧ Setup.loadProviderConfig p data' = Setup.loadProviderConfig p data.
Proof.
  intros data' Hok. subst data'.
  destruct (save_cases trim f data) as [(Ht & _) | (_ & Hp & Hk & Hm)].
  { rewrite Ht in Hok. discriminate. }
  rewrite (save_success trim f data Hp Hk Hm). simpl.
  unfold Setup.loadProviderConfig, stored_config. simpl. rewrite lookup_insert_eq. simpl.
  split; [reflexivity |]. split; [reflexivity |].
  intros p Hne. rewrite lookup_insert_ne by (intros Heq; apply Hne; symmetry; exact Heq).
  destruct (apiConfig data) as [configs |]; simpl; split; reflexivity.
Qed.

Lemma save_dichotomy_witness :
  configured_with
    (snd (Setup.save Setup.trim_front (Setup.mkForm "groq" "  sk-1" " llama3")
            Sample.unconfigured))
    "groq" (mkProviderConfig (Some "sk-1") (Some "llama3")) "llama3"
  ∨ snd (Setup.save Setup.trim_front (Setup.mkForm "groq" "  sk-1" " llama3")
           Sample.unconfigured) = Sample.unconfigured.
Proof.
  pose proof (save_dichotomy Setup.trim_front (Setup.mkForm "groq" "  sk-1" " llama3")
                Sample.unconfigured) as Hs.
  cbv zeta in Hs. destruct Hs as [(_ & Hsame & _) | (_ & Hcfg & _)].
  - right. exact Hsame.
  - left. exact Hcfg.
Defined.

Lemma save_keeps_other_providers_witness :
  Setup.loadProviderConfig "groq"
    (snd (Setup.save Setup.trim_front (Setup.mkForm "gemini" " key-2" "flash")
            Sample.configured))
  = ("sk-123", "llama3")
  ∧ Setup.loadProviderConfig "gemini"
      (snd (Setup.save Setup.trim_front (Setup.mkForm "gemini" " key-2" "flash")
              Sample.configured))
    = ("key-2", "flash").
Proof.
  pose proof (save_keeps_other_providers Setup.trim_front
                (Setup.mkForm "gemini" " key-2" "flash") Sample.configured) as Hs.
  cbv zeta in Hs. destruct Hs as (Hload & _ & Hother); [reflexivity |].
  destruct (Hother "groq") as [_ Hgroq]; [discriminate |].
  split; [rewrite Hgroq; reflexivity | exact Hload].
Defined.

(** ** Provider adapters *)

Lemma prefix_append (m x : string) : String.prefix m (m +:+ x) = true.
Proof.
  induction m as [| c m IH]; [destruct x; reflexivity |].
  rewrite append_cons. simpl. destruct (Ascii.ascii_dec c c); [exact IH | contradiction].
Qed.

(** A string that lacks the first character of the needle does not
    include the needle. *)
Lemma includes_free_of (c : ascii) (needle hay : string) :
  Adapter.free_of c hay = true → Adapter.includes (String c needle) hay = false.
Proof.
  induction hay as [| c' hay IH]; [reflexivity |].
  simpl. intros Hfree. apply andb_prop in Hfree as [Hc Hfree].
  rewrite (IH Hfree), orb_false_r.
  destruct (Ascii.ascii_dec c c') as [-> |]; [| reflexivity].
  rewrite Ascii.eqb_refl in Hc. discriminate.
Qed.

Lemma free_of_append (c : ascii) (a b : string) :
  Adapter.free_of c (a +:+ b) = Adapter.free_of c a && Adapter.free_of c b.
Proof.
  induction a as [| c' a IH]; [reflexivity |].
  rewrite append_cons. simpl. rewrite IH, andb_assoc. reflexivity.
Qed.

Lemma pretty_N_go_free (c : ascii) :
  (∀ d, d < 10 → pretty_N_char d ≠ c)%N →
  ∀ x s, Adapter.free_of c s = true → Adapter.free_of c (pretty_N_go x s) = true.
Proof.
  intros Hdigit x. induction (N.lt_wf_0 x) as [x _ IH]. intros s Hs.
  destruct (decide (x = 0%N)) as [-> | Hne]; [exact Hs |].
  rewrite pretty_N_go_step by lia.
  apply IH; [apply N.div_lt; lia |].
  simpl. rewrite Hs, andb_true_r.
  destruct (Ascii.eqb_spec (pretty_N_char (x `mod` 10)) c) as [Heq | _]; [| reflexivity].
  exfalso. apply (Hdigit (x `mod` 10)%N); [apply N.mod_lt; lia | exact Heq].
Qed.

Lemma pretty_N_free_F (n : N) : Adapter.free_of "F" (pretty n) = true.
Proof.
  unfold pretty, pretty_N. destruct (decide (n = 0%N)); [reflexivity |].
  apply pretty_N_go_free; [| reflexivity].
  intros d Hd. unfold pretty_N_char.
  repeat (discriminate || case_match).
Qed.

(** No "HTTP error" message, with or without the key hint, includes
    ["Failed to fetch"]. *)
Lemma http_error_kept (r : Adapter.response) (hint : string) :
  Adapter.free_of "F" hint = true →
  Adapter.includes "Failed to fetch" (Adapter.http_error r +:+ hint) = false.
Proof.
  intros Hhint. apply includes_free_of.
  unfold Adapter.http_error. rewrite !free_of_append, pretty_N_free_F, Hhint. reflexivity.
Qed.

Lemma groq_catch_clean (e : JsError) :
  Adapter.includes "Failed to fetch" (message (Adapter.groq_catch e)) = false.
Proof.
  unfold Adapter.groq_catch.
  destruct (Adapter.includes "Failed to fetch" (message e)) eqn:He; [reflexivity | exact He].
Qed.

Lemma groq_catch_keeps (e : JsError) :
  Adapter.includes "Failed to fetch" (message e) = false → Adapter.groq_catch e = e.
Proof. intros He. unfold Adapter.groq_catch. rewrite He. reflexivity. Qed.

Lemma append_empty_r (s : string) : s +:+ "" = s.
Proof. induction s as [| c s IH]; [reflexivity |]. rewrite append_cons, IH. reflexivity. Qed.

Lemma and_error_truthy (d : Adapter.json) :
  Adapter.truthy (Adapter.and_error d)
  = Adapter.truthy (Adapter.opt (Adapter.get "error") (Some d)).
Proof.
  unfold Adapter.and_error.
  destruct d as [| [|] | [q | neg] | s | items | ms]; try reflexivity.
  - cbn [Adapter.truthy Adapter.get Adapter.opt].
    destruct (negb (Qeq_bool q 0)) eqn:Hq; cbn [Adapter.truthy]; [| rewrite Hq]; reflexivity.
  - cbn [Adapter.truthy Adapter.get Adapter.opt].
    destruct (decide (s = "")) as [Hs | Hs] eqn:Hdec; cbn [Adapter.truthy];
      [rewrite Hdec |]; reflexivity.
Qed.

(** A separator that does not occur leaves the string in one piece. *)
Lemma split_go_absent (sep s cur : string) :
  Adapter.includes sep s = false → Adapter.split_go sep 0 cur s = [cur +:+ s].
Proof.
  revert cur. induction s as [| c s IH]; intros cur Hinc.
  - simpl. rewrite append_empty_r. reflexivity.
  - cbn [Adapter.includes] in Hinc. apply orb_false_elim in Hinc as [Hpre Hinc].
    cbn [Adapter.split_go]. rewrite Hpre, (IH _ Hinc), append_assoc. reflexivity.
Qed.

Lemma split_absent (sep s : string) :
  Adapter.includes sep s = false → Adapter.split sep s !! 1%nat = None.
Proof. intros Hinc. unfold Adapter.split. rewrite (split_go_absent _ _ _ Hinc). reflexivity. Qed.

(** The check of the answer: only a truthy value passes. *)
Lemma checked_truthy (o : Adapter.value) (v : Adapter.json) :
  match o with
  | Some x => if Adapter.truthy o then inr x else inl Adapter.format_error
  | None => inl Adapter.format_error
  end = inr v →
  Adapter.truthy (Some v) = true.
Proof.
  destruct o as [x |]; [| discriminate].
  destruct (Adapter.truthy (Some x)) eqn:Hx; [| discriminate].
  intros [= <-]. exact Hx.
Qed.

Lemma gemini_answer_truthy (data v : Adapter.json) :
  Adapter.gemini_answer data = inr v → Adapter.truthy (Some v) = true.
Proof.
  unfold Adapter.gemini_answer. destruct data; try discriminate; apply checked_truthy.
Qed.

Lemma chat_answer_truthy (data v : Adapter.json) :
  Adapter.chat_answer data = inr v → Adapter.truthy (Some v) = true.
Proof.
  unfold Adapter.chat_answer. destruct data; try discriminate; apply checked_truthy.
Qed.

Section AdapterFacts.
Context {World : Type}.
Variable fetch : Adapter.request → World → (JsError + Adapter.response) * World.
Variable to_String : Adapter.json → string.

#[local] Abbreviation fetchResponse := (Adapter.provider_fetchResponse fetch to_String).

Lemma groq_try_answer (config : ProviderConfig) (r : Adapter.response) (v : Adapter.json) :
  Adapter.groq_try to_String config r = inr v →
  ∃ data, Adapter.ok r = true ∧ Adapter.parsed r = inr data
          ∧ Adapter.truthy (Adapter.error_of r) = false
          ∧ Adapter.chat_answer data = inr v.
Proof.
  unfold Adapter.groq_try. rewrite and_error_truthy. fold (Adapter.error_of r).
  destruct (Adapter.ok r); [| discriminate].
  destruct (Adapter.truthy (Adapter.error_of r)); [discriminate |].
  cbn [negb orb]. unfold Adapter.json_or_null.
  destruct (Adapter.parsed r) as [e | data]; [discriminate |].
  intros Hans. exists data. repeat split. exact Hans.
Qed.

(** The failure block of GROQ when the body names no error. *)
Lemma groq_failure_plain (config : ProviderConfig) (r : Adapter.response) :
  Adapter.truthy (Adapter.error_of r) = false →
  Adapter.groq_failure to_String config r
  = Error (Adapter.http_error r
           +:+ if decide (Adapter.status r = 401%N) then Adapter.key_hint else "").
Proof.
  intros Herr. unfold Adapter.groq_failure, Adapter.groq_error_message.
  cbv zeta. destruct (Adapter.error_of r) as [err |].
  - rewrite Herr. cbn [Adapter.String_].
    destruct (decide (Adapter.status r = 401%N)); [reflexivity |].
    rewrite append_empty_r. reflexivity.
  - cbn [Adapter.String_].
    destruct (decide (Adapter.status r = 401%N)); [reflexivity |].
    rewrite append_empty_r. reflexivity.
Qed.

(** X16. An adapter returns a value only for a response with a status
    from 200 to 299 whose body parsed as JSON, and the value it returns
    is truthy; GROQ moreover only when the body has no truthy [error]
    member. *)
Theorem adapter_answers (p : Provider) (text : string) (config : ProviderConfig)
    (w w' : World) (v : Adapter.json) :
  fetchResponse p text config w = (inr v, w') →
  ∃ r data,
    fetch (Adapter.request_for p text config) w = (inr r, w')
    ∧ Adapter.ok r = true
    ∧ Adapter.parsed r = inr data
    ∧ Adapter.truthy (Some v) = true
    ∧ (p = groq → Adapter.truthy (Adapter.error_of r) = false).
Proof.
  destruct p; cbn [Adapter.provider_fetchResponse Adapter.request_for].
  - unfold Adapter.gemini_fetchResponse.
    destruct (fetch _ w) as [[e | r] w1]; [discriminate |].
    destruct (Adapter.ok r) eqn:Hok; [| discriminate].
    destruct (Adapter.parsed r) as [e | data] eqn:Hdata; [discriminate |].
    intros [= Hans <-]. exists r, data.
    repeat split; [exact Hok | exact Hdata | exact (gemini_answer_truthy _ _ Hans) | discriminate].
  - unfold Adapter.openrouter_fetchResponse.
    destruct (fetch _ w) as [[e | r] w1]; [discriminate |].
    destruct (Adapter.ok r) eqn:Hok; [| discriminate].
    destruct (Adapter.parsed r) as [e | data] eqn:Hdata; [discriminate |].
    intros [= Hans <-]. exists r, data.
    repeat split; [exact Hok | exact Hdata | exact (chat_answer_truthy _ _ Hans) | discriminate].
  - unfold Adapter.groq_fetchResponse.
    destruct (fetch _ w) as [[e | r] w1]; [discriminate |].
    destruct (Adapter.groq_try to_String config r) as [e | v1] eqn:Htry; [discriminate |].
    intros [= <- <-].
    destruct (groq_try_answer _ _ _ Htry) as (data & Hok & Hdata & Herr & Hans).
    exists r, data.
    repeat split; [exact Hok | exact Hdata | exact (chat_answer_truthy _ _ Hans) |].
    intros _. exact Herr.
Qed.

(** X17. When the response has a status outside 200-299 and its body
    gives no usable error text (for Gemini and OpenRouter: no truthy
    [error.message]; for GROQ: no truthy [error]; a body that is not
    JSON counts as such), every adapter throws an [Error] whose message
    is ["HTTP error! status: "] followed by the status in decimal.  Only
    GROQ appends the API-key hint, and only for status 401. *)
Theorem status_fallback (p : Provider) (text : string) (config : ProviderConfig)
    (w w' : World) (r : Adapter.response) :
  fetch (Adapter.request_for p text config) w = (inr r, w') →
  Adapter.ok r = false →
  Adapter.truthy (match p with
                  | groq => Adapter.error_of r
                  | _ => Adapter.error_message_of r
                  end) = false →
  fetchResponse p text config w
  = (inl (Error ("HTTP error! status: " +:+ pretty (Adapter.status r)
                 +:+ match p with
                     | groq => if decide (Adapter.status r = 401%N)
                               then Adapter.key_hint else ""
                     | _ => ""
                     end)), w').
Proof.
  intros Hfetch Hok Hnone. fold (Adapter.http_error r).
  destruct p; cbn [Adapter.provider_fetchResponse Adapter.request_for] in *.
  - unfold Adapter.gemini_fetchResponse. rewrite Hfetch, Hok.
    unfold Adapter.gemini_failure. rewrite append_empty_r.
    destruct (Adapter.error_message_of r) as [v |]; [rewrite Hnone |]; reflexivity.
  - unfold Adapter.openrouter_fetchResponse. rewrite Hfetch, Hok.
    unfold Adapter.openrouter_failure. rewrite append_empty_r.
    destruct (Adapter.error_message_of r) as [v |]; [rewrite Hnone |]; reflexivity.
  - unfold Adapter.groq_fetchResponse. rewrite Hfetch.
    unfold Adapter.groq_try. rewrite Hok. cbn [negb orb].
    rewrite (groq_failure_plain _ _ Hnone), groq_catch_keeps; [reflexivity |].
    apply http_error_kept. destruct (decide (Adapter.status r = 401%N)); reflexivity.
Qed.

(** X18. Gemini and OpenRouter never lose the server's own error text:
    when the response has a status outside 200-299 and [error.message]
    of its body is a string that is not empty, the [Error] they throw
    carries that string, followed by nothing, by the API-key hint or by
    the model-name hint. *)
Theorem server_message_kept (p : Provider) (text : string) (config : ProviderConfig)
    (w w' : World) (r : Adapter.response) (m : string) :
  p ≠ groq →
  fetch (Adapter.request_for p text config) w = (inr r, w') →
  Adapter.ok r = false →
  Adapter.error_message_of r = Some (Adapter.JStr m) →
  m ≠ "" →
  ∃ hint, In hint [""; Adapter.key_hint; Adapter.model_hint]
          ∧ fetchResponse p text config w = (inl (Error (m +:+ hint)), w').
Proof.
  intros Hp Hfetch Hok Hmsg Hm.
  assert (Htruthy : Adapter.truthy (Some (Adapter.JStr m)) = true).
  { simpl. destruct (decide (m = "")); [contradiction | reflexivity]. }
  destruct p; [| | contradiction];
    cbn [Adapter.provider_fetchResponse Adapter.request_for] in *.
  - unfold Adapter.gemini_fetchResponse. rewrite Hfetch, Hok.
    unfold Adapter.gemini_failure. rewrite Hmsg, Htruthy.
    cbn [Adapter.call_includes Adapter.String_].
    destruct (Adapter.includes "API key not valid" m).
    { exists Adapter.key_hint. split; [simpl; tauto | reflexivity]. }
    destruct (Adapter.includes "Model not found" m).
    { exists Adapter.model_hint. split; [simpl; tauto | reflexivity]. }
    exists "". rewrite append_empty_r. split; [simpl; tauto | reflexivity].
  - unfold Adapter.openrouter_fetchResponse. rewrite Hfetch, Hok.
    unfold Adapter.openrouter_failure. rewrite Hmsg, Htruthy.
    cbn [Adapter.String_].
    destruct (decide (Adapter.status r = 401%N)).
    { exists Adapter.key_hint. split; [simpl; tauto | reflexivity]. }
    destruct (decide (Adapter.status r = 404%N)).
    { exists Adapter.model_hint. split; [simpl; tauto | reflexivity]. }
    exists "". rewrite append_empty_r. split; [simpl; tauto | reflexivity].
Qed.

(** X19. GROQ never throws an error whose message includes
    ["Failed to fetch"]: whatever the network and the server do, every
    error that leaves the adapter has passed its [catch] block. *)
Theorem groq_hides_failed_fetch (text : string) (config : ProviderConfig)
    (w w' : World) (e : JsError) :
  Adapter.groq_fetchResponse fetch to_String text config w = (inl e, w') →
  Adapter.includes "Failed to fetch" (message e) = false.
Proof.
  unfold Adapter.groq_fetchResponse.
  destruct (fetch _ w) as [[e0 | r] w1].
  - intros [= <- <-]. apply groq_catch_clean.
  - destruct (Adapter.groq_try to_String config r) as [e0 | v]; [| discriminate].
    intros [= <- <-]. apply groq_catch_clean.
Qed.

(** X20. When GROQ's error message says that the model "has been
    decommissioned" but has no ["refer to "] in it, the text shown in
    place of the recommendation is the word [undefined]: the failure
    block throws "Model <model> is no longer available. Please check
    undefined", with the API-key hint after it for status 401. *)
Theorem decommissioned_without_reference (config : ProviderConfig) (r : Adapter.response)
    (data err : Adapter.json) (m : string) :
  Adapter.parsed r = inr data →
  Adapter.get "error" data = Some err →
  Adapter.get "message" err = Some (Adapter.JStr m) →
  Adapter.includes "has been decommissioned" m = true →
  Adapter.includes "refer to " m = false →
  Adapter.groq_try to_String config r
  = inl (Error (("Model " +:+ Adapter.interpolate (selectedModel config)
                 +:+ " is no longer available. Please check undefined")
                +:+ if decide (Adapter.status r = 401%N) then Adapter.key_hint else "")).
Proof.
  intros Hdata Herr Hmsg Hdec Href.
  assert (Hjson : Adapter.json_or_null r = data).
  { unfold Adapter.json_or_null. rewrite Hdata. reflexivity. }
  assert (Herror : Adapter.error_of r = Some err).
  { unfold Adapter.error_of. rewrite Hjson.
    destruct data; try discriminate; exact Herr. }
  assert (Htruthy : Adapter.truthy (Some err) = true).
  { destruct err; try discriminate; reflexivity. }
  assert (Hm : Adapter.truthy (Some (Adapter.JStr m)) = true).
  { simpl. destruct (decide (m = "")) as [-> |]; [discriminate | reflexivity]. }
  unfold Adapter.groq_try.
  rewrite and_error_truthy. fold (Adapter.error_of r). rewrite Herror, Htruthy, orb_true_r.
  unfold Adapter.groq_failure, Adapter.groq_error_message.
  cbv zeta. rewrite Herror, Htruthy, Hmsg, Hm.
  cbn [default from_option id Adapter.call_includes Adapter.call_split].
  rewrite Hdec, (split_absent _ _ Href).
  cbn [Adapter.String_ Adapter.interpolate].
  destruct (decide (Adapter.status r = 401%N)); [reflexivity |].
  rewrite !append_empty_r. reflexivity.
Qed.

End AdapterFacts.

Lemma adapter_answers_witness :
  ∃ r data,
    SampleNet.server SampleNet.gemini_reply
      (Adapter.request_for gemini "cat" SampleNet.config) 0%nat = (inr r, 1%nat)
    ∧ Adapter.ok r = true
    ∧ Adapter.parsed r = inr data
    ∧ Adapter.truthy (Some (Adapter.JStr "Meow")) = true
    ∧ (gemini = groq → Adapter.truthy (Adapter.error_of r) = false).
Proof.
  apply (adapter_answers (SampleNet.server SampleNet.gemini_reply) SampleNet.to_String
           gemini "cat" SampleNet.config 0%nat 1%nat (Adapter.JStr "Meow")).
  reflexivity.
Defined.

Lemma status_fallback_witness :
  Adapter.provider_fetchResponse (SampleNet.server SampleNet.bad_gateway) SampleNet.to_String
    groq "cat" SampleNet.config 0%nat
  = (inl (Error "HTTP error! status: 502"), 1%nat).
Proof.
  apply (status_fallback (SampleNet.server SampleNet.bad_gateway) SampleNet.to_String
           groq "cat" SampleNet.config 0%nat 1%nat SampleNet.bad_gateway);
    reflexivity.
Defined.

Lemma server_message_kept_witness :
  ∃ hint, In hint [""; Adapter.key_hint; Adapter.model_hint]
    ∧ Adapter.provider_fetchResponse (SampleNet.server SampleNet.invalid_key)
        SampleNet.to_String gemini "cat" SampleNet.config 0%nat
      = (inl (Error ("API key not valid. Please pass a valid API key." +:+ hint)), 1%nat).
Proof.
  apply (server_message_kept (SampleNet.server SampleNet.invalid_key) SampleNet.to_String
           gemini "cat" SampleNet.config 0%nat 1%nat SampleNet.invalid_key);
    [discriminate | reflexivity | reflexivity | reflexivity | discriminate].
Defined.

Lemma groq_hides_failed_fetch_witness :
  Adapter.includes "Failed to fetch"
    "Network error. Please check your internet connection." = false.
Proof.
  apply (groq_hides_failed_fetch
           (λ (_ : Adapter.request) (w : nat), (inl (Adapter.TypeError "Failed to fetch"), S w))
           SampleNet.to_String "cat" SampleNet.config 0%nat 1%nat
           (Error "Network error. Please check your internet connection.")).
  reflexivity.
Defined.

Lemma decommissioned_without_reference_witness :
  Adapter.groq_try SampleNet.to_String SampleNet.config SampleNet.retired_model
  = inl (Error "Model llama2-70b-4096 is no longer available. Please check undefined").
Proof.
  apply (decommissioned_without_reference SampleNet.to_String SampleNet.config
           SampleNet.retired_model _ _ _ eq_refl eq_refl eq_refl eq_refl eq_refl).
Defined.
